(** * ASER: relations and the discourse extraction engine

    A shallow embedding of [aser/relation.py], of the class
    [DiscourseASERExtractor3] (with the checks of [BaseASERExtractor]) of
    [aser/extract/aser_extractor.py], and of the import by which
    [aser/server/__init__.py] reaches the extractor, followed by the
    properties of the paragraph merge engine.

    Conventions of the embedding.
    - A Python call that may raise returns a [result]; the exceptions are
      the ones the modelled code can raise itself.
    - Python [int] is [Z]; list subscripts follow Python (a negative
      subscript counts from the end, out of range raises [IndexError]).
    - Sense weights are IEEE binary64 numbers, as Python's [float].
    - A [dict] used as a map is a [gmap]; a list mutated in place is a list
      threaded through the loop that mutates it.
    - The order in which a [set] is iterated is not fixed by the language:
      where a loop visits a set and the order shows in the result, the
      order is a parameter ([clause_order]).
    - A Python [str] is the string of its UTF-8 bytes, so that
      [s.encode('utf-8')] is the identity on the representation.
    - Collaborators whose code lives outside these modules (the
      connective pipeline, the eventuality extractor, the argument matcher,
      the clause splitter) are fields of the record [Collaborators]. *)

From Stdlib Require Import ZArith NArith String Ascii List Lia Bool.
From Stdlib Require Import Floats.PrimFloat.
From stdpp Require Import base option list gmap strings.

Open Scope string_scope.
Open Scope list_scope.
Open Scope Z_scope.

(* ===================================================================== *)
(** * The Python runtime fragment used by the code *)
(* ===================================================================== *)

Module Py.

Inductive exn : Type :=
| AttributeError
| NameError
| NotImplementedError
| IndexError
| KeyError
| TypeError
| ZeroDivisionError.

Inductive result (A : Type) : Type :=
| Ok (a : A)
| Raise (e : exn).

Arguments Ok {A} a.
Arguments Raise {A} e.

Definition bind {A B : Type} (m : result A) (k : A → result B) : result B :=
  match m with
  | Ok a => k a
  | Raise e => Raise e
  end.

(** [for x in xs: acc = body(acc, x)], stopping at the first exception. *)
Fixpoint for_each {S X : Type} (body : S → X → result S) (xs : list X) (acc : S)
  : result S :=
  match xs with
  | [] => Ok acc
  | x :: rest => bind (body acc x) (for_each body rest)
  end.

(** [[f(x) for x in xs]] with a fallible [f], evaluated left to right. *)
Fixpoint map_each {X Y : Type} (f : X → result Y) (xs : list X) : result (list Y) :=
  match xs with
  | [] => Ok []
  | x :: rest =>
      bind (f x) (λ y, bind (map_each f rest) (λ ys, Ok (y :: ys)))
  end.

(** [len(l)] as a Python integer. *)
Definition len {A : Type} (l : list A) : Z := Z.of_nat (length l).

(** [l[i]]: negative subscripts count from the end. *)
Definition getitem {A : Type} (l : list A) (i : Z) : result A :=
  let j := if i <? 0 then i + len l else i in
  if j <? 0 then Raise IndexError
  else match l !! Z.to_nat j with
       | Some a => Ok a
       | None => Raise IndexError
       end.

(** [l[i] = updated l[i]] for a bucket in a list of buckets: the subscript
    is resolved as in [getitem]. *)
Definition setitem {A : Type} (l : list A) (i : Z) (a : A) : result (list A) :=
  let j := if i <? 0 then i + len l else i in
  if j <? 0 then Raise IndexError
  else if (Z.to_nat j <? length l)%nat then Ok (<[Z.to_nat j := a]> l)
  else Raise IndexError.

(** [range(n)] and [range(a, b)]; empty when the bound is not above the
    start, as for [range(-1)]. *)
Definition range2 (a b : Z) : list Z :=
  map (λ k : nat, a + Z.of_nat k) (seq 0 (Z.to_nat (b - a))).

Definition range (n : Z) : list Z := range2 0 n.

(** [enumerate(l)] *)
Definition enumerate {A : Type} (l : list A) : list (Z * A) :=
  imap (λ i a, (Z.of_nat i, a)) l.

(** [bisect.bisect_left(a, x)]: the loop
    [while lo < hi: mid = (lo+hi)//2; if a[mid] < x: lo = mid+1 else: hi = mid].
    Each round shrinks [hi - lo], so [length a] rounds are enough; the
    fuel is the number of rounds left. *)
Fixpoint bisect_loop (fuel : nat) (a : list Z) (x : Z) (lo hi : nat) : nat :=
  match fuel with
  | O => lo
  | S fuel' =>
      if (lo <? hi)%nat then
        let mid := ((lo + hi) / 2)%nat in
        match a !! mid with
        | Some am =>
            if am <? x then bisect_loop fuel' a x (S mid) hi
            else bisect_loop fuel' a x lo mid
        | None => lo
        end
      else lo
  end.

Definition bisect_left (a : list Z) (x : Z) : Z :=
  Z.of_nat (bisect_loop (S (length a)) a x 0 (length a)).

(** [sorted(l, key=key)] for keys compared by [le]: a stable insertion
    sort (Python's sort is stable). *)
Section Sorted.

Context {A K : Type} (key : A → K) (le : K → K → bool).

Fixpoint insert_sorted (a : A) (l : list A) : list A :=
  match l with
  | [] => [a]
  | b :: rest =>
      if le (key a) (key b) then a :: l else b :: insert_sorted a rest
  end.

Definition sorted_by (l : list A) : list A := foldr insert_sorted [] l.

End Sorted.

(** Tuple order on [(int, int)] keys. *)
Definition le_pair (p q : Z * Z) : bool :=
  (p.1 <? q.1) || ((p.1 =? q.1) && (p.2 <=? q.2)).

(** Truth value of a string: empty is false. *)
Definition truthy_str (s : string) : bool :=
  match s with EmptyString => false | _ => true end.

(** Truth value of a list: empty is false. *)
Definition truthy_list {A : Type} (l : list A) : bool :=
  match l with [] => false | _ => true end.

End Py.

Import Py.

#[export] Instance result_ret : MRet result := @Ok.
#[export] Instance result_bind : MBind result := λ A B k m, bind m k.

(* ===================================================================== *)
(** * [hashlib.sha1]: FIPS 180-4 SHA-1 on byte strings *)
(* ===================================================================== *)

Module Sha1.

Local Open Scope N_scope.

Definition mask32 (x : N) : N := N.land x 0xFFFFFFFF.

Definition add32 (a b : N) : N := mask32 (a + b).

Definition rotl (n x : N) : N :=
  mask32 (N.lor (N.shiftl x n) (N.shiftr x (32 - n))).

Definition not32 (x : N) : N := N.lxor (mask32 x) 0xFFFFFFFF.

Definition bytes_of_string (s : string) : list N :=
  map N_of_ascii (list_ascii_of_string s).

(** Big-endian bytes of [x], [n] of them. *)
Fixpoint be_bytes (n : nat) (x : N) : list N :=
  match n with
  | O => []
  | S n' => N.land (N.shiftr x (8 * N.of_nat n')) 0xFF :: be_bytes n' x
  end.

Definition pad (msg : list N) : list N :=
  let l := N.of_nat (length msg) in
  let k := (((55 + 64) - (l mod 64)) mod 64) in
  msg ++ [0x80] ++ repeat 0 (N.to_nat k) ++ be_bytes 8 (8 * l).

Fixpoint words_of_bytes (fuel : nat) (bs : list N) : list N :=
  match fuel, bs with
  | S fuel', b0 :: b1 :: b2 :: b3 :: rest =>
      (N.shiftl b0 24 + N.shiftl b1 16 + N.shiftl b2 8 + b3)
        :: words_of_bytes fuel' rest
  | _, _ => []
  end.

Fixpoint blocks_of_words (fuel : nat) (ws : list N) : list (list N) :=
  match fuel with
  | O => []
  | S fuel' =>
      match ws with
      | [] => []
      | _ => take 16 ws :: blocks_of_words fuel' (drop 16 ws)
      end
  end.

(** The message schedule, kept newest first while it grows. *)
Fixpoint extend (n : nat) (rev_w : list N) : list N :=
  match n with
  | O => rev_w
  | S n' =>
      let at_ i := default 0 (rev_w !! i) in
      let w := rotl 1 (N.lxor (N.lxor (at_ 2%nat) (at_ 7%nat))
                              (N.lxor (at_ 13%nat) (at_ 15%nat))) in
      extend n' (w :: rev_w)
  end.

Definition schedule (block : list N) : list N :=
  rev (extend 64 (rev block)).

Definition round_fk (t : nat) (b c d : N) : N * N :=
  if (t <? 20)%nat then
    (N.lor (N.land b c) (N.land (not32 b) d), 0x5A827999)
  else if (t <? 40)%nat then
    (N.lxor (N.lxor b c) d, 0x6ED9EBA1)
  else if (t <? 60)%nat then
    (N.lor (N.lor (N.land b c) (N.land b d)) (N.land c d), 0x8F1BBCDC)
  else
    (N.lxor (N.lxor b c) d, 0xCA62C1D6).

Record state : Type := State { h0 : N; h1 : N; h2 : N; h3 : N; h4 : N }.

Definition round (st : state) (tw : nat * N) : state :=
  let '(State a b c d e) := st in
  let '(f, k) := round_fk tw.1 b c d in
  let temp := add32 (add32 (add32 (add32 (rotl 5 a) f) e) k) tw.2 in
  State temp a (rotl 30 b) c d.

Definition compress (st : state) (block : list N) : state :=
  let w := schedule block in
  let r := fold_left round (imap (λ t x, (t, x)) w) st in
  State (add32 (h0 st) (h0 r)) (add32 (h1 st) (h1 r)) (add32 (h2 st) (h2 r))
        (add32 (h3 st) (h3 r)) (add32 (h4 st) (h4 r)).

Definition init : state :=
  State 0x67452301 0xEFCDAB89 0x98BADCFE 0x10325476 0xC3D2E1F0.

Definition digest_state (msg : list N) : state :=
  let bs := pad msg in
  let ws := words_of_bytes (length bs) bs in
  fold_left compress (blocks_of_words (length ws) ws) init.

Definition hex_digit (x : N) : ascii :=
  default "0"%char
    (list_ascii_of_string "0123456789abcdef" !! N.to_nat x).

Fixpoint hex_word (n : nat) (x : N) : list ascii :=
  match n with
  | O => []
  | S n' => hex_digit (N.land (N.shiftr x (4 * N.of_nat n')) 0xF) :: hex_word n' x
  end.

(** [hashlib.sha1(bytes).hexdigest()] *)
Definition hexdigest (s : string) : string :=
  let st := digest_state (bytes_of_string s) in
  string_of_list_ascii
    (hex_word 8 (h0 st) ++ hex_word 8 (h1 st) ++ hex_word 8 (h2 st)
       ++ hex_word 8 (h3 st) ++ hex_word 8 (h4 st)).

End Sha1.

(* ===================================================================== *)
(** * [aser/relation.py] *)
(* ===================================================================== *)

Definition relation_senses : list string :=
  [ "Precedence"; "Succession"; "Synchronous";
    "Reason"; "Result";
    "Condition"; "Contrast"; "Concession";
    "Conjunction"; "Instantiation"; "Restatement"; "ChosenAlternative";
    "Alternative"; "Exception";
    "Co_Occurrence" ].

(** An instance of [class Relation]: the four attributes [__init__] sets. *)
Record Relation : Type := mkRelation {
  heid : string;
  teid : string;
  rid : string;
  relations : gmap string float
}.

(** [Relation.generate_rid]: [hashlib.sha1((heid + "$" + teid).encode('utf-8')).hexdigest()] *)
Definition rid_key (heid teid : string) : string := heid +:+ "$" +:+ teid.

Definition generate_rid (heid teid : string) : string :=
  Sha1.hexdigest (rid_key heid teid).

(** What a caller may pass as [x] to [update_relations]. *)
Inductive senses_arg : Type :=
| ArgNone
| ArgDict (d : gmap string float)
| ArgList (l : list string)          (* a list or a tuple of sense labels *)
| ArgRelation (x : Relation)
| ArgOther.                          (* any other object *)

(** One round of the three loops of [update_relations]:
    [if r not in self.relations: self.relations[r] = cnt
     else: self.relations[r] += cnt] *)
Definition add_weight (acc : gmap string float) (r : string) (cnt : float)
  : gmap string float :=
  match acc !! r with
  | None => <[r := cnt]> acc
  | Some w => <[r := (w + cnt)%float]> acc
  end.

Definition add_items (acc : gmap string float) (items : list (string * float))
  : gmap string float :=
  foldl (λ acc rc, add_weight acc rc.1 rc.2) acc items.

Definition add_labels (acc : gmap string float) (labels : list string)
  : gmap string float :=
  foldl (λ acc r, add_weight acc r 1%float) acc labels.

Definition set_relations (self : Relation) (d : gmap string float) : Relation :=
  mkRelation (heid self) (teid self) (rid self) d.

(** [Relation.update_relations]: mutates [self.relations]; the updated
    receiver is returned. *)
Definition update_relations (self : Relation) (x : senses_arg) : Relation :=
  match x with
  | ArgNone => self
  | ArgDict d => set_relations self (add_items (relations self) (map_to_list d))
  | ArgList l => set_relations self (add_labels (relations self) l)
  | ArgRelation x =>
      if bool_decide (heid self = heid x) && bool_decide (teid self = teid x)
      then set_relations self (add_items (relations self) (map_to_list (relations x)))
      else self
  | ArgOther => self
  end.

(** [Relation.__init__(heid=None, teid=None, relations=None)] *)
Definition or_empty (s : option string) : string :=
  match s with
  | Some s => if truthy_str s then s else ""
  | None => ""
  end.

Definition Relation_init (heid teid : option string) (relations : senses_arg)
  : Relation :=
  let h := or_empty heid in
  let t := or_empty teid in
  update_relations (mkRelation h t (generate_rid h t) ∅) relations.

(** ** Attribute lookup on a [Relation] instance

    [relation.name] looks [name] up in the instance dictionary, then in the
    class; a name found in neither raises [AttributeError]. *)
Inductive attr : Type :=
| AStr (s : string)
| ASenses (d : gmap string float)
| AMethod (name : string).

(** [self.__dict__], which is also what [to_dict] returns. *)
Definition Relation_dict (r : Relation) : list (string * attr) :=
  [ ("heid", AStr (heid r)); ("teid", AStr (teid r)); ("rid", AStr (rid r));
    ("relations", ASenses (relations r)) ].

Definition Relation_methods : list string :=
  [ "__init__"; "generate_rid"; "update_relations"; "to_dict"; "from_dict" ].

Fixpoint assoc (name : string) (d : list (string * attr)) : option attr :=
  match d with
  | [] => None
  | (k, v) :: rest => if String.eqb k name then Some v else assoc name rest
  end.

Definition Relation_getattr (r : Relation) (name : string) : result attr :=
  match assoc name (Relation_dict r) with
  | Some a => Ok a
  | None =>
      if existsb (String.eqb name) Relation_methods then Ok (AMethod name)
      else Raise AttributeError
  end.

(** [attribute == s] for a string [s] *)
Definition attr_eq_str (a : attr) (s : string) : bool :=
  match a with
  | AStr s' => bool_decide (s' = s)
  | _ => false
  end.

(** [relation.name(x)] with one argument: only [update_relations] takes
    one; a non-callable attribute or another arity is a [TypeError]. *)
Definition Relation_call1 (r : Relation) (name : string) (x : senses_arg)
  : result Relation :=
  a ← Relation_getattr r name;
  match a with
  | AMethod m =>
      if String.eqb m "update_relations" then Ok (update_relations r x)
      else Raise TypeError
  | _ => Raise TypeError
  end.

(** A sense triple [(heid, sense, teid)] of the "triple" output format. *)
Definition triple : Type := string * string * string.

(** [relation.name()] for a method that would return triples; [Relation]
    defines none, [to_dict] returns a dictionary. *)
Definition Relation_call0_triples (r : Relation) (name : string)
  : result (list triple) :=
  a ← Relation_getattr r name;
  Raise TypeError.

(* ===================================================================== *)
(** * [aser/extract/aser_extractor.py]: the data it works on *)
(* ===================================================================== *)

(** A mention span [{"start", "end", "type"}]; [m_end] is exclusive. *)
Record Mention : Type := mkMention {
  m_start : Z;
  m_end : Z;
  m_type : string
}.

(** A sentence annotation: the dictionary the parser produces for one
    sentence.  The keys ["ners"], ["mentions"] and ["parse"] may be
    missing ([None]); the code tests for the first two with [in]. *)
Record Sentence : Type := mkSentence {
  text : string;
  dependencies : list (Z * string * Z);
  tokens : list string;
  pos_tags : list string;
  lemmas : list string;
  ners : option (list string);
  mentions : option (list Mention);
  parse : option string
}.

(** The values a caller may pass as a paragraph, and the items a
    paragraph may hold.  A [dict] is a sentence annotation. *)
#[warnings="-register-all"]
Inductive pyobj : Type :=
| PDict (s : Sentence)
| PList (l : list pyobj)
| PTuple (l : list pyobj)
| PStr (s : string)
| PInt (z : Z)
| PNone.

(** [sent[...]] with a string key needs a dictionary. *)
Definition as_dict (o : pyobj) : result Sentence :=
  match o with
  | PDict s => Ok s
  | _ => Raise TypeError
  end.

Definition dict_keys (s : Sentence) : list string :=
  [ "text"; "dependencies"; "tokens"; "pos_tags"; "lemmas" ]
  ++ (if ners s is Some _ then ["ners"] else [])
  ++ (if mentions s is Some _ then ["mentions"] else [])
  ++ (if parse s is Some _ then ["parse"] else []).

(** [len(o)] *)
Definition py_len (o : pyobj) : result Z :=
  match o with
  | PList l | PTuple l => Ok (len l)
  | PStr s => Ok (Z.of_nat (String.length s))
  | PDict s => Ok (len (dict_keys s))
  | PInt _ | PNone => Raise TypeError
  end.

(** The items [for x in o] visits. *)
Definition py_iter (o : pyobj) : result (list pyobj) :=
  match o with
  | PList l | PTuple l => Ok l
  | PStr s => Ok (map (λ c, PStr (String c EmptyString)) (list_ascii_of_string s))
  | PDict s => Ok (map PStr (dict_keys s))
  | PInt _ | PNone => Raise TypeError
  end.

(** [o[i]] for an integer [i] *)
Definition py_subscript (o : pyobj) (i : Z) : result pyobj :=
  match o with
  | PList l | PTuple l => getitem l i
  | PStr s =>
      getitem (map (λ c, PStr (String c EmptyString)) (list_ascii_of_string s)) i
  | PDict _ => Raise KeyError
  | PInt _ | PNone => Raise TypeError
  end.

(** Modelled from the spec: the class [Eventuality] of [aser/eventuality.py],
    which is not among the sources.  The spec gives it an identity [eid], the
    pattern metadata of its member tokens, the mapping [raw_sent_mapping]
    from eventuality-local positions to sentence positions and an evidence
    counter. *)
Record Eventuality : Type := mkEventuality {
  eid : string;
  pattern : string;
  words : list (string * string);
  raw_sent_mapping : gmap Z Z;
  frequency : float
}.

Definition set_eid (e : Eventuality) (i : string) : Eventuality :=
  mkEventuality i (pattern e) (words e) (raw_sent_mapping e) (frequency e).

Definition set_raw_sent_mapping (e : Eventuality) (m : gmap Z Z) : Eventuality :=
  mkEventuality (eid e) (pattern e) (words e) m (frequency e).

(** Modelled from the spec: [Eventuality.update], missing with its class.
    "Two Eventuality instances with equal eid are mergeable (evidence
    counters add)". *)
Definition Eventuality_update (self x : Eventuality) : Eventuality :=
  if bool_decide (eid self = eid x)
  then mkEventuality (eid self) (pattern self) (words self)
         (raw_sent_mapping self) (frequency self + frequency x)%float
  else self.

(** An argument of a connective: [{"sent_idx", "indices"}]. *)
Record Argument : Type := mkArgument {
  arg_sent_idx : Z;
  arg_indices : list Z
}.

(** A connective candidate.  [arg1], [arg2] and [sense] are read with
    [.get(..., None)]. *)
Record Connective : Type := mkConnective {
  sent_idx : Z;
  indices : list Z;
  arg1 : option Argument;
  arg2 : option Argument;
  sense : option string
}.

Definition json : Type := string.
Definition tree : Type := string.
Abbreviation Cache := (gmap Z tree).

(** What the three entry points return, by shape. *)
Inductive eventualities_output : Type :=
| OutEvBuckets (l : list (list Eventuality))
| OutEvs (l : list Eventuality)
| OutJsonBuckets (l : list (list json))
| OutJsons (l : list json).

Inductive relations_output : Type :=
| OutRelBuckets (l : list (list Relation))
| OutRels (l : list Relation)
| OutTripleLists (l : list (list triple))
| OutTriples (l : list triple).

(** The collaborators of the extractor: code the extractor calls that lives
    in other modules.  Each may raise; what it raises propagates. *)
Record Collaborators : Type := mkCollaborators {
  (** [self.eventuality_extractor.extract_from_parsed_result(sent,
      output_format="Eventuality", in_order=True)] on one sentence *)
  seed_extract : Sentence → result (list Eventuality);
  (** [Eventuality.generate_eid] *)
  generate_eid : Eventuality → string;
  (** [eventuality.encode(encoding=None)] *)
  encode : Eventuality → json;
  (** the discourse parser *)
  conn_extract : list pyobj → Cache → result (list Connective);
  argpos_classify :
    list pyobj → list Connective → Cache
    → result (list Connective * list Connective);
  ss_extract : list pyobj → list Connective → Cache → result (list Connective);
  ps_extract : list pyobj → list Connective → Cache → result (list Connective);
  explicit_classify :
    list pyobj → list Connective → Cache → result (list Connective);
  (** [DiscourseRelationExtractor._match_argument_eventuality_by_Simpson(
      sent, arg, e, threshold=0.99)] *)
  match_by_Simpson : pyobj → Argument → Eventuality → result bool;
  (** [SyntaxTree(parse)] and [get_clauses(sent, tree, index_seps=...)] *)
  SyntaxTree : string → result tree;
  get_clauses : pyobj → tree → gset Z → result (list (list Z));
  (** the order in which [for clause in sent_clauses] visits the set of
      clauses of a sentence: the hash order of the runtime, which the
      language leaves open *)
  clause_order : gset (list Z) → list (list Z);
  (** the constant [EMPTY_SENT_PARSED_RESULT] of [aser.extract.utils] *)
  EMPTY_SENT_PARSED_RESULT : pyobj;
  (** the extractors a [BaseASERExtractor] delegates to *)
  base_eventuality_extractor :
    pyobj → string → bool → Cache → result eventualities_output;
  base_relation_extractor :
    pyobj → eventualities_output → string → bool → Cache
    → result relations_output
}.

(** The names bound at module level in [aser_extractor.py] (its imports
    and its classes); a global name that is neither among them nor a
    builtin is a [NameError]. *)
Definition module_globals : list string :=
  [ "bisect"; "json"; "copy"; "deepcopy"; "chain"; "Eventuality"; "Relation";
    "relation_senses"; "SeedRuleEventualityExtractor";
    "DiscourseEventualityExtractor"; "SeedRuleRelationExtractor";
    "DiscourseRelationExtractor"; "ConnectiveExtractor";
    "ArgumentPositionClassifier"; "SSArgumentExtractor"; "PSArgumentExtractor";
    "ExplicitSenseClassifier"; "SyntaxTree"; "parse_sentense_with_stanford";
    "get_corenlp_client"; "powerset"; "get_clauses"; "ANNOTATORS";
    "EMPTY_SENT_PARSED_RESULT"; "BaseASERExtractor"; "SeedRuleASERExtractor";
    "DiscourseASERExtractor1"; "DiscourseASERExtractor2";
    "DiscourseASERExtractor3" ].

Definition lookup_global (name : string) : result unit :=
  if existsb (String.eqb name) module_globals then Ok tt else Raise NameError.

(** [f(relation)] for a global [f] that copies its argument, as [deepcopy]
    does: the name is resolved first. *)
Definition call_copy (name : string) (r : Relation) : result Relation :=
  _ ← lookup_global name; Ok r.

(** [output_format not in [a, b]] *)
Definition unsupported (fmt a b : string) : bool :=
  negb (String.eqb fmt a || String.eqb fmt b).

(* ===================================================================== *)
(** * [DiscourseASERExtractor3] *)
(* ===================================================================== *)

Section Extractor.

Context (C : Collaborators).

(** ** Span projection (lines 390-414, and again 431-455)

    The sub-annotation of [sent] on the token indices [indices]. *)

(** [{j: i for i, j in enumerate(indices)}]: a later position overwrites
    an earlier one. *)
Definition idx_mapping (indices : list Z) : gmap Z Z :=
  foldl (λ m ij, <[ij.2 := ij.1]> m) ∅ (enumerate indices).

(** [d[k]] on a dictionary *)
Definition dict_getitem (d : gmap Z Z) (k : Z) : result Z :=
  match d !! k with
  | Some v => Ok v
  | None => Raise KeyError
  end.

Definition project_dependencies (deps : list (Z * string * Z)) (indices : list Z)
  : result (list (Z * string * Z)) :=
  let mapping := idx_mapping indices in
  let indices_set : gset Z := list_to_set indices in
  map_each
    (λ dep : Z * string * Z,
       g ← dict_getitem mapping dep.1.1;
       d ← dict_getitem mapping dep.2;
       Ok (g, dep.1.2, d))
    (filter (λ dep : Z * string * Z, dep.1.1 ∈ indices_set ∧ dep.2 ∈ indices_set)
       deps).

(** [[xs[idx] for idx in indices]] *)
Definition gather {A : Type} (xs : list A) (indices : list Z) : result (list A) :=
  map_each (getitem xs) indices.

(** [pos < len(indices) and indices[pos] == x], for [pos] a result of
    [bisect_left], which is never negative. *)
Definition found_at (indices : list Z) (pos x : Z) : bool :=
  (pos <? len indices) && bool_decide (indices !! Z.to_nat pos = Some x).

(** One round of the loop over the mentions: [None] is [continue]. *)
Definition project_mention (indices : list Z) (mention : Mention) : option Mention :=
  let start_idx := bisect_left indices (m_start mention) in
  if negb (found_at indices start_idx (m_start mention)) then None
  else
    let end_idx := bisect_left indices (m_end mention - 1) in
    if negb (found_at indices end_idx (m_end mention - 1)) then None
    else Some (mkMention start_idx (end_idx + 1) (m_type mention)).

Definition project_mentions (ms : list Mention) (indices : list Z) : list Mention :=
  omap (project_mention indices) ms.

Definition project_argument (sent : pyobj) (indices : list Z) : result Sentence :=
  sent ← as_dict sent;
  deps ← project_dependencies (dependencies sent) indices;
  toks ← gather (tokens sent) indices;
  tags ← gather (pos_tags sent) indices;
  lems ← gather (lemmas sent) indices;
  ners' ← match ners sent with
          | Some ns => ns' ← gather ns indices; Ok (Some ns')
          | None => Ok None
          end;
  let mentions' := match mentions sent with
                   | Some ms => Some (project_mentions ms indices)
                   | None => None
                   end in
  Ok (mkSentence "" deps toks tags lems ners' mentions' None).

(** The projection of a clause (lines 210-218): no ["ners"], no
    ["mentions"]. *)
Definition project_clause (sent : pyobj) (clause : list Z) : result Sentence :=
  sent ← as_dict sent;
  deps ← project_dependencies (dependencies sent) clause;
  toks ← gather (tokens sent) clause;
  tags ← gather (pos_tags sent) clause;
  lems ← gather (lemmas sent) clause;
  Ok (mkSentence "" deps toks tags lems None None None).

(** [for k, v in e.raw_sent_mapping.items(): e.raw_sent_mapping[k] = indices[v]] *)
Definition remap_raw_sent_mapping (e : Eventuality) (indices : list Z)
  : result Eventuality :=
  m ← for_each
        (λ (m : gmap Z Z) (kv : Z * Z),
           x ← getitem indices kv.2; Ok (<[kv.1 := x]> m))
        (map_to_list (raw_sent_mapping e)) (raw_sent_mapping e);
  Ok (set_raw_sent_mapping e m).

(** ** The merged output (lines 512-534, and 235-246, 343-352) *)

Definition sort_by_eid (l : list Eventuality) : list Eventuality :=
  sorted_by eid String.leb l.

Definition sort_by_rid (l : list Relation) : list Relation :=
  sorted_by rid String.leb l.

(** [eid2eventuality], filled from the flattened buckets.  In the "json"
    format the encoded eventualities are sorted by their ["eid"] entry,
    which [encode] copies from the eventuality: the eventualities are
    sorted by [eid] and encoded in that order. *)
Definition eid2eventuality (para_eventualities : list (list Eventuality))
  : gmap string Eventuality :=
  foldl
    (λ (d : gmap string Eventuality) eventuality,
       match d !! eid eventuality with
       | None => <[eid eventuality := eventuality]> d
       | Some known => <[eid eventuality := Eventuality_update known eventuality]> d
       end)
    ∅ (concat para_eventualities).

Definition merged_eventualities (para_eventualities : list (list Eventuality))
  (output_format : string) : eventualities_output :=
  let values := (map_to_list (eid2eventuality para_eventualities)).*2 in
  if String.eqb output_format "Eventuality" then OutEvs (sort_by_eid values)
  else OutJsons (map (encode C) (sort_by_eid values)).

(** [rid2relation]: a relation whose [rid] is new is copied in by the
    global function [copier]; one whose [rid] is known is merged by calling
    the method [merger] of the stored relation. *)
Definition rid2relation (copier merger : string)
  (para_relations : list (list Relation)) : result (gmap string Relation) :=
  for_each
    (λ (d : gmap string Relation) relation,
       match d !! rid relation with
       | None => r ← call_copy copier relation; Ok (<[rid relation := r]> d)
       | Some known =>
           r ← Relation_call1 known merger (ArgRelation relation);
           Ok (<[rid relation := r]> d)
       end)
    (concat para_relations) ∅.

(** [[r.name() for r in relations]], chained *)
Definition all_triples (name : string) (relations : list Relation)
  : result (list triple) :=
  ts ← map_each (λ r, Relation_call0_triples r name) relations;
  Ok (concat ts).

(** ** The lookup-or-create step (lines 307-314, 328-335, 491-498)

    [for relation in relations:
       if relation.hid == heid and relation.tid == teid:
         relation.update(senses); existed_relation = True; break
     if not existed_relation: relations.append(Relation(heid, teid, senses))] *)
Fixpoint update_existing (relations : list Relation) (heid teid : string)
  (senses : list string) : result (option (list Relation)) :=
  match relations with
  | [] => Ok None
  | relation :: rest =>
      hid ← Relation_getattr relation "hid";
      same ← (if attr_eq_str hid heid
              then tid ← Relation_getattr relation "tid"; Ok (attr_eq_str tid teid)
              else Ok false);
      if same : bool then
        relation' ← Relation_call1 relation "update" (ArgList senses);
        Ok (Some (relation' :: rest))
      else
        found ← update_existing rest heid teid senses;
        Ok (option_map (cons relation) found)
  end.

Definition lookup_or_create (relations : list Relation) (heid teid : string)
  (senses : list string) : result (list Relation) :=
  found ← update_existing relations heid teid senses;
  match found with
  | Some relations' => Ok relations'
  | None => Ok (relations ++ [Relation_init (Some heid) (Some teid) (ArgList senses)])
  end.

(** [sense and sense != "None"] *)
Definition explicit_sense (connective : Connective) : option string :=
  match sense connective with
  | Some s => if truthy_str s && negb (String.eqb s "None") then Some s else None
  | None => None
  end.

(** The discourse parser run over a paragraph, and the sort of its
    candidates by [(sent_idx, indices[0] if indices else -1)]. *)
Definition connective_key (x : Connective) : Z * Z :=
  (sent_idx x, match indices x with i :: _ => i | [] => -1 end).

Definition sorted_connectives (sentences : list pyobj) (cache : Cache)
  : result (list Connective) :=
  connectives ← conn_extract C sentences cache;
  '(SS_connectives, PS_connectives) ← argpos_classify C sentences connectives cache;
  SS_connectives ← ss_extract C sentences SS_connectives cache;
  PS_connectives ← ps_extract C sentences PS_connectives cache;
  connectives ← explicit_classify C sentences (SS_connectives ++ PS_connectives) cache;
  Ok (sorted_by connective_key le_pair connectives).

(** Order on triples and on lists of triples, for [sorted]. *)
Definition triple_le (a b : triple) : bool :=
  let '(a1, a2, a3) := a in
  let '(b1, b2, b3) := b in
  String.ltb a1 b1
  || (String.eqb a1 b1
      && (String.ltb a2 b2 || (String.eqb a2 b2 && String.leb a3 b3))).

Fixpoint triples_le (a b : list triple) : bool :=
  match a, b with
  | [], _ => true
  | _ :: _, [] => false
  | x :: a', y :: b' =>
      if triple_le x y then (if triple_le y x then triples_le a' b' else true)
      else false
  end.

(** ** The shape check shared by two of the entry points

    [if not isinstance(parsed_result, (list, tuple, dict)): raise NotImplementedError
     if isinstance(parsed_result, dict): is_single_sent = True; parsed_result = [parsed_result]
     else: is_single_sent = False] *)
Definition paragraph_shape (parsed_result : pyobj) : result (bool * list pyobj) :=
  match parsed_result with
  | PDict _ => Ok (true, [parsed_result])
  | PList l | PTuple l => Ok (false, l)
  | PStr _ | PInt _ | PNone => Raise NotImplementedError
  end.

(** ** [_extract_clauses] *)
Definition _extract_clauses (parsed_result : list pyobj) (cache : Cache)
  : result (list (gset (list Z))) :=
  connectives ← conn_extract C parsed_result cache;
  para_connectives ←
    for_each
      (λ (pc : list (gset (list Z))) connective,
         s ← getitem pc (sent_idx connective);
         setitem pc (sent_idx connective) ({[ indices connective ]} ∪ s))
      connectives (replicate (length parsed_result) ∅);
  '(_, para_arguments) ←
    for_each
      (λ (st : Cache * list (gset (list Z))) (item : Z * pyobj),
         let '(cache, para_arguments) := st in
         let '(sent_idx, sent_parsed_result) := item in
         sent_connectives ← getitem para_connectives sent_idx;
         syntax_tree ←
           match cache !! sent_idx with
           | Some t => Ok t
           | None =>
               s ← as_dict sent_parsed_result;
               match parse s with
               | Some p => SyntaxTree C p
               | None => Raise KeyError
               end
           end;
         let index_seps : gset Z :=
           ⋃ (list_to_set <$> elements sent_connectives) in
         clauses ← get_clauses C sent_parsed_result syntax_tree index_seps;
         Ok (<[sent_idx := syntax_tree]> cache,
             para_arguments ++ [list_to_set clauses]))
      (enumerate parsed_result) (cache, []);
  Ok para_arguments.

(** ** [extract_eventualities_from_parsed_result] (lines 192-246)

    The clauses of a sentence are a Python [set]; the loop of line 209
    visits them in the order [clause_order] gives, and the eventualities
    of a sentence are listed in that order. *)
Definition clause_eventualities (sent_parsed_result : pyobj) (clause : list Z)
  : result (list Eventuality) :=
  clause_parsed_result ← project_clause sent_parsed_result clause;
  eventualities ← seed_extract C clause_parsed_result;
  map_each (λ e, remap_raw_sent_mapping e clause) eventualities.

Definition sentence_eventualities (sent_parsed_result : pyobj)
  (sent_clauses : gset (list Z)) : result (list Eventuality) :=
  for_each
    (λ sent_eventualities clause,
       eventualities ← clause_eventualities sent_parsed_result clause;
       Ok (sent_eventualities ++ eventualities))
    (clause_order C sent_clauses) [].

Definition encode_buckets (para_eventualities : list (list Eventuality))
  : list (list json) :=
  map (map (encode C)) para_eventualities.

Definition extract_eventualities_from_parsed_result (parsed_result : pyobj)
  (output_format : string) (in_order : bool) (cache : Cache)
  : result eventualities_output :=
  if unsupported output_format "Eventuality" "json" then Raise NotImplementedError
  else
    '(is_single_sent, parsed_result) ← paragraph_shape parsed_result;
    para_clauses ← _extract_clauses parsed_result cache;
    para_eventualities ←
      map_each (λ sc, sentence_eventualities sc.1 sc.2)
        (zip parsed_result para_clauses);
    if in_order then
      if String.eqb output_format "json" then
        let encoded := encode_buckets para_eventualities in
        if is_single_sent : bool then e ← getitem encoded 0; Ok (OutJsons e)
        else Ok (OutJsonBuckets encoded)
      else
        if is_single_sent : bool then e ← getitem para_eventualities 0; Ok (OutEvs e)
        else Ok (OutEvBuckets para_eventualities)
    else Ok (merged_eventualities para_eventualities output_format).

(** ** [extract_relations_from_parsed_result] (lines 248-352) *)

(** The baseline loop over one sentence (lines 269-273): the relations
    are appended to the sentence's bucket. *)
Definition add_cooccurrences (relations_in_sent : list Relation)
  (sent_eventualities : list Eventuality) : result (list Relation) :=
  for_each
    (λ relations_in_sent e1_idx,
       e1 ← getitem sent_eventualities e1_idx;
       let heid := eid e1 in
       for_each
         (λ relations_in_sent e2_idx,
            e2 ← getitem sent_eventualities e2_idx;
            let teid := eid e2 in
            Ok (relations_in_sent
                  ++ [Relation_init (Some heid) (Some teid) (ArgList ["Co_Occurrence"])]))
         (range2 (e1_idx + 1) (len sent_eventualities)) relations_in_sent)
    (range (len sent_eventualities - 1)) relations_in_sent.

(** The state of the first loop: [filtered_parsed_result], [para_relations]
    and the loop variable [sent_parsed_result], which stays bound after the
    loop and is read again at lines 321 and 325. *)
Record baseline_state : Type := mkBaseline {
  filtered_parsed_result : list pyobj;
  baseline_relations : list (list Relation);
  bound_sentence : option pyobj
}.

Definition baseline_round (st : baseline_state)
  (item : Z * (pyobj * list Eventuality)) : result baseline_state :=
  let '(sent_idx, (sent_parsed_result, sent_eventualities)) := item in
  if 0 <? len sent_eventualities then
    relations_in_sent ← getitem (baseline_relations st) sent_idx;
    relations_in_sent ← add_cooccurrences relations_in_sent sent_eventualities;
    para_relations ← setitem (baseline_relations st) sent_idx relations_in_sent;
    Ok (mkBaseline (filtered_parsed_result st ++ [sent_parsed_result])
          para_relations (Some sent_parsed_result))
  else
    Ok (mkBaseline (filtered_parsed_result st ++ [EMPTY_SENT_PARSED_RESULT C])
          (baseline_relations st) (Some sent_parsed_result)).

Definition baseline (len_sentences : Z) (sentences : list pyobj)
  (para_eventualities : list (list Eventuality)) : result baseline_state :=
  for_each baseline_round
    (enumerate (zip sentences para_eventualities))
    (mkBaseline [] (replicate (Z.to_nat (2 * len_sentences - 1)) []) None).

(** Reading the local variable [sent_parsed_result] *)
Definition read_bound (v : option pyobj) : result pyobj :=
  match v with
  | Some s => Ok s
  | None => Raise NameError
  end.

(** The two nested loops of the same-sentence branch (lines 297-314). *)
Definition same_sentence_relations (sent_parsed_result : pyobj)
  (a1 a2 : Argument) (sense : string) (sent_eventualities : list Eventuality)
  (relations : list Relation) : result (list Relation) :=
  for_each
    (λ relations e1_idx,
       e1 ← getitem sent_eventualities e1_idx;
       m1 ← match_by_Simpson C sent_parsed_result a1 e1;
       if negb m1 then Ok relations
       else
         let heid := eid e1 in
         for_each
           (λ relations e2_idx,
              e2 ← getitem sent_eventualities e2_idx;
              m2 ← match_by_Simpson C sent_parsed_result a2 e2;
              if negb m2 then Ok relations
              else lookup_or_create relations heid (eid e2) [sense])
           (range2 (e1_idx + 1) (len sent_eventualities)) relations)
    (range (len sent_eventualities - 1)) relations.

(** The two nested loops of the other branch (lines 320-335). *)
Definition cross_sentence_relations (bound : option pyobj)
  (a1 a2 : Argument) (sense : string)
  (sent_eventualities1 sent_eventualities2 : list Eventuality)
  (relations : list Relation) : result (list Relation) :=
  for_each
    (λ relations e1,
       sent_parsed_result ← read_bound bound;
       m1 ← match_by_Simpson C sent_parsed_result a1 e1;
       if negb m1 then Ok relations
       else
         let heid := eid e1 in
         for_each
           (λ relations e2,
              sent_parsed_result ← read_bound bound;
              m2 ← match_by_Simpson C sent_parsed_result a2 e2;
              if negb m2 then Ok relations
              else lookup_or_create relations heid (eid e2) [sense])
           sent_eventualities2 relations)
    sent_eventualities1 relations.

(** One round of the loop over the connectives (lines 285-335); the state
    is [para_relations] and the binding of [sent_parsed_result]. *)
Definition relations_round (len_sentences : Z) (parsed_result : pyobj)
  (para_eventualities : list (list Eventuality))
  (st : list (list Relation) * option pyobj) (connective : Connective)
  : result (list (list Relation) * option pyobj) :=
  let '(para_relations, bound) := st in
  match truthy_list (indices connective), arg1 connective, arg2 connective,
        explicit_sense connective with
  | true, Some a1, Some a2, Some sense =>
      let arg1_sent_idx := arg_sent_idx a1 in
      let arg2_sent_idx := arg_sent_idx a2 in
      if arg1_sent_idx =? arg2_sent_idx then
        let relation_list_idx := arg1_sent_idx in
        relations ← getitem para_relations relation_list_idx;
        sent_parsed_result ← py_subscript parsed_result arg1_sent_idx;
        sent_eventualities ← getitem para_eventualities arg1_sent_idx;
        relations ← same_sentence_relations sent_parsed_result a1 a2 sense
                      sent_eventualities relations;
        para_relations ← setitem para_relations relation_list_idx relations;
        Ok (para_relations, Some sent_parsed_result)
      else
        let relation_list_idx := arg1_sent_idx + len_sentences in
        relations ← getitem para_relations relation_list_idx;
        _ ← py_subscript parsed_result arg1_sent_idx;
        sent_eventualities1 ← getitem para_eventualities arg1_sent_idx;
        _ ← py_subscript parsed_result arg2_sent_idx;
        sent_eventualities2 ← getitem para_eventualities arg2_sent_idx;
        relations ← cross_sentence_relations bound a1 a2 sense
                      sent_eventualities1 sent_eventualities2 relations;
        para_relations ← setitem para_relations relation_list_idx relations;
        Ok (para_relations, bound)
  | _, _, _, _ => Ok st
  end.

(** The in-order result: the buckets after the baseline loop and the loop
    over the connectives. *)
Definition relation_buckets (len_sentences : Z) (parsed_result : pyobj)
  (para_eventualities : list (list Eventuality)) (cache : Cache)
  : result (list (list Relation)) :=
  sentences ← py_iter parsed_result;
  b ← baseline len_sentences sentences para_eventualities;
  connectives ← sorted_connectives (filtered_parsed_result b) cache;
  st ← for_each (relations_round len_sentences parsed_result para_eventualities)
         connectives (baseline_relations b, bound_sentence b);
  Ok st.1.

Definition extract_relations_from_parsed_result (parsed_result : pyobj)
  (para_eventualities : list (list Eventuality))
  (output_format : string) (in_order : bool) (cache : Cache)
  : result relations_output :=
  if unsupported output_format "Relation" "triple" then Raise NotImplementedError
  else
    len_sentences ← py_len parsed_result;
    if len_sentences =? 0 then
      if in_order then Ok (OutRelBuckets [[]]) else Ok (OutRels [])
    else
      para_relations ← relation_buckets len_sentences parsed_result
                         para_eventualities cache;
      if in_order then
        if String.eqb output_format "Relation" then Ok (OutRelBuckets para_relations)
        else
          buckets ← map_each
                      (λ relations,
                         ts ← all_triples "to_triples" relations;
                         Ok (sorted_by id triple_le ts))
                      para_relations;
          Ok (OutTripleLists buckets)
      else
        if String.eqb output_format "Relation" then
          d ← rid2relation "deeocopy" "update" para_relations;
          Ok (OutRels (sort_by_rid (map_to_list d).*2))
        else
          ts ← map_each (λ r, Relation_call0_triples r "to_triples")
                 (concat para_relations);
          Ok (OutTripleLists (sorted_by id triples_le ts)).

(** ** [extract_from_parsed_result] (lines 354-534) *)

(** Lines 417-429 (and 458-470): the eventualities extracted from an
    argument are mapped back to sentence positions, re-identified, and
    appended to the sentence's list unless an entry that was there before
    this connective has the same [eid] and [raw_sent_mapping].  Returns the
    lists and the (mutated) eventualities. *)
Definition add_eventualities (para_eventualities : list (list Eventuality))
  (arg_sent_idx : Z) (arg_indices : list Z) (eventualities : list Eventuality)
  : result (list (list Eventuality) * list Eventuality) :=
  existed ← getitem para_eventualities arg_sent_idx;
  let len_existed_eventualities := length existed in
  for_each
    (λ (st : list (list Eventuality) * list Eventuality) e,
       let '(para_eventualities, seen) := st in
       e ← remap_raw_sent_mapping e arg_indices;
       let e := set_eid e (generate_eid C e) in
       sent_eventualities ← getitem para_eventualities arg_sent_idx;
       let existed_eventuality :=
         existsb
           (λ known,
              bool_decide (eid known = eid e)
              && bool_decide (raw_sent_mapping known = raw_sent_mapping e))
           (take len_existed_eventualities sent_eventualities) in
       para_eventualities ←
         (if existed_eventuality then Ok para_eventualities
          else setitem para_eventualities arg_sent_idx (sent_eventualities ++ [e]));
       Ok (para_eventualities, seen ++ [e]))
    eventualities (para_eventualities, []).

(** Lines 472-477: the bucket of a candidate, [None] for [continue]. *)
Definition relation_list_idx (len_sentences arg1_sent_idx arg2_sent_idx : Z)
  : option Z :=
  if arg1_sent_idx =? arg2_sent_idx then Some arg1_sent_idx
  else if arg1_sent_idx + 1 =? arg2_sent_idx then Some (arg1_sent_idx + len_sentences)
  else None.

(** Lines 478-482 *)
Definition candidate_senses (arg1_sent_idx arg2_sent_idx : Z)
  (connective : Connective) : list string :=
  (if arg1_sent_idx =? arg2_sent_idx then ["Co_Occurrence"] else [])
  ++ match explicit_sense connective with
     | Some sense => [sense]
     | None => []
     end.

(** Lines 487-498 *)
Definition argument_relations (eventualities1 eventualities2 : list Eventuality)
  (senses : list string) (relations : list Relation) : result (list Relation) :=
  for_each
    (λ relations e1,
       let heid := eid e1 in
       for_each
         (λ relations e2, lookup_or_create relations heid (eid e2) senses)
         eventualities2 relations)
    eventualities1 relations.

(** One round of the loop over the connectives (lines 381-498). *)
Definition extraction_round (len_sentences : Z) (parsed_result : list pyobj)
  (st : list (list Eventuality) * list (list Relation)) (connective : Connective)
  : result (list (list Eventuality) * list (list Relation)) :=
  let '(para_eventualities, para_relations) := st in
  match truthy_list (indices connective), arg1 connective, arg2 connective with
  | true, Some a1, Some a2 =>
      let arg1_sent_idx := arg_sent_idx a1 in
      let arg2_sent_idx := arg_sent_idx a2 in
      sent_parsed_result1 ← getitem parsed_result arg1_sent_idx;
      sent_parsed_result2 ← getitem parsed_result arg2_sent_idx;
      arg1_parsed_result ← project_argument sent_parsed_result1 (arg_indices a1);
      eventualities1 ← seed_extract C arg1_parsed_result;
      '(para_eventualities, eventualities1) ←
        add_eventualities para_eventualities arg1_sent_idx (arg_indices a1)
          eventualities1;
      arg2_parsed_result ← project_argument sent_parsed_result2 (arg_indices a2);
      eventualities2 ← seed_extract C arg2_parsed_result;
      '(para_eventualities, eventualities2) ←
        add_eventualities para_eventualities arg2_sent_idx (arg_indices a2)
          eventualities2;
      match relation_list_idx len_sentences arg1_sent_idx arg2_sent_idx with
      | None => Ok (para_eventualities, para_relations)
      | Some relation_list_idx =>
          let senses := candidate_senses arg1_sent_idx arg2_sent_idx connective in
          if len senses =? 0 then Ok (para_eventualities, para_relations)
          else
            relations ← getitem para_relations relation_list_idx;
            relations ← argument_relations eventualities1 eventualities2 senses
                          relations;
            para_relations ← setitem para_relations relation_list_idx relations;
            Ok (para_eventualities, para_relations)
      end
  | _, _, _ => Ok st
  end.

(** The working collections after the loop over the connectives. *)
Definition working_collections (parsed_result : list pyobj) (cache : Cache)
  : result (list (list Eventuality) * list (list Relation)) :=
  let len_sentences := len parsed_result in
  let para_eventualities := replicate (Z.to_nat len_sentences) [] in
  let para_relations := replicate (Z.to_nat (2 * len_sentences - 1)) [] in
  connectives ← sorted_connectives parsed_result cache;
  for_each (extraction_round len_sentences parsed_result) connectives
    (para_eventualities, para_relations).

(** The merged relations of lines 524-533 (and 132-141). *)
Definition merged_relations (para_relations : list (list Relation))
  (relation_output_format : string) : result relations_output :=
  d ← rid2relation "deepcopy" "update" para_relations;
  if String.eqb relation_output_format "Relation" then
    Ok (OutRels (sort_by_rid (map_to_list d).*2))
  else
    ts ← all_triples "to_triples" (map_to_list d).*2;
    Ok (OutTriples (sorted_by id triple_le ts)).

(** The output stage of lines 500-534 (and 108-142), shared with
    [BaseASERExtractor.extract_from_parsed_result]. *)
Definition output_stage (is_single_sent : bool)
  (para_eventualities : list (list Eventuality))
  (para_relations : list (list Relation))
  (eventuality_output_format relation_output_format : string) (in_order : bool)
  : result (eventualities_output * relations_output) :=
  if in_order then
    _ ← (if String.eqb relation_output_format "triple"
         then map_each (all_triples "to_triple") para_relations
         else Ok []);
    if String.eqb eventuality_output_format "json" then
      let encoded := encode_buckets para_eventualities in
      if is_single_sent then
        e ← getitem encoded 0; r ← getitem para_relations 0;
        Ok (OutJsons e, OutRels r)
      else Ok (OutJsonBuckets encoded, OutRelBuckets para_relations)
    else
      if is_single_sent then
        e ← getitem para_eventualities 0; r ← getitem para_relations 0;
        Ok (OutEvs e, OutRels r)
      else Ok (OutEvBuckets para_eventualities, OutRelBuckets para_relations)
  else
    let eventualities :=
      merged_eventualities para_eventualities eventuality_output_format in
    relations ← merged_relations para_relations relation_output_format;
    Ok (eventualities, relations).

Definition extract_from_parsed_result (parsed_result : pyobj)
  (eventuality_output_format relation_output_format : string) (in_order : bool)
  (cache : Cache) : result (eventualities_output * relations_output) :=
  if unsupported eventuality_output_format "Eventuality" "json"
  then Raise NotImplementedError
  else if unsupported relation_output_format "Relation" "triple"
  then Raise NotImplementedError
  else
    '(is_single_sent, parsed_result) ← paragraph_shape parsed_result;
    '(para_eventualities, para_relations) ← working_collections parsed_result cache;
    output_stage is_single_sent para_eventualities para_relations
      eventuality_output_format relation_output_format in_order.

(** ** [BaseASERExtractor] (lines 48-142): the checks and the delegation *)

Definition Base_extract_eventualities_from_parsed_result (parsed_result : pyobj)
  (output_format : string) (in_order : bool) (cache : Cache)
  : result eventualities_output :=
  if unsupported output_format "Eventuality" "json" then Raise NotImplementedError
  else base_eventuality_extractor C parsed_result output_format in_order cache.

Definition Base_extract_relations_from_parsed_result (parsed_result : pyobj)
  (para_eventualities : eventualities_output)
  (output_format : string) (in_order : bool) (cache : Cache)
  : result relations_output :=
  if unsupported output_format "Relation" "triple" then Raise NotImplementedError
  else base_relation_extractor C parsed_result para_eventualities output_format
         in_order cache.

Definition Base_extract_from_parsed_result (parsed_result : pyobj)
  (eventuality_output_format relation_output_format : string) (in_order : bool)
  (cache : Cache) : result (eventualities_output * relations_output) :=
  if unsupported eventuality_output_format "Eventuality" "json"
  then Raise NotImplementedError
  else if unsupported relation_output_format "Relation" "triple"
  then Raise NotImplementedError
  else
    '(is_single_sent, parsed_result) ← paragraph_shape parsed_result;
    evs ← Base_extract_eventualities_from_parsed_result (PList parsed_result)
            "Eventuality" true cache;
    rels ← Base_extract_relations_from_parsed_result (PList parsed_result) evs
             "Relation" true cache;
    match evs, rels with
    | OutEvBuckets para_eventualities, OutRelBuckets para_relations =>
        output_stage is_single_sent para_eventualities para_relations
          eventuality_output_format relation_output_format in_order
    | _, _ => Raise TypeError
    end.

End Extractor.

(* ===================================================================== *)
(** * Collaborators to run the extractor on *)
(* ===================================================================== *)

(** Modelled from the spec: [_match_argument_eventuality_by_Simpson], whose
    module is not among the sources.  "Computes ... the Simpson overlap
    coefficient |A ∩ B| / min(|A|, |B|)" between the indices of the
    argument and the sentence positions of the eventuality, and "returns
    true iff the coefficient is ≥ threshold"; the threshold 0.99 is the one
    of every call.  The division fails on an empty set. *)
Definition Simpson_match (_ : pyobj) (argument : Argument) (e : Eventuality)
  : result bool :=
  let A : gset Z := list_to_set (arg_indices argument) in
  let B : gset Z := list_to_set (map_to_list (raw_sent_mapping e)).*2 in
  let smaller := Nat.min (size A) (size B) in
  if (smaller =? 0)%nat then Raise ZeroDivisionError
  else Ok (99 * smaller <=? 100 * size (A ∩ B))%nat.

(** Collaborators with a scripted discourse parser: it reports the
    connectives [script], whatever the paragraph; the eventuality extractor
    is [extractor]; identities are kept by [generate_eid]; a set of clauses
    is visited in the order of [elements]. *)
Definition scripted (script : list Connective)
  (extractor : Sentence → list Eventuality) : Collaborators :=
  {| seed_extract := λ s, Ok (extractor s);
     generate_eid := eid;
     encode := eid;
     conn_extract := λ _ _, Ok script;
     argpos_classify := λ _ cs _, Ok (cs, []);
     ss_extract := λ _ cs _, Ok cs;
     ps_extract := λ _ cs _, Ok cs;
     explicit_classify := λ _ cs _, Ok cs;
     match_by_Simpson := Simpson_match;
     SyntaxTree := λ p, Ok p;
     get_clauses := λ _ _ _, Ok [];
     clause_order := elements;
     EMPTY_SENT_PARSED_RESULT :=
       PDict (mkSentence "." [] ["."] ["."] ["."] None None (Some "(ROOT (NP (. .)))"));
     base_eventuality_extractor := λ _ _ _ _, Ok (OutEvBuckets []);
     base_relation_extractor := λ _ _ _ _ _, Ok (OutRelBuckets [[]]) |}.

(** What the runtime guarantees of the order in which a set is visited:
    every element comes once. *)
Definition visits_each_once (C : Collaborators) : Prop :=
  ∀ sent_clauses, clause_order C sent_clauses ≡ₚ elements sent_clauses.

(** An eventuality with identity [i] on the sentence positions [ps]. *)
Definition eventuality_at (i : string) (ps : list Z) : Eventuality :=
  mkEventuality i "s-v" [] (list_to_map (imap (λ k p, (Z.of_nat k, p)) ps)) 1%float.

(** A sentence of [n] tokens ["w"], without dependencies. *)
Definition plain_sentence (n : nat) : pyobj :=
  PDict (mkSentence "" [] (replicate n "w") (replicate n "x") (replicate n "w")
           None None (Some "(ROOT)")).

(** A sentence with the tokens [ts] (also as tags and lemmas). *)
Definition tok_sentence (ts : list string) : pyobj :=
  PDict (mkSentence "" [] ts ts ts None None (Some "(ROOT)")).

(** An eventuality extractor for the examples: one eventuality per
    non-empty span, named after the first token and covering the span. *)
Definition by_first_token (s : Sentence) : list Eventuality :=
  match tokens s with
  | t :: _ => [eventuality_at t (map Z.of_nat (seq 0 (length (tokens s))))]
  | [] => []
  end.

(** A connective at token 2 of sentence [i], with its two arguments in
    that sentence and the sense "Reason". *)
Definition connective_within (i : Z) : Connective :=
  mkConnective i [2] (Some (mkArgument i [0; 1])) (Some (mkArgument i [3; 4]))
    (Some "Reason").

(** A connective of sentence 2 whose first argument lies in sentence 0. *)
Definition connective_across_two : Connective :=
  mkConnective 2 [0] (Some (mkArgument 0 [0; 1])) (Some (mkArgument 2 [1; 2]))
    (Some "Reason").

(** Two connectives of sentence 1 with their first argument in sentence 0;
    the second has no sense. *)
Definition connectives_to_previous : list Connective :=
  [ mkConnective 1 [2] (Some (mkArgument 0 [0; 1])) (Some (mkArgument 1 [0; 1]))
      (Some "Reason");
    mkConnective 1 [3] (Some (mkArgument 0 [3; 4])) (Some (mkArgument 1 [0; 1]))
      None ].

Definition five_tokens : pyobj := tok_sentence ["a"; "b"; "so"; "c"; "d"].

(** Two relations on the same pair, and one on the reversed pair. *)
Definition relation_ab : Relation :=
  Relation_init (Some "a") (Some "b") (ArgList ["Reason"]).

Definition relation_ab' : Relation :=
  Relation_init (Some "a") (Some "b") (ArgList ["Reason"; "Result"; "Reason"]).

Definition relation_ba : Relation :=
  Relation_init (Some "b") (Some "a") (ArgList ["Result"]).

Definition other_tokens : pyobj := tok_sentence ["e"; "f"; "then"; "g"; "h"].

(** The paragraph shapes the entry points name in their [isinstance] test. *)
Definition recognised_shape (parsed_result : pyobj) : bool :=
  match parsed_result with
  | PDict _ | PList _ | PTuple _ => true
  | PStr _ | PInt _ | PNone => false
  end.

(** The baseline relations of one sentence, by recursion on its list of
    eventualities: every eventuality is paired with each later one. *)
Definition cooccurrence (e1 e2 : Eventuality) : Relation :=
  Relation_init (Some (eid e1)) (Some (eid e2)) (ArgList ["Co_Occurrence"]).

Fixpoint cooccurrence_pairs (sent_eventualities : list Eventuality)
  : list Relation :=
  match sent_eventualities with
  | [] => []
  | e1 :: rest => map (cooccurrence e1) rest ++ cooccurrence_pairs rest
  end.

(** ** Merged sense weights *)

(** The weight of one label after an additive merge of two mappings. *)
Definition merge_weight (a b : option float) : option float :=
  match a, b with
  | Some x, Some y => Some (x + y)%float
  | Some x, None => Some x
  | None, Some y => Some y
  | None, None => None
  end.

(** One more occurrence of a label in a merged list: a fresh label starts
    at 1.0, a known one gains 1.0. *)
Definition bump (o : option float) : option float :=
  Some (match o with None => 1%float | Some w => (w + 1)%float end).

Definition count_label (r : string) (l : list string) : nat :=
  length (filter (λ k, k = r) l).

(** ** The projection as the contract words it

    [position sp x] is the place of [x] in the span [sp]. *)
Definition position (sp : list Z) (x : Z) : option Z :=
  (λ p : nat * Z, Z.of_nat p.1) <$> list_find (λ y, y = x) sp.

(** The span lists its indices in increasing order (so without repeats). *)
Definition ascending (sp : list Z) : Prop :=
  ∀ (i j : nat) x y, (i < j)%nat → sp !! i = Some x → sp !! j = Some y → x < y.

Fixpoint ascendingb (sp : list Z) : bool :=
  match sp with
  | x :: (y :: _) as rest => (x <? y) && ascendingb rest
  | _ => true
  end.

(** Every index of the span is a token position, and the parallel arrays
    have the length of the token array. *)
Definition span_in_range (sent : Sentence) (sp : list Z) : Prop :=
  Forall (λ i, 0 ≤ i < len (tokens sent)) sp
  ∧ length (pos_tags sent) = length (tokens sent)
  ∧ length (lemmas sent) = length (tokens sent)
  ∧ (∀ ns, ners sent = Some ns → length ns = length (tokens sent)).

(** The elements of [xs] at the indices of [sp], in the order of [sp]. *)
Definition pick {A : Type} (xs : list A) (sp : list Z) : list A :=
  omap (λ i : Z, xs !! Z.to_nat i) sp.

(** A dependency triple is kept when both endpoints are in [sp], with the
    endpoints replaced by their positions. *)
Definition keep_dependency (sp : list Z) (dep : Z * string * Z)
  : option (Z * string * Z) :=
  g ← position sp dep.1.1; d ← position sp dep.2; Some (g, dep.1.2, d).

(** A mention is kept when its start and its last index are in [sp]; its
    new start is the position of the start, its new (exclusive) end the
    position of the last index plus one. *)
Definition keep_mention (sp : list Z) (m : Mention) : option Mention :=
  a ← position sp (m_start m); b ← position sp (m_end m - 1);
  Some (mkMention a (b + 1) (m_type m)).

Definition projection (sent : Sentence) (sp : list Z) : Sentence :=
  mkSentence ""
    (omap (keep_dependency sp) (dependencies sent))
    (pick (tokens sent) sp) (pick (pos_tags sent) sp) (pick (lemmas sent) sp)
    (option_map (λ ns, pick ns sp) (ners sent))
    (option_map (omap (keep_mention sp)) (mentions sent))
    None.

(** ** Relation identity *)

(** The identity contains no ["$"], the separator [generate_rid] puts
    between head and tail. *)
Definition separator_free (s : string) : bool :=
  forallb (λ c, negb (Ascii.eqb c "$")) (list_ascii_of_string s).



(** A sentence with dependencies, named entities and two mentions, for the
    projection. *)
Definition annotated_sentence : Sentence :=
  mkSentence "He left because it rained"
    [ (1, "nsubj", 0); (1, "advcl", 4); (4, "mark", 2); (4, "nsubj", 3) ]
    [ "He"; "left"; "because"; "it"; "rained" ]
    [ "PRP"; "VBD"; "IN"; "PRP"; "VBD" ]
    [ "he"; "leave"; "because"; "it"; "rain" ]
    (Some [ "PERSON"; "O"; "O"; "O"; "O" ])
    (Some [ mkMention 0 1 "PERSON"; mkMention 2 4 "MISC"; mkMention 3 5 "MISC" ])
    (Some "(ROOT)").

(* ===================================================================== *)
(** * Further code of [relation.py] and [aser_extractor.py] *)
(* ===================================================================== *)

(** ** [Relation.to_dict] and [Relation.from_dict] (lines 46-52)

    An instance is read and written through its dictionary [__dict__]. *)
Definition to_dict (self : Relation) : list (string * attr) := Relation_dict self.

(** [d[name]] on a dictionary with string keys *)
Definition attr_getitem (d : list (string * attr)) (name : string) : result attr :=
  match assoc name d with
  | Some v => Ok v
  | None => Raise KeyError
  end.

(** [self.__setattr__(name, v)] on the instance dictionary: an attribute
    that exists keeps its place, a new one goes to the end. *)
Fixpoint setattr (state : list (string * attr)) (name : string) (v : attr)
  : list (string * attr) :=
  match state with
  | [] => [(name, v)]
  | (k, w) :: rest =>
      if String.eqb k name then (k, v) :: rest else (k, w) :: setattr rest name v
  end.

(** [for attr_name in self.__dict__: self.__setattr__(attr_name, d[attr_name])];
    the result is the dictionary of [self] afterwards. *)
Definition from_dict (self : Relation) (d : list (string * attr))
  : result (list (string * attr)) :=
  for_each
    (λ state attr_name,
       v ← attr_getitem d attr_name; Ok (setattr state attr_name v))
    (Relation_dict self).*1 (Relation_dict self).

(** The identity of a relation is the digest of its own head and tail. *)
Definition rid_consistent (r : Relation) : Prop :=
  rid r = generate_rid (heid r) (teid r).


(** ** Edge cases of the projection *)

(** The index [i] is outside a list of length [n], also counted from the
    end. *)
Definition out_of_range (n i : Z) : Prop := n ≤ i ∨ i < - n.

(** A dependency triple re-indexed through the dictionary [idx_mapping]. *)
Definition reindex_dependency (indices : list Z) (dep : Z * string * Z)
  : option (Z * string * Z) :=
  g ← idx_mapping indices !! dep.1.1;
  d ← idx_mapping indices !! dep.2;
  Some (g, dep.1.2, d).

(** A clause in some order, and an eventuality on its first two places. *)
Definition unsorted_clause : list Z := [4; 1; 0].

Definition local_eventuality : Eventuality := eventuality_at "rain" [0; 1].


(** ** Structural duplicates (lines 423-427) *)

(** An entry of [existing] has the [eid] and the [raw_sent_mapping] of
    [e]. *)
Definition known_in (existing : list Eventuality) (e : Eventuality) : bool :=
  existsb
    (λ known,
       bool_decide (eid known = eid e)
       && bool_decide (raw_sent_mapping known = raw_sent_mapping e))
    existing.



(** ** A scripted clause splitter *)

(** The collaborators [C] with a clause splitter that reports the clauses
    [clauses sent] of each sentence, whatever the separators. *)
Definition with_clauses (clauses : pyobj → list (list Z)) (C : Collaborators)
  : Collaborators :=
  {| seed_extract := seed_extract C;
     generate_eid := generate_eid C;
     encode := encode C;
     conn_extract := conn_extract C;
     argpos_classify := argpos_classify C;
     ss_extract := ss_extract C;
     ps_extract := ps_extract C;
     explicit_classify := explicit_classify C;
     match_by_Simpson := match_by_Simpson C;
     SyntaxTree := SyntaxTree C;
     get_clauses := λ sent _ _, Ok (clauses sent);
     clause_order := clause_order C;
     EMPTY_SENT_PARSED_RESULT := EMPTY_SENT_PARSED_RESULT C;
     base_eventuality_extractor := base_eventuality_extractor C;
     base_relation_extractor := base_relation_extractor C |}.

(** The whole sentence as its one clause. *)
Definition whole_sentence (sent : pyobj) : list (list Z) :=
  match sent with
  | PDict s => [map Z.of_nat (seq 0 (length (tokens s)))]
  | _ => []
  end.



(** ** Order of a sorted list *)

(** Every element of [l] is related by [R] to every later one. *)
Definition ordered_by {A : Type} (R : A → A → Prop) (l : list A) : Prop :=
  ∀ (i j : nat) a b, (i < j)%nat → l !! i = Some a → l !! j = Some b → R a b.

(** The order of the sort key of line 283 (and 379): by sentence, then by
    the first index of the connective, a connective without indices
    counting as index -1. *)
Definition connective_le (x y : Connective) : Prop :=
  sent_idx x < sent_idx y
  ∨ (sent_idx x = sent_idx y ∧ (connective_key x).2 ≤ (connective_key y).2).

(** The candidates as the last classifier returns them, before the sort
    (lines 278-282 and 374-378). *)
Definition classified_connectives (C : Collaborators) (sentences : list pyobj)
  (cache : Cache) : result (list Connective) :=
  connectives ← conn_extract C sentences cache;
  '(SS_connectives, PS_connectives) ← argpos_classify C sentences connectives cache;
  SS_connectives ← ss_extract C sentences SS_connectives cache;
  PS_connectives ← ps_extract C sentences PS_connectives cache;
  explicit_classify C sentences (SS_connectives ++ PS_connectives) cache.



(** ** Results without relations *)

(** The relation result holds no relation and no triple. *)
Definition no_relation (out : relations_output) : Prop :=
  match out with
  | OutRelBuckets l => Forall (λ bucket, bucket = []) l
  | OutRels l => l = []
  | OutTripleLists l => Forall (λ bucket, bucket = []) l
  | OutTriples l => l = []
  end.

(** The order of [sorted(..., key=lambda r: r.rid)] and of
    [sorted(..., key=lambda e: e.eid)]. *)
Definition rid_le (a b : Relation) : Prop := String.leb (rid a) (rid b) = true.

Definition eid_le (a b : Eventuality) : Prop := String.leb (eid a) (eid b) = true.



(** ** Buckets that are filled at most once *)

(** The bucket [after] is the bucket [before], or [before] was empty and
    [after] holds one relation. *)
Definition filled_once (before after : list Relation) : Prop :=
  after = before ∨ (before = [] ∧ ∃ relation, after = [relation]).



(** ** Candidates between distant sentences *)

(** The two arguments of the candidate, when it has both, lie in sentences
    that are neither the same nor consecutive (lines 472-477). *)
Definition distant (connective : Connective) : Prop :=
  ∀ a1 a2, arg1 connective = Some a1 → arg2 connective = Some a2 →
           arg_sent_idx a1 ≠ arg_sent_idx a2
           ∧ arg_sent_idx a1 + 1 ≠ arg_sent_idx a2.



(** ** The syntax trees of [_extract_clauses] *)

(** The collaborators [C] with another constructor of syntax trees. *)
Definition with_syntax_tree (f : string → result tree) (C : Collaborators)
  : Collaborators :=
  {| seed_extract := seed_extract C;
     generate_eid := generate_eid C;
     encode := encode C;
     conn_extract := conn_extract C;
     argpos_classify := argpos_classify C;
     ss_extract := ss_extract C;
     ps_extract := ps_extract C;
     explicit_classify := explicit_classify C;
     match_by_Simpson := match_by_Simpson C;
     SyntaxTree := f;
     get_clauses := get_clauses C;
     clause_order := clause_order C;
     EMPTY_SENT_PARSED_RESULT := EMPTY_SENT_PARSED_RESULT C;
     base_eventuality_extractor := base_eventuality_extractor C;
     base_relation_extractor := base_relation_extractor C |}.

(** The cache holds a tree for every sentence index of the paragraph. *)
Definition covers (cache : Cache) (parsed_result : list pyobj) : Prop :=
  ∀ i : nat, (i < length parsed_result)%nat → is_Some (cache !! Z.of_nat i).

(** A sentence of one token that has no ["parse"] entry. *)
Definition unparsed_sentence : pyobj :=
  PDict (mkSentence "" [] ["w"] ["x"] ["w"] None None None).



(* ===================================================================== *)
(** * [aser/server/__init__.py]: its import of the extractor *)
(* ===================================================================== *)





(* ===================================================================== *)
(** * Properties *)
(* ===================================================================== *)

Example sha1_abc : Sha1.hexdigest "abc" = "a9993e364706816aba3e25717850c26c9cd0d89d".
Proof. vm_compute. reflexivity. Qed.

Example sha1_empty : Sha1.hexdigest "" = "da39a3ee5e6b4b0d3255bfef95601890afd80709".
Proof. vm_compute. reflexivity. Qed.

Example sha1_two_blocks :
  Sha1.hexdigest "abcdbcdecdefdefgefghfghighijhijkijkljklmklmnlmnomnopnopq"
  = "84983e441c3bd26ebaae4aa1f95129e5e54670f1".
Proof. vm_compute. reflexivity. Qed.

(* --------------------------------------------------------------------- *)
(** ** Merging sense weights ([relation.py]) *)
(* --------------------------------------------------------------------- *)

Lemma add_weight_lookup_eq acc r cnt :
  add_weight acc r cnt !! r = merge_weight (acc !! r) (Some cnt).
Proof.
  unfold add_weight. destruct (acc !! r) as [w|] eqn:E; simpl;
    by rewrite lookup_insert_eq.
Qed.

Lemma add_weight_lookup_ne acc k r cnt :
  k ≠ r → add_weight acc k cnt !! r = acc !! r.
Proof.
  intros Hne. unfold add_weight.
  destruct (acc !! k); by rewrite lookup_insert_ne.
Qed.

Lemma merge_weight_None_r a : merge_weight a None = a.
Proof. by destruct a. Qed.

Lemma add_items_lookup items :
  NoDup items.*1 →
  ∀ acc r,
    add_items acc items !! r
    = merge_weight (acc !! r) ((list_to_map items : gmap string float) !! r).
Proof.
  induction items as [|[k c] rest IH]; intros Hnd acc r.
  - simpl. by rewrite lookup_empty, merge_weight_None_r.
  - apply NoDup_cons in Hnd as [Hk Hnd].
    change (add_items acc ((k, c) :: rest))
      with (add_items (add_weight acc k c) rest).
    rewrite (IH Hnd). simpl.
    destruct (decide (k = r)) as [->|Hne].
    + rewrite lookup_insert_eq, add_weight_lookup_eq.
      rewrite (not_elem_of_list_to_map_1 _ _ Hk).
      by rewrite merge_weight_None_r.
    + by rewrite lookup_insert_ne, add_weight_lookup_ne.
Qed.

Lemma add_items_map_lookup acc (d : gmap string float) r :
  add_items acc (map_to_list d) !! r = merge_weight (acc !! r) (d !! r).
Proof.
  rewrite add_items_lookup by apply NoDup_fst_map_to_list.
  by rewrite list_to_map_to_list.
Qed.

Lemma add_labels_lookup l :
  ∀ acc r, add_labels acc l !! r = Nat.iter (count_label r l) bump (acc !! r).
Proof.
  induction l as [|k rest IH]; intros acc r; [done|].
  change (add_labels acc (k :: rest)) with (add_labels (add_weight acc k 1) rest).
  rewrite IH. unfold count_label. rewrite filter_cons.
  destruct (decide (k = r)) as [->|Hne].
  - cbn iota. rewrite add_weight_lookup_eq.
    cbn [length]. rewrite Nat.iter_succ_r. f_equal. by destruct (acc !! r).
  - cbn iota. by rewrite add_weight_lookup_ne.
Qed.

(** C2. Merging a relation with the same head and tail adds the weights
    label by label: a label on both sides gets the sum, a label on one
    side keeps that side's weight, the identity fields stay, and no label
    of the receiver is lost.  Merging a list of labels applies [bump] once
    per occurrence of a label, i.e. adds 1.0 each time. *)
Theorem update_relations_additive (self x : Relation) :
  heid self = heid x → teid self = teid x →
  let merged := update_relations self (ArgRelation x) in
  (heid merged = heid self ∧ teid merged = teid self ∧ rid merged = rid self)
  ∧ (∀ r, relations merged !! r
          = merge_weight (relations self !! r) (relations x !! r))
  ∧ (∀ r w, relations self !! r = Some w →
            relations merged !! r = Some w
            ∨ ∃ c, relations x !! r = Some c
                   ∧ relations merged !! r = Some (w + c)%float)
  ∧ (∀ (l : list string) r,
        relations (update_relations self (ArgList l)) !! r
        = Nat.iter (count_label r l) bump (relations self !! r)).
Proof.
  intros Hh Ht merged.
  assert (Hm : merged
    = set_relations self (add_items (relations self) (map_to_list (relations x)))).
  { unfold merged, update_relations.
    by rewrite !bool_decide_eq_true_2. }
  assert (Hl : ∀ r, relations merged !! r
                    = merge_weight (relations self !! r) (relations x !! r)).
  { intros r. rewrite Hm. simpl. apply add_items_map_lookup. }
  split; [by rewrite Hm|].
  split; [exact Hl|].
  split.
  - intros r w Hw. rewrite Hl, Hw.
    destruct (relations x !! r) as [c|] eqn:Hc; simpl; [right|left]; eauto.
  - intros l r. simpl. apply add_labels_lookup.
Qed.

Lemma update_relations_additive_witness :
  heid relation_ab = heid relation_ab' ∧ teid relation_ab = teid relation_ab'
  ∧ ∀ r, relations (update_relations relation_ab (ArgRelation relation_ab')) !! r
         = merge_weight (relations relation_ab !! r) (relations relation_ab' !! r).
Proof.
  assert (Hh : heid relation_ab = heid relation_ab') by (vm_compute; reflexivity).
  assert (Ht : teid relation_ab = teid relation_ab') by (vm_compute; reflexivity).
  split; [exact Hh|]. split; [exact Ht|].
  exact (proj1 (proj2 (update_relations_additive relation_ab relation_ab' Hh Ht))).
Defined.

(** C10. Merging a relation whose head or tail differs changes nothing:
    the call returns the receiver as it was. *)
Theorem update_relations_mismatch_noop (self x : Relation) :
  heid self ≠ heid x ∨ teid self ≠ teid x →
  update_relations self (ArgRelation x) = self.
Proof.
  intros H. unfold update_relations.
  destruct H as [H|H].
  - by rewrite (bool_decide_eq_false_2 _ H).
  - rewrite (bool_decide_eq_false_2 _ H). by rewrite andb_false_r.
Qed.

Lemma update_relations_mismatch_noop_witness :
  (heid relation_ab ≠ heid relation_ba ∨ teid relation_ab ≠ teid relation_ba)
  ∧ update_relations relation_ab (ArgRelation relation_ba) = relation_ab.
Proof.
  assert (H : heid relation_ab ≠ heid relation_ba) by (vm_compute; discriminate).
  split; [left; exact H|].
  apply (update_relations_mismatch_noop relation_ab relation_ba). left. exact H.
Defined.



(* --------------------------------------------------------------------- *)
(** ** The lookup-or-create step *)
(* --------------------------------------------------------------------- *)

Lemma Relation_getattr_hid relation :
  Relation_getattr relation "hid" = Raise AttributeError.
Proof. reflexivity. Qed.

Lemma Relation_getattr_update relation :
  Relation_getattr relation "update" = Raise AttributeError.
Proof. reflexivity. Qed.

Lemma lookup_or_create_empty heid teid senses :
  lookup_or_create [] heid teid senses
  = Ok [Relation_init (Some heid) (Some teid) (ArgList senses)].
Proof. reflexivity. Qed.

Lemma lookup_or_create_nonempty relation rest heid teid senses :
  lookup_or_create (relation :: rest) heid teid senses = Raise AttributeError.
Proof. reflexivity. Qed.

(** C3. The lookup-or-create step reads [relation.hid] of the first
    relation of the bucket; a [Relation] has no attribute [hid], so on every
    non-empty bucket the step raises [AttributeError] instead of merging
    or appending.  Only on an empty bucket does it complete, appending the
    new relation.  The first connective of a sentence with two matched
    eventualities already meets the baseline relation of that sentence. *)
Theorem lookup_or_create_fails_on_nonempty_bucket :
  (∀ relation rest heid teid senses,
      lookup_or_create (relation :: rest) heid teid senses = Raise AttributeError)
  ∧ (∀ heid teid sense,
        lookup_or_create [] heid teid [sense]
        = Ok [Relation_init (Some heid) (Some teid) (ArgList [sense])]
        ∧ relations (Relation_init (Some heid) (Some teid) (ArgList [sense]))
          = {[ sense := 1%float ]})
  ∧ extract_relations_from_parsed_result
      (scripted [connective_within 0] (λ _, []))
      (PList [five_tokens])
      [[eventuality_at "a" [0; 1]; eventuality_at "c" [3; 4]]]
      "Relation" true ∅
    = Raise AttributeError.
Proof.
  split; [|split].
  - intros. apply lookup_or_create_nonempty.
  - intros. split; [apply lookup_or_create_empty|].
    unfold Relation_init, update_relations, add_labels, add_weight. simpl.
    rewrite lookup_empty. by rewrite insert_empty.
  - vm_compute. reflexivity.
Qed.

(** The same in [extract_from_parsed_result]: the second of two
    connectives with the same arguments finds the relation of the first. *)
Example lookup_or_create_fails_in_combined_entry_point :
  extract_from_parsed_result
    (scripted [connective_within 0; connective_within 0] by_first_token)
    (PList [five_tokens])
    "Eventuality" "Relation" true ∅
  = Raise AttributeError.
Proof. vm_compute. reflexivity. Qed.

(* --------------------------------------------------------------------- *)
(** ** The merged output *)
(* --------------------------------------------------------------------- *)

Lemma rid2relation_unknown_copier merger para_relations :
  concat para_relations ≠ [] →
  rid2relation "deeocopy" merger para_relations = Raise NameError.
Proof.
  intros Hne. unfold rid2relation.
  destruct (concat para_relations) as [|relation rest]; [done|].
  cbn [for_each]. by rewrite lookup_empty.
Qed.

(** C1. In merged mode the relations are not grouped.
    [extract_relations_from_parsed_result] copies a relation with the
    unbound name [deeocopy]: one sentence with two eventualities is enough
    for a [NameError].  [extract_from_parsed_result] merges a repeated [rid]
    with [Relation.update], which [Relation] does not define: the same pair
    of eventualities in two sentences raises [AttributeError]. *)
Theorem merged_relations_fail :
  extract_relations_from_parsed_result
    (scripted [] (λ _, []))
    (PList [five_tokens])
    [[eventuality_at "a" [0; 1]; eventuality_at "c" [3; 4]]]
    "Relation" false ∅
  = Raise NameError
  ∧ extract_from_parsed_result
      (scripted [connective_within 0; connective_within 1] by_first_token)
      (PList [five_tokens; five_tokens])
      "Eventuality" "Relation" false ∅
    = Raise AttributeError.
Proof. split; vm_compute; reflexivity. Qed.

(** The in-order buckets of the second input: the relation (a, c) is in
    bucket 0 and in bucket 1, so its [rid] does repeat. *)
Example merged_relations_fail_buckets :
  extract_from_parsed_result
    (scripted [connective_within 0; connective_within 1] by_first_token)
    (PList [five_tokens; five_tokens])
    "Eventuality" "Relation" true ∅
  = Ok (OutEvBuckets
          [ [eventuality_at "a" [0; 1]; eventuality_at "c" [3; 4]];
            [eventuality_at "a" [0; 1]; eventuality_at "c" [3; 4]] ],
        OutRelBuckets
          [ [Relation_init (Some "a") (Some "c") (ArgList ["Co_Occurrence"; "Reason"])];
            [Relation_init (Some "a") (Some "c") (ArgList ["Co_Occurrence"; "Reason"])];
            [] ]).
Proof. vm_compute. reflexivity. Qed.

(* --------------------------------------------------------------------- *)
(** ** Adjacency of the argument sentences *)
(* --------------------------------------------------------------------- *)

(** C4. [extract_relations_from_parsed_result] has no adjacency test: a
    candidate whose arguments lie in sentences 0 and 2 of a three-sentence
    paragraph is not discarded, and a relation between an eventuality of
    sentence 0 and one of sentence 2 is put into bucket 0 + 3, the bucket
    of the pair (0, 1). *)
Theorem relations_entry_point_keeps_distant_candidate :
  extract_relations_from_parsed_result
    (scripted [connective_across_two] (λ _, []))
    (PList [plain_sentence 3; plain_sentence 3; plain_sentence 3])
    [ [eventuality_at "e0" [0; 1]]; [eventuality_at "e1" [0; 1]];
      [eventuality_at "e2" [1; 2]] ]
    "Relation" true ∅
  = Ok (OutRelBuckets
          [ []; []; [];
            [Relation_init (Some "e0") (Some "e2") (ArgList ["Reason"])];
            [] ]).
Proof. vm_compute. reflexivity. Qed.


(* --------------------------------------------------------------------- *)
(** ** Format and shape checks *)
(* --------------------------------------------------------------------- *)

Section Checks.

Context (C : Collaborators).

Lemma paragraph_shape_unrecognised parsed_result :
  recognised_shape parsed_result = false →
  paragraph_shape parsed_result = Raise NotImplementedError.
Proof. by destruct parsed_result. Qed.

(** The combined entry point checks both formats, then the shape, before
    any collaborator is called: the outcome does not depend on [C]. *)
Lemma extract_from_parsed_result_checks parsed_result ef rf in_order cache :
  unsupported ef "Eventuality" "json" = true
  ∨ unsupported rf "Relation" "triple" = true
  ∨ recognised_shape parsed_result = false →
  extract_from_parsed_result C parsed_result ef rf in_order cache
  = Raise NotImplementedError.
Proof.
  intros H. unfold extract_from_parsed_result.
  destruct (unsupported ef "Eventuality" "json"); [done|].
  destruct (unsupported rf "Relation" "triple"); [done|].
  destruct H as [?|[?|H]]; [done..|].
  by rewrite (paragraph_shape_unrecognised _ H).
Qed.

Lemma Base_extract_from_parsed_result_checks parsed_result ef rf in_order cache :
  unsupported ef "Eventuality" "json" = true
  ∨ unsupported rf "Relation" "triple" = true
  ∨ recognised_shape parsed_result = false →
  Base_extract_from_parsed_result C parsed_result ef rf in_order cache
  = Raise NotImplementedError.
Proof.
  intros H. unfold Base_extract_from_parsed_result.
  destruct (unsupported ef "Eventuality" "json"); [done|].
  destruct (unsupported rf "Relation" "triple"); [done|].
  destruct H as [?|[?|H]]; [done..|].
  by rewrite (paragraph_shape_unrecognised _ H).
Qed.

Lemma extract_eventualities_checks parsed_result fmt in_order cache :
  unsupported fmt "Eventuality" "json" = true
  ∨ recognised_shape parsed_result = false →
  extract_eventualities_from_parsed_result C parsed_result fmt in_order cache
  = Raise NotImplementedError.
Proof.
  intros H. unfold extract_eventualities_from_parsed_result.
  destruct (unsupported fmt "Eventuality" "json"); [done|].
  destruct H as [?|H]; [done|].
  by rewrite (paragraph_shape_unrecognised _ H).
Qed.

Lemma extract_relations_format_check parsed_result para_eventualities fmt in_order
  cache :
  unsupported fmt "Relation" "triple" = true →
  extract_relations_from_parsed_result C parsed_result para_eventualities fmt
    in_order cache
  = Raise NotImplementedError.
Proof. intros H. unfold extract_relations_from_parsed_result. by rewrite H. Qed.

(** C8. [extract_relations_from_parsed_result] does not test the shape of
    the paragraph: it takes [len(parsed_result)] of whatever it is given.
    For the empty string, which is neither a dict nor a list or tuple, the
    call returns one empty bucket instead of raising, whatever the
    collaborators are. *)
Theorem relations_entry_point_accepts_empty_string para_eventualities cache :
  recognised_shape (PStr "") = false
  ∧ extract_relations_from_parsed_result C (PStr "") para_eventualities
      "Relation" true cache
    = Ok (OutRelBuckets [[]])
  ∧ extract_relations_from_parsed_result C (PStr "") para_eventualities
      "Relation" false cache
    = Ok (OutRels []).
Proof. repeat split. Qed.

(* --------------------------------------------------------------------- *)
(** ** A paragraph without sentences *)
(* --------------------------------------------------------------------- *)

Lemma merged_eventualities_nil fmt :
  fmt = "Eventuality" → merged_eventualities C [] fmt = OutEvs [].
Proof.
  intros ->. unfold merged_eventualities, eid2eventuality. simpl.
  by rewrite map_to_list_empty.
Qed.

(** C7 (amended). For the empty list of sentences, when the connective
    extractor finds nothing in it, eventuality extraction returns the empty
    sequence: no bucket in-order, no eventuality merged.  Relation
    extraction returns exactly one empty bucket in-order and the empty
    sequence merged, without calling any collaborator. *)
Theorem zero_sentence_paragraph para_eventualities cache :
  conn_extract C [] cache = Ok [] →
  extract_eventualities_from_parsed_result C (PList []) "Eventuality" true cache
  = Ok (OutEvBuckets [])
  ∧ extract_eventualities_from_parsed_result C (PList []) "Eventuality" false cache
    = Ok (OutEvs [])
  ∧ extract_relations_from_parsed_result C (PList []) para_eventualities
      "Relation" true cache
    = Ok (OutRelBuckets [[]])
  ∧ extract_relations_from_parsed_result C (PList []) para_eventualities
      "Relation" false cache
    = Ok (OutRels []).
Proof.
  intros Hconn.
  assert (Hclauses : _extract_clauses C [] cache = Ok []).
  { unfold _extract_clauses. by rewrite Hconn. }
  repeat split.
  - unfold extract_eventualities_from_parsed_result. simpl.
    by rewrite Hclauses.
  - unfold extract_eventualities_from_parsed_result. simpl.
    rewrite Hclauses. simpl. by rewrite merged_eventualities_nil.
Qed.

(** The combined entry point allocates [2 * 0 - 1] buckets, that is none:
    for the empty paragraph it returns two empty sequences. *)
Lemma zero_sentence_combined cache :
  sorted_connectives C [] cache = Ok [] →
  extract_from_parsed_result C (PList []) "Eventuality" "Relation" true cache
  = Ok (OutEvBuckets [], OutRelBuckets []).
Proof.
  intros H. unfold extract_from_parsed_result, working_collections. simpl.
  unfold mbind, result_bind. cbn [bind]. by rewrite H.
Qed.

End Checks.

Lemma zero_sentence_paragraph_witness :
  conn_extract (scripted [] (λ _, [])) [] ∅ = Ok []
  ∧ extract_eventualities_from_parsed_result (scripted [] (λ _, [])) (PList [])
      "Eventuality" true ∅
    = Ok (OutEvBuckets []).
Proof.
  split; [reflexivity|].
  exact (proj1 (zero_sentence_paragraph (scripted [] (λ _, [])) [] ∅ eq_refl)).
Defined.

(** C7 (as stated). The eventuality result for the empty paragraph is not
    a sequence of one bucket: it has no bucket at all. *)
Lemma zero_sentence_eventualities_no_bucket :
  ¬ ∃ bucket,
      extract_eventualities_from_parsed_result (scripted [] (λ _, [])) (PList [])
        "Eventuality" true ∅
      = Ok (OutEvBuckets [bucket]).
Proof. intros [bucket H]. vm_compute in H. discriminate H. Qed.

(* --------------------------------------------------------------------- *)
(** ** Co-occurrence in the combined entry point *)
(* --------------------------------------------------------------------- *)

Example combined_entry_point_buckets :
  extract_from_parsed_result
    (scripted connectives_to_previous by_first_token)
    (PList [five_tokens; other_tokens])
    "Eventuality" "Relation" true ∅
  = Ok (OutEvBuckets
          [ [eventuality_at "a" [0; 1]; eventuality_at "c" [3; 4]];
            [eventuality_at "e" [0; 1]] ],
        OutRelBuckets
          [ []; [];
            [Relation_init (Some "a") (Some "e") (ArgList ["Reason"])] ]).
Proof. vm_compute. reflexivity. Qed.

(** C5 (as stated). In [extract_from_parsed_result] no baseline loop runs:
    two connectives of sentence 1 put two eventualities into the working
    list of sentence 0, and bucket 0 stays empty, where 2 * 1 / 2 = 1
    [Co_Occurrence] relation is claimed. *)
Lemma combined_entry_point_has_no_baseline :
  ∃ para_eventualities para_relations sent_eventualities bucket,
    extract_from_parsed_result
      (scripted connectives_to_previous by_first_token)
      (PList [five_tokens; other_tokens])
      "Eventuality" "Relation" true ∅
    = Ok (OutEvBuckets para_eventualities, OutRelBuckets para_relations)
    ∧ para_eventualities !! 0%nat = Some sent_eventualities
    ∧ para_relations !! 0%nat = Some bucket
    ∧ length sent_eventualities = 2%nat
    ∧ length bucket
      ≠ (length sent_eventualities * (length sent_eventualities - 1) / 2)%nat.
Proof.
  eexists _, _, _, _. split; [apply combined_entry_point_buckets|].
  repeat split. simpl. discriminate.
Qed.

(* --------------------------------------------------------------------- *)
(** ** The baseline loop of [extract_relations_from_parsed_result] *)
(* --------------------------------------------------------------------- *)

Lemma getitem_nat {A} (l : list A) (i : nat) (x : A) :
  l !! i = Some x → getitem l (Z.of_nat i) = Ok x.
Proof.
  intros H. unfold getitem.
  destruct (Z.of_nat i <? 0) eqn:E; [apply Z.ltb_lt in E; lia|].
  cbn zeta. rewrite E. by rewrite Nat2Z.id, H.
Qed.

Lemma setitem_nat {A} (l : list A) (i : nat) (x : A) :
  (i < length l)%nat → setitem l (Z.of_nat i) x = Ok (<[i := x]> l).
Proof.
  intros H. unfold setitem.
  destruct (Z.of_nat i <? 0) eqn:E; [apply Z.ltb_lt in E; lia|].
  cbn zeta. rewrite E, Nat2Z.id.
  by replace (i <? length l)%nat with true by (symmetry; apply Nat.ltb_lt; lia).
Qed.

Lemma range2_nat (s n : nat) :
  range2 (Z.of_nat s) (Z.of_nat (s + n)) = map Z.of_nat (seq s n).
Proof.
  unfold range2.
  replace (Z.to_nat (Z.of_nat (s + n) - Z.of_nat s)) with n by lia.
  assert (seq s n = Nat.add s <$> seq 0 n) as ->
    by (rewrite fmap_add_seq; f_equal; lia).
  rewrite <- list_fmap_compose. apply list_fmap_ext.
  intros _ k _. simpl. lia.
Qed.

Lemma range_nat (n : nat) : range (Z.of_nat n) = map Z.of_nat (seq 0 n).
Proof. apply (range2_nat 0 n). Qed.

(** An indexed loop that appends [f l[j]] for [j = s, ..., s + n - 1]. *)
Lemma for_each_append_indexed {A B} (f : A → B) (l : list A) n :
  ∀ s acc,
    (s + n ≤ length l)%nat →
    for_each (λ acc j, bind (getitem l j) (λ x, Ok (acc ++ [f x])))
      (map Z.of_nat (seq s n)) acc
    = Ok (acc ++ map f (take n (drop s l))).
Proof.
  induction n as [|n IH]; intros s acc Hle.
  - simpl. by rewrite app_nil_r.
  - destruct (lookup_lt_is_Some_2 l s) as [x Hx]; [lia|].
    simpl. rewrite (getitem_nat _ _ _ Hx). simpl.
    rewrite IH by lia. rewrite (drop_S _ _ _ Hx). simpl.
    by rewrite <- app_assoc.
Qed.

Lemma cooccurrence_inner (evs : list Eventuality) (i : nat) e1 acc :
  (i < length evs)%nat →
  for_each
    (λ relations_in_sent e2_idx,
       bind (getitem evs e2_idx)
         (λ e2, Ok (relations_in_sent
                      ++ [Relation_init (Some (eid e1)) (Some (eid e2))
                            (ArgList ["Co_Occurrence"])])))
    (range2 (Z.of_nat i + 1) (len evs)) acc
  = Ok (acc ++ map (cooccurrence e1) (drop (S i) evs)).
Proof.
  intros Hi. unfold len.
  replace (Z.of_nat i + 1) with (Z.of_nat (S i)) by lia.
  replace (length evs) with (S i + (length evs - S i))%nat at 1 by lia.
  rewrite range2_nat.
  rewrite (for_each_append_indexed (cooccurrence e1)) by lia.
  rewrite take_ge; [done|]. rewrite length_drop. lia.
Qed.

Lemma cooccurrence_outer (evs : list Eventuality) n :
  ∀ s acc,
    (s + n + 1 = length evs)%nat →
    for_each
      (λ relations_in_sent e1_idx,
         bind (getitem evs e1_idx)
           (λ e1,
              for_each
                (λ relations_in_sent e2_idx,
                   bind (getitem evs e2_idx)
                     (λ e2, Ok (relations_in_sent
                                  ++ [Relation_init (Some (eid e1)) (Some (eid e2))
                                        (ArgList ["Co_Occurrence"])])))
                (range2 (e1_idx + 1) (len evs)) relations_in_sent))
      (map Z.of_nat (seq s n)) acc
    = Ok (acc ++ cooccurrence_pairs (drop s evs)).
Proof.
  induction n as [|n IH]; intros s acc Hlen.
  - simpl. destruct (lookup_lt_is_Some_2 evs s) as [x Hx]; [lia|].
    rewrite (drop_S _ _ _ Hx). rewrite drop_ge by lia. simpl.
    by rewrite app_nil_r.
  - destruct (lookup_lt_is_Some_2 evs s) as [x Hx]; [lia|].
    cbn [seq map for_each]. rewrite (getitem_nat _ _ _ Hx). cbn [bind].
    rewrite cooccurrence_inner by lia. cbn [bind].
    rewrite IH by lia. rewrite (drop_S _ _ _ Hx). simpl.
    by rewrite <- app_assoc.
Qed.

Lemma add_cooccurrences_spec acc (evs : list Eventuality) :
  add_cooccurrences acc evs = Ok (acc ++ cooccurrence_pairs evs).
Proof.
  unfold add_cooccurrences, mbind, result_bind.
  destruct evs as [|e rest] eqn:E.
  - simpl. by rewrite app_nil_r.
  - rewrite <- E.
    assert (Hlen : len evs - 1 = Z.of_nat (length rest)).
    { unfold len. rewrite E. simpl. lia. }
    rewrite Hlen, range_nat.
    rewrite (cooccurrence_outer evs (length rest) 0 acc).
    + done.
    + rewrite E. simpl. lia.
Qed.

Lemma cooccurrence_pairs_length (evs : list Eventuality) :
  length (cooccurrence_pairs evs) = (length evs * (length evs - 1) / 2)%nat.
Proof.
  induction evs as [|e rest IH]; [done|].
  cbn [cooccurrence_pairs length]. rewrite length_app, length_map, IH.
  generalize (length rest) as k. intros k.
  replace (S k * (S k - 1))%nat with (k * (k - 1) + k * 2)%nat
    by (destruct k; simpl; lia).
  rewrite Nat.div_add by lia. lia.
Qed.

Lemma or_empty_Some s : or_empty (Some s) = s.
Proof. by destruct s. Qed.

Lemma cooccurrence_fields e1 e2 :
  heid (cooccurrence e1 e2) = eid e1
  ∧ teid (cooccurrence e1 e2) = eid e2
  ∧ rid (cooccurrence e1 e2) = generate_rid (eid e1) (eid e2)
  ∧ relations (cooccurrence e1 e2) = {[ "Co_Occurrence" := 1%float ]}.
Proof.
  unfold cooccurrence, Relation_init. rewrite !or_empty_Some.
  repeat split.
Qed.

Lemma cooccurrence_pairs_elem_of (evs : list Eventuality) r :
  r ∈ cooccurrence_pairs evs
  ↔ ∃ (a b : nat) e1 e2,
      (a < b)%nat ∧ evs !! a = Some e1 ∧ evs !! b = Some e2
      ∧ r = cooccurrence e1 e2.
Proof.
  induction evs as [|e rest IH].
  - split; [by intros ?%elem_of_nil|].
    by intros (a & b & e1 & e2 & _ & H & _).
  - cbn [cooccurrence_pairs]. rewrite elem_of_app, list_elem_of_fmap, IH.
    split.
    + intros [(e2 & -> & [j Hj]%list_elem_of_lookup)
             |(a & b & e1 & e2 & Hab & Ha & Hb & ->)].
      * exists 0%nat, (S j), e, e2. repeat split; [lia|done].
      * exists (S a), (S b), e1, e2. repeat split; [lia|done..].
    + intros (a & b & e1 & e2 & Hab & Ha & Hb & ->).
      destruct b as [|b]; [lia|]. destruct a as [|a].
      * left. injection Ha as ->. exists e2. split; [done|].
        apply list_elem_of_lookup. by exists b.
      * right. exists a, b, e1, e2. repeat split; [lia|done..].
Qed.

Section Baseline.

Context (C : Collaborators).

Lemma baseline_round_spec st (s B : nat) sent evs (finished : list (list Eventuality)) :
  baseline_relations st
  = map cooccurrence_pairs finished ++ replicate (B - s) [] →
  length finished = s → (s < B)%nat →
  ∃ st', baseline_round C st (Z.of_nat s, (sent, evs)) = Ok st'
         ∧ baseline_relations st'
           = map cooccurrence_pairs (finished ++ [evs]) ++ replicate (B - S s) [].
Proof.
  intros Hst Hlen Hs.
  assert (HB : (B - s = S (B - S s))%nat) by lia.
  assert (Hmap : length (map cooccurrence_pairs finished) = s)
    by by rewrite length_map.
  unfold baseline_round.
  destruct (0 <? len evs) eqn:Hk.
  - assert (Hget : baseline_relations st !! s = Some []).
    { rewrite Hst, lookup_app_r by lia. rewrite Hmap, Nat.sub_diag, HB. done. }
    unfold mbind, result_bind.
    rewrite (getitem_nat _ _ _ Hget). cbn [bind].
    rewrite add_cooccurrences_spec. cbn [bind app].
    rewrite setitem_nat by (apply lookup_lt_is_Some_1; eauto).
    cbn [bind]. eexists. split; [reflexivity|]. cbn [baseline_relations].
    rewrite Hst, HB.
    rewrite insert_app_r_alt by lia. rewrite Hmap, Nat.sub_diag.
    rewrite map_app. cbn. by rewrite <- app_assoc.
  - eexists. split; [reflexivity|]. cbn [baseline_relations].
    assert (evs = []) as ->.
    { apply Z.ltb_ge in Hk. unfold len in Hk. destruct evs; [done|simpl in Hk; lia]. }
    rewrite Hst, HB, map_app. cbn. by rewrite <- app_assoc.
Qed.

Lemma baseline_loop_spec (B : nat) (items : list (pyobj * list Eventuality)) :
  ∀ (s : nat) st (finished : list (list Eventuality)),
    baseline_relations st
    = map cooccurrence_pairs finished ++ replicate (B - s) [] →
    length finished = s → (s + length items ≤ B)%nat →
    ∃ st', for_each (baseline_round C)
             (imap (λ i a, (Z.of_nat (s + i), a)) items) st = Ok st'
           ∧ baseline_relations st'
             = map cooccurrence_pairs (finished ++ items.*2)
               ++ replicate (B - s - length items) [].
Proof.
  induction items as [|[sent evs] items IH]; intros s st finished Hst Hlen Hle.
  - exists st. split; [done|]. simpl. by rewrite app_nil_r, Nat.sub_0_r.
  - simpl in Hle.
    destruct (baseline_round_spec st s B sent evs finished) as (st1 & Hr & Hst1);
      [done|done|lia|].
    destruct (IH (S s) st1 (finished ++ [evs])) as (st2 & Hloop & Hst2);
      [done|rewrite length_app; simpl; lia|lia|].
    exists st2. split.
    + rewrite imap_cons. cbn [for_each]. rewrite Nat.add_0_r, Hr. cbn [bind].
      rewrite <- Hloop. f_equal. apply imap_ext. intros i x _. simpl.
      do 2 f_equal. lia.
    + rewrite Hst2. simpl. rewrite <- app_assoc. simpl.
      do 2 f_equal. lia.
Qed.

Lemma baseline_spec (sentences : list pyobj) (pe : list (list Eventuality)) :
  sentences ≠ [] →
  ∃ b, baseline C (len sentences) sentences pe = Ok b
       ∧ baseline_relations b
         = map cooccurrence_pairs (zip sentences pe).*2
           ++ replicate (Z.to_nat (2 * len sentences - 1)
                         - length (zip sentences pe)) [].
Proof.
  intros Hne. unfold baseline, enumerate.
  set (B := Z.to_nat (2 * len sentences - 1)).
  destruct (baseline_loop_spec B (zip sentences pe) 0
              (mkBaseline [] (replicate B []) None) [])
    as (b & Hb & Hrel).
  - simpl. by rewrite Nat.sub_0_r.
  - done.
  - rewrite length_zip. unfold B, len. destruct sentences; [done|].
    cbn [length]. lia.
  - exists b. split; [exact Hb|]. rewrite Hrel. simpl. by rewrite Nat.sub_0_r.
Qed.

(** C5 (amended). In [extract_relations_from_parsed_result], the first
    loop gives the bucket of every sentence that has a list of [k]
    eventualities exactly the [k * (k - 1) / 2] relations
    [Relation(e1.eid, e2.eid, ["Co_Occurrence"])], one for each pair with [e1]
    before [e2], each with the single sense [Co_Occurrence] at weight 1.0.
    The loop runs before the connectives are looked for and does not
    depend on them; without connectives these buckets are the result. *)
Theorem baseline_cooccurrence_complete
  (sentences : list pyobj) (pe : list (list Eventuality)) (i : nat) sent evs :
  sentences !! i = Some sent → pe !! i = Some evs →
  ∃ b, baseline C (len sentences) sentences pe = Ok b
       ∧ baseline_relations b !! i = Some (cooccurrence_pairs evs)
       ∧ length (cooccurrence_pairs evs)
         = (length evs * (length evs - 1) / 2)%nat
       ∧ (∀ r, r ∈ cooccurrence_pairs evs
               ↔ ∃ (a b : nat) e1 e2,
                   (a < b)%nat ∧ evs !! a = Some e1 ∧ evs !! b = Some e2
                   ∧ r = cooccurrence e1 e2)
       ∧ (∀ e1 e2,
             heid (cooccurrence e1 e2) = eid e1
             ∧ teid (cooccurrence e1 e2) = eid e2
             ∧ rid (cooccurrence e1 e2) = generate_rid (eid e1) (eid e2)
             ∧ relations (cooccurrence e1 e2) = {[ "Co_Occurrence" := 1%float ]})
       ∧ (∀ cache,
             sorted_connectives C (filtered_parsed_result b) cache = Ok [] →
             extract_relations_from_parsed_result C (PList sentences) pe
               "Relation" true cache
             = Ok (OutRelBuckets (baseline_relations b))).
Proof.
  intros Hs He.
  assert (Hne : sentences ≠ []) by (intros ->; done).
  destruct (baseline_spec sentences pe Hne) as (b & Hb & Hrel).
  exists b. split; [exact Hb|]. split; [|split; [|split; [|split]]].
  - rewrite Hrel. apply lookup_app_l_Some.
    rewrite list_lookup_fmap, list_lookup_fmap.
    assert (Hz : zip sentences pe !! i = Some (sent, evs)).
    { apply lookup_zip_with_Some. eauto. }
    by rewrite Hz.
  - apply cooccurrence_pairs_length.
  - apply cooccurrence_pairs_elem_of.
  - apply cooccurrence_fields.
  - intros cache Hconn.
    unfold extract_relations_from_parsed_result. cbn [unsupported String.eqb].
    simpl py_len. unfold mbind, result_bind. cbn [bind].
    assert ((len sentences =? 0) = false) as ->.
    { apply Z.eqb_neq. unfold len. destruct sentences; [done|simpl; lia]. }
    unfold relation_buckets, mbind, result_bind. simpl py_iter. cbn [bind].
    rewrite Hb. cbn [bind]. rewrite Hconn. done.
Qed.

End Baseline.

Lemma baseline_cooccurrence_complete_witness :
  [five_tokens] !! 0%nat = Some five_tokens
  ∧ [[eventuality_at "a" [0; 1]; eventuality_at "c" [3; 4]]] !! 0%nat
    = Some [eventuality_at "a" [0; 1]; eventuality_at "c" [3; 4]]
  ∧ ∃ b, baseline (scripted [] (λ _, [])) (len [five_tokens]) [five_tokens]
           [[eventuality_at "a" [0; 1]; eventuality_at "c" [3; 4]]] = Ok b
         ∧ baseline_relations b !! 0%nat
           = Some (cooccurrence_pairs
                     [eventuality_at "a" [0; 1]; eventuality_at "c" [3; 4]]).
Proof.
  split; [reflexivity|]. split; [reflexivity|].
  destruct (baseline_cooccurrence_complete (scripted [] (λ _, []))
              [five_tokens]
              [[eventuality_at "a" [0; 1]; eventuality_at "c" [3; 4]]]
              0 five_tokens
              [eventuality_at "a" [0; 1]; eventuality_at "c" [3; 4]]
              eq_refl eq_refl) as (b & Hb & Hi & _).
  exists b. split; [exact Hb|exact Hi].
Defined.


(* --------------------------------------------------------------------- *)
(** ** Span projection *)
(* --------------------------------------------------------------------- *)

Lemma ascending_NoDup sp : ascending sp → NoDup sp.
Proof.
  intros Hasc. apply NoDup_alt. intros i j x Hi Hj.
  destruct (Nat.lt_trichotomy i j) as [H|[H|H]]; [|done|].
  - pose proof (Hasc i j x x H Hi Hj). lia.
  - pose proof (Hasc j i x x H Hj Hi). lia.
Qed.

Lemma ascending_le sp (i j : nat) x y :
  ascending sp → (i ≤ j)%nat → sp !! i = Some x → sp !! j = Some y → x ≤ y.
Proof.
  intros Hasc Hij Hi Hj. destruct (decide (i = j)) as [->|Hne].
  - rewrite Hi in Hj. injection Hj as ->. lia.
  - pose proof (Hasc i j x y ltac:(lia) Hi Hj). lia.
Qed.

Lemma position_Some sp x a :
  NoDup sp → position sp x = Some a ↔ 0 ≤ a ∧ sp !! Z.to_nat a = Some x.
Proof.
  intros Hnd. unfold position. split.
  - destruct (list_find (λ y, y = x) sp) as [[k y]|] eqn:E; [|done].
    apply list_find_Some in E as (Hk & -> & _).
    simpl. intros [= <-]. rewrite Nat2Z.id. split; [lia|done].
  - intros [Ha Hx].
    destruct (list_find (λ y, y = x) sp) as [[k y]|] eqn:E.
    + apply list_find_Some in E as (Hk & -> & _). simpl. f_equal.
      pose proof (NoDup_lookup _ _ _ _ Hnd Hk Hx). lia.
    + apply list_find_None in E.
      rewrite Forall_forall in E. exfalso. apply (E x); [|done].
      apply list_elem_of_lookup. eauto.
Qed.

Lemma position_None sp x : position sp x = None ↔ x ∉ sp.
Proof.
  unfold position. rewrite fmap_None, list_find_None, Forall_forall.
  split.
  - intros H Hx. by apply (H x).
  - intros H y Hy ->. done.
Qed.

Lemma position_index sp x (a : nat) :
  NoDup sp → sp !! a = Some x → position sp x = Some (Z.of_nat a).
Proof.
  intros Hnd Ha. apply position_Some; [done|].
  rewrite Nat2Z.id. split; [lia|done].
Qed.

(** The dictionary [idx_mapping] holds the position of every index. *)
Lemma idx_mapping_from sp x :
  ∀ (s : nat) (m0 : gmap Z Z),
    NoDup sp →
    foldl (λ m ij, <[ij.2 := ij.1]> m) m0
      (imap (λ i a, (Z.of_nat (s + i), a)) sp) !! x
    = match list_find (λ y, y = x) sp with
      | Some p => Some (Z.of_nat (s + p.1))
      | None => m0 !! x
      end.
Proof.
  induction sp as [|y sp IH]; intros s m0 Hnd; [done|].
  apply NoDup_cons in Hnd as [Hy Hnd].
  rewrite imap_cons. cbn [foldl].
  assert (Hshift :
    imap ((λ i a, (Z.of_nat (s + i), a)) ∘ S) sp
    = imap (λ i a, (Z.of_nat (S s + i), a)) sp).
  { apply imap_ext. intros i z _. simpl. do 2 f_equal. lia. }
  rewrite Hshift, (IH (S s) _ Hnd). cbn [list_find].
  destruct (decide (y = x)) as [->|Hne].
  - assert (list_find (λ y, y = x) sp = None) as ->.
    { apply list_find_None, Forall_forall. intros z Hz ->. done. }
    simpl. by rewrite lookup_insert_eq.
  - destruct (list_find (λ y, y = x) sp) as [[k z]|]; simpl.
    + do 2 f_equal. lia.
    + by rewrite lookup_insert_ne.
Qed.

Lemma idx_mapping_position sp x :
  NoDup sp → idx_mapping sp !! x = position sp x.
Proof.
  intros Hnd. unfold idx_mapping, enumerate, position.
  rewrite (idx_mapping_from sp x 0 ∅ Hnd).
  destruct (list_find (λ y, y = x) sp) as [[k z]|]; simpl; [done|].
  apply lookup_empty.
Qed.

Lemma project_dependencies_spec deps sp :
  NoDup sp →
  project_dependencies deps sp = Ok (omap (keep_dependency sp) deps).
Proof.
  intros Hnd. unfold project_dependencies.
  induction deps as [|[[g l] d] deps IH]; [done|].
  rewrite filter_cons. cbn [omap list_omap]. unfold keep_dependency at 1.
  cbn [fst snd].
  destruct (decide (g ∈ (list_to_set sp : gset Z) ∧ d ∈ (list_to_set sp : gset Z)))
    as [[Hg Hd]|Hno].
  - apply elem_of_list_to_set in Hg, Hd.
    destruct (position sp g) as [a|] eqn:Ea;
      [|by apply position_None in Ea].
    destruct (position sp d) as [b|] eqn:Eb;
      [|by apply position_None in Eb].
    cbn [map_each]. unfold mbind, result_bind, dict_getitem. cbn [fst snd].
    rewrite !idx_mapping_position, Ea, Eb by done. cbn [bind].
    unfold mbind, result_bind, dict_getitem in IH. rewrite IH. done.
  - assert (Hnone : position sp g = None ∨ position sp d = None).
    { destruct (decide (g ∈ sp)) as [Hg|Hg]; [|left; by apply position_None].
      destruct (decide (d ∈ sp)) as [Hd|Hd]; [|right; by apply position_None].
      exfalso. apply Hno. by rewrite !elem_of_list_to_set. }
    rewrite IH.
    destruct Hnone as [->|Hd]; [done|].
    rewrite Hd. by destruct (position sp g).
Qed.

Lemma gather_pick {A} (xs : list A) sp :
  Forall (λ i, 0 ≤ i < len xs) sp →
  gather xs sp = Ok (pick xs sp)
  ∧ Forall2 (λ i t, xs !! Z.to_nat i = Some t) sp (pick xs sp).
Proof.
  unfold gather, pick. induction 1 as [|i sp Hi HS [IH1 IH2]]; [by split|].
  destruct (lookup_lt_is_Some_2 xs (Z.to_nat i)) as [t Ht];
    [unfold len in Hi; lia|].
  cbn [map_each omap list_omap]. rewrite Ht.
  replace (getitem xs i) with (Ok t).
  - cbn [bind]. rewrite IH1. cbn [bind]. split; [done|]. by constructor.
  - rewrite <- (getitem_nat _ _ _ Ht). f_equal. lia.
Qed.

(** [bisect_left] on an increasing list: the loop keeps every element
    before [lo] below [x] and every element from [hi] on at least [x]. *)
Lemma bisect_loop_spec a x :
  ascending a →
  ∀ (fuel lo hi : nat),
    (lo ≤ hi ≤ length a)%nat → (hi - lo ≤ fuel)%nat →
    (∀ (i : nat) y, (i < lo)%nat → a !! i = Some y → y < x) →
    (∀ (i : nat) y, (hi ≤ i)%nat → a !! i = Some y → x ≤ y) →
    let r := bisect_loop fuel a x lo hi in
    (lo ≤ r ≤ hi)%nat
    ∧ (∀ (i : nat) y, (i < r)%nat → a !! i = Some y → y < x)
    ∧ (∀ (i : nat) y, (r ≤ i)%nat → a !! i = Some y → x ≤ y).
Proof.
  intros Hasc. induction fuel as [|fuel IH]; intros lo hi Hb Hf Hlo Hhi.
  - simpl. assert (lo = hi) as -> by lia. repeat split; [lia..|done|done].
  - cbn [bisect_loop].
    destruct (lo <? hi)%nat eqn:Hlt.
    + apply Nat.ltb_lt in Hlt.
      set (mid := ((lo + hi) / 2)%nat).
      assert (Hmid : (lo ≤ mid < hi)%nat).
      { pose proof (Nat.div_mod_eq (lo + hi) 2) as Hdiv.
        pose proof (Nat.mod_upper_bound (lo + hi) 2 ltac:(lia)) as Hmod.
        fold mid in Hdiv. lia. }
      destruct (lookup_lt_is_Some_2 a mid) as [am Ham]; [lia|].
      fold mid. rewrite Ham.
      destruct (am <? x) eqn:Hcmp.
      * apply Z.ltb_lt in Hcmp.
        destruct (IH (S mid) hi) as (Hr & Hbelow & Habove); [lia|lia| |done|].
        { intros i y Hi Hy.
          pose proof (ascending_le a i mid y am Hasc ltac:(lia) Hy Ham). lia. }
        repeat split; [lia|lia|done|done].
      * apply Z.ltb_ge in Hcmp.
        destruct (IH lo mid) as (Hr & Hbelow & Habove); [lia|lia|done| |].
        { intros i y Hi Hy.
          pose proof (ascending_le a mid i am y Hasc ltac:(lia) Ham Hy). lia. }
        repeat split; [lia|lia|done|done].
    + apply Nat.ltb_ge in Hlt. assert (lo = hi) as -> by lia.
      repeat split; [lia..|done|done].
Qed.

Lemma bisect_left_spec a x :
  ascending a →
  ∃ r : nat,
    bisect_left a x = Z.of_nat r ∧ (r ≤ length a)%nat
    ∧ (∀ (i : nat) y, (i < r)%nat → a !! i = Some y → y < x)
    ∧ (∀ (i : nat) y, (r ≤ i)%nat → a !! i = Some y → x ≤ y).
Proof.
  intros Hasc. unfold bisect_left.
  destruct (bisect_loop_spec a x Hasc (S (length a)) 0 (length a))
    as (Hr & Hbelow & Habove); [lia|lia|intros; lia| |].
  { intros i y Hi Hy. apply lookup_lt_Some in Hy. lia. }
  eexists. split; [reflexivity|]. repeat split; [lia|done|done].
Qed.

(** On an increasing span the binary search finds exactly the indices
    that occur in the span, at their position. *)
Lemma bisect_left_position sp x :
  ascending sp →
  match position sp x with
  | Some a => bisect_left sp x = a ∧ found_at sp a x = true
  | None => found_at sp (bisect_left sp x) x = false
  end.
Proof.
  intros Hasc. pose proof (ascending_NoDup sp Hasc) as Hnd.
  destruct (bisect_left_spec sp x Hasc) as (r & Hr & Hlen & Hbelow & Habove).
  destruct (position sp x) as [a|] eqn:Ea.
  - apply position_Some in Ea as [Ha Hx]; [|done].
    assert (r = Z.to_nat a) as ->.
    { destruct (Nat.lt_trichotomy r (Z.to_nat a)) as [H|[H|H]]; [|done|].
      - destruct (lookup_lt_is_Some_2 sp r) as [y Hy];
          [apply lookup_lt_Some in Hx; lia|].
        pose proof (Habove r y ltac:(lia) Hy).
        pose proof (Hasc r (Z.to_nat a) y x H Hy Hx). lia.
      - pose proof (Hbelow (Z.to_nat a) x H Hx). lia. }
    assert (bisect_left sp x = a) as Hb by lia.
    split; [done|]. unfold found_at.
    apply lookup_lt_Some in Hx as Hlt.
    apply andb_true_iff. split.
    + apply Z.ltb_lt. unfold len. lia.
    + by apply bool_decide_eq_true_2.
  - apply position_None in Ea. unfold found_at.
    apply andb_false_iff. right. apply bool_decide_eq_false_2.
    intros H. apply Ea. apply list_elem_of_lookup. eauto.
Qed.

Lemma project_mention_spec sp m :
  ascending sp → project_mention sp m = keep_mention sp m.
Proof.
  intros Hasc. unfold project_mention, keep_mention.
  pose proof (bisect_left_position sp (m_start m) Hasc) as Hs.
  pose proof (bisect_left_position sp (m_end m - 1) Hasc) as He.
  destruct (position sp (m_start m)) as [a|]; cbn.
  - destruct Hs as [-> ->]. cbn.
    destruct (position sp (m_end m - 1)) as [b|]; cbn.
    + destruct He as [-> ->]. done.
    + by rewrite He.
  - by rewrite Hs.
Qed.

Lemma project_mentions_spec sp ms :
  ascending sp → project_mentions ms sp = omap (keep_mention sp) ms.
Proof.
  intros Hasc. unfold project_mentions.
  induction ms as [|m ms IH]; [done|].
  cbn [omap list_omap]. by rewrite project_mention_spec, IH.
Qed.

Lemma keep_dependency_elem_of sp (deps : list (Z * string * Z)) t :
  NoDup sp →
  t ∈ omap (keep_dependency sp) deps
  ↔ ∃ g l d (a b : nat),
      (g, l, d) ∈ deps ∧ sp !! a = Some g ∧ sp !! b = Some d
      ∧ t = (Z.of_nat a, l, Z.of_nat b).
Proof.
  intros Hnd. rewrite list_elem_of_omap. split.
  - intros ([[g l] d] & Hin & Hkeep). unfold keep_dependency in Hkeep.
    cbn [fst snd] in Hkeep.
    destruct (position sp g) as [a|] eqn:Ea; [|done].
    destruct (position sp d) as [b|] eqn:Eb; [|done].
    cbn in Hkeep. injection Hkeep as <-.
    apply position_Some in Ea as [Ha Hg]; [|done].
    apply position_Some in Eb as [Hb Hd]; [|done].
    exists g, l, d, (Z.to_nat a), (Z.to_nat b).
    repeat split; [done..|]. by rewrite !Z2Nat.id.
  - intros (g & l & d & a & b & Hin & Hg & Hd & ->).
    exists (g, l, d). split; [done|]. unfold keep_dependency. cbn [fst snd].
    by rewrite (position_index _ _ _ Hnd Hg), (position_index _ _ _ Hnd Hd).
Qed.

Lemma keep_mention_elem_of sp (ms : list Mention) m' :
  NoDup sp →
  m' ∈ omap (keep_mention sp) ms
  ↔ ∃ m (a b : nat),
      m ∈ ms ∧ sp !! a = Some (m_start m) ∧ sp !! b = Some (m_end m - 1)
      ∧ m' = mkMention (Z.of_nat a) (Z.of_nat b + 1) (m_type m).
Proof.
  intros Hnd. rewrite list_elem_of_omap. split.
  - intros (m & Hin & Hkeep). unfold keep_mention in Hkeep.
    destruct (position sp (m_start m)) as [a|] eqn:Ea; [|done].
    destruct (position sp (m_end m - 1)) as [b|] eqn:Eb; [|done].
    cbn in Hkeep. injection Hkeep as <-.
    apply position_Some in Ea as [Ha Hs]; [|done].
    apply position_Some in Eb as [Hb He]; [|done].
    exists m, (Z.to_nat a), (Z.to_nat b).
    repeat split; [done..|]. by rewrite !Z2Nat.id.
  - intros (m & a & b & Hin & Hs & He & ->).
    exists m. split; [done|]. unfold keep_mention.
    by rewrite (position_index _ _ _ Hnd Hs), (position_index _ _ _ Hnd He).
Qed.

(** C9. On an increasing span of token positions, the projection of a
    sentence is the sub-annotation of the contract: tokens, tags, lemmas
    and named-entity labels are those at the indices of the span, in its
    order; a dependency triple is in the result exactly when it comes
    from a triple with both endpoints in the span, re-indexed to their
    positions; a mention is in the result exactly when it comes from a
    mention whose start and last index are in the span, with the start
    rewritten to the position of the start and the end to the position of
    the last index plus one. *)
Theorem project_argument_spec (sent : Sentence) (sp : list Z) :
  ascending sp → span_in_range sent sp →
  project_argument (PDict sent) sp = Ok (projection sent sp)
  ∧ Forall2 (λ i t, tokens sent !! Z.to_nat i = Some t) sp
      (tokens (projection sent sp))
  ∧ Forall2 (λ i t, pos_tags sent !! Z.to_nat i = Some t) sp
      (pos_tags (projection sent sp))
  ∧ Forall2 (λ i t, lemmas sent !! Z.to_nat i = Some t) sp
      (lemmas (projection sent sp))
  ∧ match ners sent with
    | Some ns =>
        ∃ ns', ners (projection sent sp) = Some ns'
               ∧ Forall2 (λ i t, ns !! Z.to_nat i = Some t) sp ns'
    | None => ners (projection sent sp) = None
    end
  ∧ (∀ t, t ∈ dependencies (projection sent sp)
          ↔ ∃ g l d (a b : nat),
              (g, l, d) ∈ dependencies sent
              ∧ sp !! a = Some g ∧ sp !! b = Some d
              ∧ t = (Z.of_nat a, l, Z.of_nat b))
  ∧ match mentions sent with
    | Some ms =>
        ∃ ms', mentions (projection sent sp) = Some ms'
               ∧ ms' = omap (keep_mention sp) ms
               ∧ ∀ m', m' ∈ ms'
                       ↔ ∃ m (a b : nat),
                           m ∈ ms ∧ sp !! a = Some (m_start m)
                           ∧ sp !! b = Some (m_end m - 1)
                           ∧ m' = mkMention (Z.of_nat a) (Z.of_nat b + 1)
                                    (m_type m)
    | None => mentions (projection sent sp) = None
    end.
Proof.
  intros Hasc (Hrange & Htags & Hlemmas & Hners).
  pose proof (ascending_NoDup sp Hasc) as Hnd.
  destruct (gather_pick (tokens sent) sp Hrange) as [Gt Ft].
  destruct (gather_pick (pos_tags sent) sp) as [Gp Fp].
  { unfold len in *. by rewrite Htags. }
  destruct (gather_pick (lemmas sent) sp) as [Gl Fl].
  { unfold len in *. by rewrite Hlemmas. }
  split; [|split; [done|split; [done|split; [done|split; [|split]]]]].
  - unfold project_argument, projection, mbind, result_bind. cbn [as_dict bind].
    rewrite project_dependencies_spec by done. cbn [bind].
    rewrite Gt, Gp, Gl. cbn [bind].
    destruct (ners sent) as [ns|] eqn:En.
    + destruct (gather_pick ns sp) as [Gn _].
      { unfold len in *. by rewrite (Hners ns eq_refl). }
      rewrite Gn. cbn [bind option_map].
      destruct (mentions sent) as [ms|]; cbn [option_map]; [|done].
      by rewrite project_mentions_spec.
    + cbn [bind option_map].
      destruct (mentions sent) as [ms|]; cbn [option_map]; [|done].
      by rewrite project_mentions_spec.
  - cbn [projection ners]. destruct (ners sent) as [ns|] eqn:En; [|done].
    destruct (gather_pick ns sp) as [_ Fn].
    { unfold len in *. by rewrite (Hners ns eq_refl). }
    eexists. split; [reflexivity|done].
  - intros t. cbn [projection dependencies].
    by apply keep_dependency_elem_of.
  - cbn [projection mentions]. destruct (mentions sent) as [ms|]; [|done].
    eexists. split; [reflexivity|]. split; [done|].
    intros m'. by apply keep_mention_elem_of.
Qed.

Lemma ascendingb_correct sp : ascendingb sp = true → ascending sp.
Proof.
  induction sp as [|x sp IH]; intros Hb i j a b Hij Hi Hj; [done|].
  destruct sp as [|y sp].
  - destruct j as [|j]; [lia|]. done.
  - cbn [ascendingb] in Hb. apply andb_true_iff in Hb as [Hxy Hrest].
    apply Z.ltb_lt in Hxy. specialize (IH Hrest).
    destruct j as [|j]; [lia|]. destruct i as [|i].
    + injection Hi as <-. cbn in Hj.
      pose proof (ascending_le (y :: sp) 0 j y b IH ltac:(lia) eq_refl Hj). lia.
    + apply (IH i j a b); [lia|done|done].
Qed.

Lemma project_argument_spec_witness :
  ascending [3; 4] ∧ span_in_range annotated_sentence [3; 4]
  ∧ project_argument (PDict annotated_sentence) [3; 4]
    = Ok (mkSentence "" [(1, "nsubj", 0)] ["it"; "rained"] ["PRP"; "VBD"]
            ["it"; "rain"] (Some ["O"; "O"]) (Some [mkMention 0 2 "MISC"]) None).
Proof.
  assert (Ha : ascending [3; 4]) by (apply ascendingb_correct; reflexivity).
  assert (Hr : span_in_range annotated_sentence [3; 4]).
  { split; [|split; [reflexivity|split; [reflexivity|]]].
    - repeat constructor; vm_compute; congruence.
    - intros ns [= <-]. reflexivity. }
  split; [exact Ha|]. split; [exact Hr|].
  exact (proj1 (project_argument_spec annotated_sentence [3; 4] Ha Hr)).
Defined.

(* --------------------------------------------------------------------- *)
(** ** Relation identity *)
(* --------------------------------------------------------------------- *)

Lemma append_same_length_inj (a b x y : string) :
  String.length a = String.length b → a +:+ x = b +:+ y → a = b.
Proof.
  revert b. induction a as [|c a IH]; intros [|d b] Hlen Heq; try done.
  simpl in *. injection Heq as -> Heq. f_equal. apply IH; [lia|done].
Qed.

Lemma rid_key_directional (A B : string) :
  String.length A = String.length B → A ≠ B → rid_key A B ≠ rid_key B A.
Proof.
  intros Hlen Hne Heq. apply Hne.
  by apply (append_same_length_inj A B ("$" +:+ B) ("$" +:+ A)).
Qed.

Lemma update_relations_identity (r : Relation) (x : senses_arg) :
  heid (update_relations r x) = heid r
  ∧ teid (update_relations r x) = teid r
  ∧ rid (update_relations r x) = rid r.
Proof.
  destruct x as [|d|l|x'|]; simpl; try done.
  by destruct (bool_decide (heid r = heid x') && bool_decide (teid r = teid x')).
Qed.







Lemma hex_digit_plain x : Ascii.eqb (Sha1.hex_digit x) "$" = false.
Proof.
  unfold Sha1.hex_digit. generalize (N.to_nat x). intros n.
  do 16 (destruct n as [|n]; [reflexivity|]). reflexivity.
Qed.

Lemma hex_word_plain n x :
  forallb (λ c, negb (Ascii.eqb c "$")) (Sha1.hex_word n x) = true.
Proof.
  induction n as [|n IH]; [done|]. cbn [Sha1.hex_word forallb].
  by rewrite hex_digit_plain, IH.
Qed.

(** A digest holds no separator: digests are identities of the kind the
    next theorem is about. *)
Lemma hexdigest_separator_free (s : string) :
  separator_free (Sha1.hexdigest s) = true.
Proof.
  unfold separator_free, Sha1.hexdigest. cbn zeta.
  rewrite list_ascii_of_string_of_list_ascii, !forallb_app, !hex_word_plain.
  done.
Qed.




(* --------------------------------------------------------------------- *)
(** ** Adjacency in the combined entry point *)
(* --------------------------------------------------------------------- *)

Lemma relation_list_idx_None n i j :
  relation_list_idx n i j = None ↔ i ≠ j ∧ i + 1 ≠ j.
Proof.
  unfold relation_list_idx.
  destruct (i =? j) eqn:E1; [apply Z.eqb_eq in E1; split; [done|lia]|].
  destruct (i + 1 =? j) eqn:E2; [apply Z.eqb_eq in E2; split; [done|lia]|].
  apply Z.eqb_neq in E1, E2. done.
Qed.

(** In [extract_from_parsed_result] a candidate whose argument sentences
    are neither the same nor consecutive leaves every bucket as it was. *)
Lemma extraction_round_discards_distant (C : Collaborators) n parsed_result
  para_eventualities para_relations connective a1 a2 st' :
  arg1 connective = Some a1 → arg2 connective = Some a2 →
  arg_sent_idx a1 ≠ arg_sent_idx a2 →
  arg_sent_idx a1 + 1 ≠ arg_sent_idx a2 →
  extraction_round C n parsed_result (para_eventualities, para_relations)
    connective = Ok st' →
  st'.2 = para_relations.
Proof.
  intros H1 H2 Hne Hadj Hround.
  assert (Hidx : relation_list_idx n (arg_sent_idx a1) (arg_sent_idx a2) = None)
    by by apply relation_list_idx_None.
  unfold extraction_round in Hround. rewrite H1, H2, Hidx in Hround.
  destruct (truthy_list (indices connective)); [|by injection Hround as <-].
  unfold mbind, result_bind in Hround.
  repeat match type of Hround with
         | bind ?m _ = Ok _ =>
             destruct m as [[]|] eqn:?; cbn [bind] in Hround; [|discriminate]
         | bind ?m _ = Ok _ =>
             destruct m eqn:?; cbn [bind] in Hround; [|discriminate]
         end.
  by injection Hround as <-.
Qed.

(* ===================================================================== *)
(** * Further properties *)
(* ===================================================================== *)

(* --------------------------------------------------------------------- *)
(** ** [relation.py]: the other arguments of [update_relations] *)
(* --------------------------------------------------------------------- *)

(** X1. Merging a dictionary of weights adds it to the receiver label by
    label (sum on both sides, the one weight otherwise); the labels
    afterwards are those of the receiver and of the dictionary; head, tail
    and [rid] stay.  [None] and an object of any other type change
    nothing. *)
Theorem update_relations_dict (self : Relation) (d : gmap string float) :
  (∀ r, relations (update_relations self (ArgDict d)) !! r
        = merge_weight (relations self !! r) (d !! r))
  ∧ dom (relations (update_relations self (ArgDict d)))
    = dom (relations self) ∪ dom d
  ∧ heid (update_relations self (ArgDict d)) = heid self
  ∧ teid (update_relations self (ArgDict d)) = teid self
  ∧ rid (update_relations self (ArgDict d)) = rid self
  ∧ update_relations self ArgNone = self
  ∧ update_relations self ArgOther = self.
Proof.
  assert (Hl : ∀ r, relations (update_relations self (ArgDict d)) !! r
                    = merge_weight (relations self !! r) (d !! r)).
  { intros r. simpl. apply add_items_map_lookup. }
  split; [exact Hl|]. split; [|done].
  apply set_eq. intros r. rewrite elem_of_union, !elem_of_dom, Hl.
  destruct (relations self !! r), (d !! r); simpl;
    (split; [intros [? ?]; try discriminate; eauto
            |intros [[? ?]|[? ?]]; try discriminate; eauto]).
Qed.

Lemma count_label_Permutation r (l1 l2 : list string) :
  l1 ≡ₚ l2 → count_label r l1 = count_label r l2.
Proof. intros H. unfold count_label. by rewrite H. Qed.

(** X2. Merging a list of labels depends only on how often each label
    occurs in it, not on the order of the list. *)
Theorem update_relations_list_order (self : Relation) (l1 l2 : list string) :
  l1 ≡ₚ l2 →
  update_relations self (ArgList l1) = update_relations self (ArgList l2).
Proof.
  intros H. simpl. unfold set_relations. f_equal.
  apply map_eq. intros r.
  by rewrite !add_labels_lookup, (count_label_Permutation r l1 l2 H).
Qed.

Lemma update_relations_list_order_witness :
  ["Reason"; "Result"] ≡ₚ ["Result"; "Reason"]
  ∧ update_relations relation_ab (ArgList ["Reason"; "Result"])
    = update_relations relation_ab (ArgList ["Result"; "Reason"]).
Proof.
  assert (H : ["Reason"; "Result"] ≡ₚ ["Result"; "Reason"]) by apply perm_swap.
  split; [exact H|].
  exact (update_relations_list_order relation_ab _ _ H).
Defined.

(** X3. The [rid] of a relation made by the constructor is the digest of
    its own head and tail, with [None] and the empty string both read as
    the empty identity, and [update_relations] keeps it so, whatever it is
    given. *)
Theorem rid_stays_consistent :
  (∀ h t x, rid_consistent (Relation_init h t x))
  ∧ (∀ r x, rid_consistent r → rid_consistent (update_relations r x))
  ∧ (∀ t x, Relation_init None t x = Relation_init (Some "") t x)
  ∧ (∀ h x, Relation_init h None x = Relation_init h (Some "") x).
Proof.
  assert (Hupd : ∀ r x, rid_consistent r → rid_consistent (update_relations r x)).
  { intros r x Hr. unfold rid_consistent.
    destruct (update_relations_identity r x) as (Hh & Ht & Hr').
    rewrite Hh, Ht, Hr'. exact Hr. }
  split; [|split; [exact Hupd|split; reflexivity]].
  intros h t x. unfold Relation_init. apply Hupd. reflexivity.
Qed.

(** X4. [from_dict] on the dictionary [to_dict] returns gives the
    attributes of the relation the dictionary came from, whatever the
    receiver held.  A dictionary that lacks one of the four attribute names
    raises [KeyError], and only such a dictionary does.  The [rid] is the
    one stored in the dictionary: it is not computed again from the head
    and the tail. *)
Theorem from_dict_to_dict (self : Relation) :
  (∀ r, from_dict self (to_dict r) = Ok (to_dict r))
  ∧ (∀ d, from_dict self d = Raise KeyError
          ↔ ∃ name, name ∈ ["heid"; "teid"; "rid"; "relations"]
                    ∧ assoc name d = None)
  ∧ (∀ d st, from_dict self d = Ok st →
             assoc "rid" st = assoc "rid" d
             ∧ assoc "heid" st = assoc "heid" d
             ∧ assoc "teid" st = assoc "teid" d).
Proof.
  split; [reflexivity|]. split.
  - intros d. unfold from_dict, attr_getitem. cbn.
    destruct (assoc "heid" d) eqn:E1; cbn.
    2:{ split; [|done]. intros _. exists "heid". split; [set_solver|done]. }
    destruct (assoc "teid" d) eqn:E2; cbn.
    2:{ split; [|done]. intros _. exists "teid". split; [set_solver|done]. }
    destruct (assoc "rid" d) eqn:E3; cbn.
    2:{ split; [|done]. intros _. exists "rid". split; [set_solver|done]. }
    destruct (assoc "relations" d) eqn:E4; cbn.
    2:{ split; [|done]. intros _. exists "relations". split; [set_solver|done]. }
    split; [done|]. intros (name & Hin & Hnone).
    repeat (apply elem_of_cons in Hin as [->|Hin]; [congruence|]).
    by apply elem_of_nil in Hin.
  - intros d st. unfold from_dict, attr_getitem. cbn.
    destruct (assoc "heid" d) eqn:E1; cbn; [|done].
    destruct (assoc "teid" d) eqn:E2; cbn; [|done].
    destruct (assoc "rid" d) eqn:E3; cbn; [|done].
    destruct (assoc "relations" d) eqn:E4; cbn; [|done].
    by intros [= <-].
Qed.

(* --------------------------------------------------------------------- *)
(** ** Projection on arbitrary spans *)
(* --------------------------------------------------------------------- *)

Lemma idx_mapping_fold (indices : list Z) x :
  ∀ (s : nat) (m0 : gmap Z Z),
    let m := foldl (λ m ij, <[ij.2 := ij.1]> m) m0
               (imap (λ i a, (Z.of_nat (s + i), a)) indices) in
    (∀ a, m !! x = Some a →
          m0 !! x = Some a
          ∨ ∃ k : nat, indices !! k = Some x ∧ a = Z.of_nat (s + k))
    ∧ (x ∈ indices ∨ is_Some (m0 !! x) → is_Some (m !! x)).
Proof.
  induction indices as [|y indices IH]; intros s m0; cbn zeta.
  - split; [by left|]. intros [H|H]; [by apply elem_of_nil in H|done].
  - rewrite imap_cons. cbn [foldl].
    assert (Hshift :
      imap ((λ i a, (Z.of_nat (s + i), a)) ∘ S) indices
      = imap (λ i a, (Z.of_nat (S s + i), a)) indices).
    { apply imap_ext. intros i z _. simpl. do 2 f_equal. lia. }
    rewrite Hshift.
    destruct (IH (S s) (<[y := Z.of_nat (s + 0)]> m0)) as [IH1 IH2].
    cbn [fst snd]. split.
    + intros a Ha. destruct (IH1 a Ha) as [H0|(k & Hk & ->)].
      * destruct (decide (y = x)) as [->|Hne].
        -- rewrite lookup_insert_eq in H0. injection H0 as <-.
           right. exists 0%nat. split; [done|]. done.
        -- rewrite lookup_insert_ne in H0 by done. by left.
      * right. exists (S k). split; [done|]. f_equal. lia.
    + intros H. apply IH2.
      destruct (decide (y = x)) as [->|Hne].
      * right. rewrite lookup_insert_eq. eauto.
      * destruct H as [H|H].
        -- apply elem_of_cons in H as [->|H]; [done|by left].
        -- right. by rewrite lookup_insert_ne.
Qed.

Lemma idx_mapping_sound (indices : list Z) x a :
  idx_mapping indices !! x = Some a →
  0 ≤ a ∧ indices !! Z.to_nat a = Some x.
Proof.
  intros H. unfold idx_mapping, enumerate in H.
  destruct (idx_mapping_fold indices x 0 ∅) as [H1 _].
  destruct (H1 a H) as [H0|(k & Hk & ->)]; [by rewrite lookup_empty in H0|].
  rewrite Nat2Z.id. split; [lia|done].
Qed.

Lemma idx_mapping_complete (indices : list Z) x :
  x ∈ indices → is_Some (idx_mapping indices !! x).
Proof.
  intros H. unfold idx_mapping, enumerate.
  destruct (idx_mapping_fold indices x 0 ∅) as [_ H2]. apply H2. by left.
Qed.

Lemma project_dependencies_reindex deps indices :
  project_dependencies deps indices
  = Ok (omap (reindex_dependency indices) deps).
Proof.
  unfold project_dependencies.
  induction deps as [|[[g l] d] deps IH]; [done|].
  rewrite filter_cons. cbn [omap list_omap]. unfold reindex_dependency at 1.
  cbn [fst snd].
  destruct (decide (g ∈ (list_to_set indices : gset Z)
                    ∧ d ∈ (list_to_set indices : gset Z))) as [[Hg Hd]|Hno].
  - apply elem_of_list_to_set in Hg, Hd.
    destruct (idx_mapping_complete indices g Hg) as [a Ea].
    destruct (idx_mapping_complete indices d Hd) as [b Eb].
    cbn [map_each]. unfold mbind, result_bind, dict_getitem. cbn [fst snd].
    rewrite Ea, Eb. cbn [bind].
    unfold mbind, result_bind, dict_getitem in IH. rewrite IH. done.
  - rewrite IH.
    destruct (idx_mapping indices !! g) as [a|] eqn:Ea; [|done].
    destruct (idx_mapping indices !! d) as [b|] eqn:Eb; [|done].
    exfalso. apply Hno. rewrite !elem_of_list_to_set.
    apply idx_mapping_sound in Ea as [_ Ea], Eb as [_ Eb].
    split; apply list_elem_of_lookup; eauto.
Qed.

Lemma omap_length_le {A B} (f : A → option B) (l : list A) :
  (length (omap f l) ≤ length l)%nat.
Proof.
  induction l as [|x l IH]; [done|]. cbn [omap list_omap].
  destruct (f x); simpl; lia.
Qed.

(** X5. The dependency projection never fails, whatever the span is
    (unsorted, with repeated indices, with indices outside the sentence):
    the membership test guards both dictionary lookups.  Every triple of
    the result leads back, through the span, to a triple of the sentence
    with the same label, and every triple of the sentence with both
    endpoints in the span is in the result. *)
Theorem project_dependencies_total (deps : list (Z * string * Z))
  (indices : list Z) :
  ∃ projected,
    project_dependencies deps indices = Ok projected
    ∧ (length projected ≤ length deps)%nat
    ∧ (∀ a l b, (a, l, b) ∈ projected →
                ∃ g d, 0 ≤ a ∧ 0 ≤ b
                       ∧ indices !! Z.to_nat a = Some g
                       ∧ indices !! Z.to_nat b = Some d
                       ∧ (g, l, d) ∈ deps)
    ∧ (∀ g l d, (g, l, d) ∈ deps → g ∈ indices → d ∈ indices →
                ∃ a b, (a, l, b) ∈ projected
                       ∧ indices !! Z.to_nat a = Some g
                       ∧ indices !! Z.to_nat b = Some d).
Proof.
  exists (omap (reindex_dependency indices) deps).
  split; [apply project_dependencies_reindex|]. split; [|split].
  - apply omap_length_le.
  - intros a l b ([[g l'] d] & Hin & Hre)%list_elem_of_omap.
    unfold reindex_dependency in Hre. cbn [fst snd] in Hre.
    destruct (idx_mapping indices !! g) as [a'|] eqn:Ea; [|done].
    destruct (idx_mapping indices !! d) as [b'|] eqn:Eb; [|done].
    cbn in Hre. injection Hre as <- <- <-.
    apply idx_mapping_sound in Ea as [Ha Ea], Eb as [Hb Eb].
    exists g, d. done.
  - intros g l d Hin Hg Hd.
    destruct (idx_mapping_complete indices g Hg) as [a Ea].
    destruct (idx_mapping_complete indices d Hd) as [b Eb].
    exists a, b. split.
    + apply list_elem_of_omap. exists (g, l, d). split; [done|].
      unfold reindex_dependency. cbn [fst snd]. by rewrite Ea, Eb.
    + apply idx_mapping_sound in Ea as [_ Ea], Eb as [_ Eb]. done.
Qed.

Lemma getitem_out_of_range {A} (l : list A) i :
  out_of_range (len l) i → getitem l i = Raise IndexError.
Proof.
  unfold out_of_range, getitem, len. intros H.
  destruct (i <? 0) eqn:E.
  - apply Z.ltb_lt in E. cbn zeta.
    destruct H as [H|H]; [lia|].
    by replace (i + Z.of_nat (length l) <? 0) with true
      by (symmetry; apply Z.ltb_lt; lia).
  - apply Z.ltb_ge in E. cbn zeta. rewrite (proj2 (Z.ltb_ge i 0) E).
    destruct H as [H|H]; [|lia].
    by rewrite lookup_ge_None_2 by lia.
Qed.

Lemma getitem_cases {A} (l : list A) i :
  getitem l i = Raise IndexError ∨ ∃ x, getitem l i = Ok x.
Proof.
  unfold getitem. cbn zeta.
  destruct ((if i <? 0 then i + len l else i) <? 0); [by left|].
  destruct (l !! Z.to_nat (if i <? 0 then i + len l else i)); eauto.
Qed.

Lemma gather_out_of_range {A} (xs : list A) indices :
  Exists (out_of_range (len xs)) indices → gather xs indices = Raise IndexError.
Proof.
  unfold gather. induction 1 as [i indices Hi|i indices _ IH]; cbn [map_each].
  - by rewrite getitem_out_of_range.
  - destruct (getitem_cases xs i) as [->|[x ->]]; [done|].
    cbn [bind]. by rewrite IH.
Qed.

(** X6. A span with an index at or beyond the length of the sentence (or
    below minus the length) makes the projection raise [IndexError]: no
    partial sub-annotation is returned. *)
Theorem project_argument_out_of_range (sent : Sentence) (indices : list Z) :
  Exists (out_of_range (len (tokens sent))) indices →
  project_argument (PDict sent) indices = Raise IndexError.
Proof.
  intros H. unfold project_argument, mbind, result_bind. cbn [as_dict bind].
  rewrite project_dependencies_reindex. cbn [bind].
  by rewrite (gather_out_of_range _ _ H).
Qed.

Lemma project_argument_out_of_range_witness :
  Exists (out_of_range (len (tokens annotated_sentence))) [3; 5]
  ∧ project_argument (PDict annotated_sentence) [3; 5] = Raise IndexError.
Proof.
  assert (H : Exists (out_of_range (len (tokens annotated_sentence))) [3; 5]).
  { apply Exists_cons_tl, Exists_cons_hd. left. vm_compute. congruence. }
  split; [exact H|]. exact (project_argument_out_of_range _ _ H).
Defined.

(** X7. The projection of a clause needs no order: for a clause without
    repeated indices, all of them token positions, it returns the picked
    tokens, tags and lemmas in the order of the clause and the kept
    dependencies re-indexed by position, and it carries no ["ners"], no
    ["mentions"] and no ["parse"] entry, also when the sentence has them. *)
Theorem project_clause_any_order (sent : Sentence) (clause : list Z) :
  NoDup clause → span_in_range sent clause →
  project_clause (PDict sent) clause
  = Ok (mkSentence "" (omap (keep_dependency clause) (dependencies sent))
          (pick (tokens sent) clause) (pick (pos_tags sent) clause)
          (pick (lemmas sent) clause) None None None)
  ∧ Forall2 (λ i t, tokens sent !! Z.to_nat i = Some t) clause
      (pick (tokens sent) clause).
Proof.
  intros Hnd (Hrange & Htags & Hlemmas & _).
  destruct (gather_pick (tokens sent) clause Hrange) as [Gt Ft].
  destruct (gather_pick (pos_tags sent) clause) as [Gp _].
  { unfold len in *. by rewrite Htags. }
  destruct (gather_pick (lemmas sent) clause) as [Gl _].
  { unfold len in *. by rewrite Hlemmas. }
  split; [|done].
  unfold project_clause, mbind, result_bind. cbn [as_dict bind].
  rewrite project_dependencies_spec by done. cbn [bind].
  by rewrite Gt, Gp, Gl.
Qed.

Lemma project_clause_any_order_witness :
  NoDup unsorted_clause ∧ span_in_range annotated_sentence unsorted_clause
  ∧ project_clause (PDict annotated_sentence) unsorted_clause
    = Ok (mkSentence "" [(1, "nsubj", 2); (1, "advcl", 0)]
            ["rained"; "left"; "He"] ["VBD"; "VBD"; "PRP"]
            ["rain"; "leave"; "he"] None None None).
Proof.
  assert (Hnd : NoDup unsorted_clause).
  { by apply (bool_decide_unpack _). }
  assert (Hr : span_in_range annotated_sentence unsorted_clause).
  { split; [|split; [reflexivity|split; [reflexivity|]]].
    - repeat constructor; vm_compute; congruence.
    - intros ns [= <-]. reflexivity. }
  split; [exact Hnd|]. split; [exact Hr|].
  exact (proj1 (project_clause_any_order annotated_sentence unsorted_clause Hnd Hr)).
Defined.

(* --------------------------------------------------------------------- *)
(** ** Mapping an eventuality back to the sentence *)
(* --------------------------------------------------------------------- *)

Lemma remap_loop (indices : list Z) (items : list (Z * Z)) :
  ∀ acc : gmap Z Z,
    NoDup items.*1 →
    Forall (λ kv : Z * Z, 0 ≤ kv.2 < len indices) items →
    ∃ acc',
      for_each
        (λ (m : gmap Z Z) (kv : Z * Z),
           bind (getitem indices kv.2) (λ x, Ok (<[kv.1 := x]> m)))
        items acc = Ok acc'
      ∧ ∀ k, acc' !! k
             = match (list_to_map items : gmap Z Z) !! k with
               | Some v => indices !! Z.to_nat v
               | None => acc !! k
               end.
Proof.
  induction items as [|[k0 v0] items IH]; intros acc Hnd Hrange.
  - exists acc. split; [done|]. intros k.
    by rewrite list_to_map_nil, lookup_empty.
  - apply NoDup_cons in Hnd as [Hk0 Hnd].
    apply Forall_cons in Hrange as [Hv0 Hrange]. cbn [fst snd] in Hv0.
    destruct (lookup_lt_is_Some_2 indices (Z.to_nat v0)) as [x Hx];
      [unfold len in Hv0; lia|].
    assert (Hget : getitem indices v0 = Ok x).
    { rewrite <- (getitem_nat _ _ _ Hx). f_equal. lia. }
    destruct (IH (<[k0 := x]> acc) Hnd Hrange) as (acc' & Hloop & Hacc').
    exists acc'. split.
    + cbn [for_each fst snd]. rewrite Hget. cbn [bind]. exact Hloop.
    + intros k. rewrite Hacc', list_to_map_cons.
      destruct (decide (k0 = k)) as [->|Hne].
      * rewrite (not_elem_of_list_to_map_1 _ _ Hk0), !lookup_insert_eq.
        by rewrite Hx.
      * by rewrite !lookup_insert_ne by done.
Qed.

Lemma remap_loop_error (indices : list Z) (items : list (Z * Z)) :
  Exists (λ kv : Z * Z, out_of_range (len indices) kv.2) items →
  ∀ acc : gmap Z Z,
    for_each
      (λ (m : gmap Z Z) (kv : Z * Z),
         bind (getitem indices kv.2) (λ x, Ok (<[kv.1 := x]> m)))
      items acc = Raise IndexError.
Proof.
  induction 1 as [kv items Hbad|kv items _ IH]; intros acc; cbn [for_each].
  - by rewrite getitem_out_of_range.
  - destruct (getitem_cases indices kv.2) as [->|[x ->]]; [done|].
    cbn [bind]. apply IH.
Qed.

(** X8. When every local position of an eventuality is a place of the
    argument (or clause), mapping it back replaces each position [v] by
    the sentence index [indices[v]]: the keys of [raw_sent_mapping] stay,
    and identity, pattern, words and evidence are untouched. *)
Theorem remap_raw_sent_mapping_spec (e : Eventuality) (indices : list Z) :
  map_Forall (λ _ v, 0 ≤ v < len indices) (raw_sent_mapping e) →
  ∃ e',
    remap_raw_sent_mapping e indices = Ok e'
    ∧ (∀ k, raw_sent_mapping e' !! k
            = raw_sent_mapping e !! k ≫= λ v, indices !! Z.to_nat v)
    ∧ dom (raw_sent_mapping e') = dom (raw_sent_mapping e)
    ∧ eid e' = eid e ∧ pattern e' = pattern e ∧ words e' = words e
    ∧ frequency e' = frequency e.
Proof.
  intros Hrange.
  destruct (remap_loop indices (map_to_list (raw_sent_mapping e))
              (raw_sent_mapping e)) as (m' & Hloop & Hm').
  { apply NoDup_fst_map_to_list. }
  { apply Forall_forall. intros [k v] Hin. apply elem_of_map_to_list in Hin.
    exact (Hrange k v Hin). }
  assert (Hlookup : ∀ k, m' !! k
                         = raw_sent_mapping e !! k ≫= λ v, indices !! Z.to_nat v).
  { intros k. rewrite Hm', list_to_map_to_list.
    by destruct (raw_sent_mapping e !! k). }
  exists (set_raw_sent_mapping e m'). split; [|split; [exact Hlookup|split]].
  - unfold remap_raw_sent_mapping, mbind, result_bind.
    unfold mbind, result_bind in Hloop. by rewrite Hloop.
  - apply set_eq. intros k. rewrite !elem_of_dom. cbn [raw_sent_mapping set_raw_sent_mapping].
    rewrite Hlookup.
    destruct (raw_sent_mapping e !! k) as [v|] eqn:Ev; cbn.
    + split; [eauto|]. intros _.
      apply lookup_lt_is_Some_2. pose proof (Hrange k v Ev) as Hv.
      unfold len in Hv. cbn in Hv. lia.
    + done.
  - done.
Qed.

Lemma remap_raw_sent_mapping_spec_witness :
  map_Forall (λ _ v, 0 ≤ v < len [3; 4]) (raw_sent_mapping local_eventuality)
  ∧ remap_raw_sent_mapping local_eventuality [3; 4]
    = Ok (eventuality_at "rain" [3; 4]).
Proof.
  assert (H : map_Forall (λ _ v, 0 ≤ v < len [3; 4])
                (raw_sent_mapping local_eventuality)).
  { intros k v Hkv.
    apply elem_of_map_to_list in Hkv. vm_compute in Hkv.
    repeat (apply elem_of_cons in Hkv as [[= -> ->]|Hkv]; [vm_compute; split; congruence|]).
    by apply elem_of_nil in Hkv. }
  split; [exact H|].
  destruct (remap_raw_sent_mapping_spec local_eventuality [3; 4] H)
    as (e' & He' & _).
  rewrite He'. vm_compute in He'. injection He' as <-. vm_compute. reflexivity.
Defined.

(** X9. A local position outside the argument makes the mapping raise
    [IndexError]: the eventuality is not half rewritten. *)
Theorem remap_raw_sent_mapping_out_of_range (e : Eventuality) (indices : list Z)
  (k v : Z) :
  raw_sent_mapping e !! k = Some v → out_of_range (len indices) v →
  remap_raw_sent_mapping e indices = Raise IndexError.
Proof.
  intros Hkv Hbad. unfold remap_raw_sent_mapping, mbind, result_bind.
  rewrite remap_loop_error; [done|].
  apply Exists_exists. exists (k, v). split; [|done].
  by apply elem_of_map_to_list.
Qed.

Lemma remap_raw_sent_mapping_out_of_range_witness :
  raw_sent_mapping local_eventuality !! 1 = Some 1
  ∧ out_of_range (len [3]) 1
  ∧ remap_raw_sent_mapping local_eventuality [3] = Raise IndexError.
Proof.
  assert (H1 : raw_sent_mapping local_eventuality !! 1 = Some 1)
    by (vm_compute; reflexivity).
  assert (H2 : out_of_range (len [3]) 1) by (left; vm_compute; congruence).
  split; [exact H1|]. split; [exact H2|].
  exact (remap_raw_sent_mapping_out_of_range local_eventuality [3] 1 1 H1 H2).
Defined.

(* --------------------------------------------------------------------- *)
(** ** Loops and their invariants *)
(* --------------------------------------------------------------------- *)

Lemma for_each_invariant {S X} (P : S → Prop) (body : S → X → result S) xs :
  ∀ s s',
    for_each body xs s = Ok s' →
    P s →
    (∀ s x s', P s → body s x = Ok s' → P s') →
    P s'.
Proof.
  induction xs as [|x xs IH]; intros s s' Hloop Hs Hbody.
  - cbn in Hloop. by injection Hloop as <-.
  - cbn [for_each] in Hloop. destruct (body s x) as [s1|] eqn:E; [|done].
    cbn [bind] in Hloop. eapply IH; [exact Hloop| |exact Hbody].
    by eapply Hbody.
Qed.

Lemma map_each_cons_Ok {X Y} (f : X → result Y) x xs ys :
  map_each f (x :: xs) = Ok ys →
  ∃ y ys', f x = Ok y ∧ map_each f xs = Ok ys' ∧ ys = y :: ys'.
Proof.
  cbn [map_each]. destruct (f x) as [y|]; [|done]. cbn [bind].
  destruct (map_each f xs) as [ys'|]; [|done]. cbn [bind].
  intros [= <-]. eauto.
Qed.

Lemma map_each_length {X Y} (f : X → result Y) xs :
  ∀ ys, map_each f xs = Ok ys → length ys = length xs.
Proof.
  induction xs as [|x xs IH]; intros ys H.
  - cbn in H. by injection H as <-.
  - apply map_each_cons_Ok in H as (y & ys' & _ & H & ->).
    cbn [length]. by rewrite (IH ys' H).
Qed.

Lemma setitem_length {A} (l : list A) i a l' :
  setitem l i a = Ok l' → length l' = length l.
Proof.
  unfold setitem. cbn zeta.
  destruct ((if i <? 0 then i + len l else i) <? 0); [done|].
  destruct (Nat.ltb (Z.to_nat (if i <? 0 then i + len l else i)) (length l));
    [|done].
  intros [= <-]. apply length_insert.
Qed.

(* --------------------------------------------------------------------- *)
(** ** Adding the eventualities of an argument *)
(* --------------------------------------------------------------------- *)

Section AddEventualities.

Context (C : Collaborators).

Lemma add_eventualities_loop (pe : list (list Eventuality)) (n : nat)
  (existing : list Eventuality) (indices : list Z) evs :
  (n < length pe)%nat →
  ∀ remapped added seen0,
    map_each (λ e, remap_raw_sent_mapping e indices) evs = Ok remapped →
    let seen := map (λ e, set_eid e (generate_eid C e)) remapped in
    for_each
      (λ (st : list (list Eventuality) * list Eventuality) e,
         let '(para_eventualities, seen) := st in
         bind (remap_raw_sent_mapping e indices)
           (λ e,
              let e := set_eid e (generate_eid C e) in
              bind (getitem para_eventualities (Z.of_nat n))
                (λ sent_eventualities,
                   let existed_eventuality :=
                     existsb
                       (λ known,
                          bool_decide (eid known = eid e)
                          && bool_decide
                               (raw_sent_mapping known = raw_sent_mapping e))
                       (take (length existing) sent_eventualities) in
                   bind
                     (if existed_eventuality then Ok para_eventualities
                      else setitem para_eventualities (Z.of_nat n)
                             (sent_eventualities ++ [e]))
                     (λ para_eventualities, Ok (para_eventualities, seen ++ [e])))))
      evs (<[n := existing ++ added]> pe, seen0)
    = Ok (<[n := existing ++ added
                  ++ filter (λ e, known_in existing e = false) seen]> pe,
          seen0 ++ seen).
Proof.
  intros Hn. induction evs as [|e evs IH]; intros remapped added seen0 Hmap seen.
  - cbn in Hmap. injection Hmap as <-. cbn. by rewrite !app_nil_r.
  - apply map_each_cons_Ok in Hmap as (e_r & rest & He & Hrest & ->).
    cbn [for_each]. rewrite He. cbn [bind].
    set (e' := set_eid e_r (generate_eid C e_r)).
    assert (Hget : getitem (<[n := existing ++ added]> pe) (Z.of_nat n)
                   = Ok (existing ++ added)).
    { apply getitem_nat. by apply list_lookup_insert_eq. }
    rewrite Hget. cbn [bind]. rewrite take_app_length.
    fold (known_in existing e').
    subst seen. cbn [map]. fold e'. rewrite filter_cons.
    destruct (known_in existing e') eqn:Hknown.
    + cbn [bind]. rewrite decide_False by done.
      etrans; [exact (IH rest added (seen0 ++ [e']) Hrest)|].
      by rewrite <- app_assoc.
    + rewrite setitem_nat by (by rewrite length_insert). cbn [bind].
      rewrite list_insert_insert_eq. rewrite decide_True by done.
      rewrite <- (app_assoc existing added [e']).
      etrans; [exact (IH rest (added ++ [e']) (seen0 ++ [e']) Hrest)|].
      by rewrite <- !app_assoc.
Qed.

(** X10. Processing an argument appends to the list of its sentence
    exactly those extracted eventualities (mapped back and re-identified)
    that do not have the [eid] and [raw_sent_mapping] of an entry that was
    in the list before; entries already there are kept in place, the lists
    of the other sentences are untouched, and an eventuality that occurs
    twice in one extraction result is appended twice. *)
Theorem add_eventualities_spec (pe : list (list Eventuality)) (n : nat)
  (existing : list Eventuality) (indices : list Z) evs remapped :
  pe !! n = Some existing →
  map_each (λ e, remap_raw_sent_mapping e indices) evs = Ok remapped →
  let seen := map (λ e, set_eid e (generate_eid C e)) remapped in
  add_eventualities C pe (Z.of_nat n) indices evs
  = Ok (<[n := existing ++ filter (λ e, known_in existing e = false) seen]> pe,
        seen).
Proof.
  intros Hn Hmap seen. unfold add_eventualities, mbind, result_bind.
  rewrite (getitem_nat _ _ _ Hn). cbn [bind].
  pose proof (add_eventualities_loop pe n existing indices evs
                (lookup_lt_Some _ _ _ Hn) remapped [] [] Hmap) as Hloop.
  cbn zeta in Hloop. rewrite app_nil_r, list_insert_id in Hloop by done.
  exact Hloop.
Qed.

End AddEventualities.

Lemma add_eventualities_spec_witness :
  [[eventuality_at "a" [0; 1]]] !! 0%nat = Some [eventuality_at "a" [0; 1]]
  ∧ map_each (λ e, remap_raw_sent_mapping e [0; 1])
      [eventuality_at "a" [0; 1]; eventuality_at "b" [0; 1];
       eventuality_at "b" [0; 1]]
    = Ok [eventuality_at "a" [0; 1]; eventuality_at "b" [0; 1];
          eventuality_at "b" [0; 1]]
  ∧ add_eventualities (scripted [] (λ _, [])) [[eventuality_at "a" [0; 1]]] 0
      [0; 1]
      [eventuality_at "a" [0; 1]; eventuality_at "b" [0; 1];
       eventuality_at "b" [0; 1]]
    = Ok ([[eventuality_at "a" [0; 1]; eventuality_at "b" [0; 1];
            eventuality_at "b" [0; 1]]],
          [eventuality_at "a" [0; 1]; eventuality_at "b" [0; 1];
           eventuality_at "b" [0; 1]]).
Proof.
  assert (H1 : [[eventuality_at "a" [0; 1]]] !! 0%nat
               = Some [eventuality_at "a" [0; 1]]) by reflexivity.
  assert (H2 : map_each (λ e, remap_raw_sent_mapping e [0; 1])
                 [eventuality_at "a" [0; 1]; eventuality_at "b" [0; 1];
                  eventuality_at "b" [0; 1]]
               = Ok [eventuality_at "a" [0; 1]; eventuality_at "b" [0; 1];
                     eventuality_at "b" [0; 1]])
    by (vm_compute; reflexivity).
  split; [exact H1|]. split; [exact H2|].
  etrans;
    [exact (add_eventualities_spec (scripted [] (λ _, [])) _ 0%nat _ _ _ _ H1 H2)|].
  vm_compute. reflexivity.
Defined.

(* --------------------------------------------------------------------- *)
(** ** The number of buckets *)
(* --------------------------------------------------------------------- *)

(** Taking a successful run of binds apart. *)
Ltac bind_inv H :=
  unfold mbind, result_bind in H;
  repeat match type of H with
         | bind ?m _ = Ok _ =>
             let E := fresh "E" in
             destruct m eqn:E; cbn [bind] in H; [|discriminate H]
         | (let '(_, _) := ?p in _) = Ok _ => destruct p
         end.

Ltac bind_inv_all :=
  repeat match goal with
         | H : bind ?m _ = Ok _ |- _ =>
             let E := fresh "E" in
             destruct m eqn:E; cbn [bind] in H; [|discriminate H]
         | H : (let '(_, _) := ?p in _) = Ok _ |- _ => destruct p
         end.

Section BucketCounts.

Context (C : Collaborators).

Lemma add_eventualities_length pe idx indices evs pe' seen :
  add_eventualities C pe idx indices evs = Ok (pe', seen) →
  length pe' = length pe.
Proof.
  unfold add_eventualities. intros H. bind_inv H.
  apply (for_each_invariant (λ st, length st.1 = length pe)) in H; [done|done|].
  intros [pe1 seen1] e [pe2 seen2] Hlen Hbody. cbn [fst] in *.
  bind_inv Hbody. injection Hbody as <- <-.
  match goal with
  | E : (if ?b then _ else _) = Ok _ |- _ => destruct b
  end.
  - congruence.
  - match goal with
    | E : setitem _ _ _ = Ok _ |- _ => apply setitem_length in E
    end. congruence.
Qed.

Lemma extraction_round_length n parsed_result pe pr connective pe' pr' :
  extraction_round C n parsed_result (pe, pr) connective = Ok (pe', pr') →
  length pe' = length pe ∧ length pr' = length pr.
Proof.
  unfold extraction_round. intros H.
  destruct (truthy_list (indices connective)); [|by injection H as <- <-].
  destruct (arg1 connective) as [a1|]; [|by injection H as <- <-].
  destruct (arg2 connective) as [a2|]; [|by injection H as <- <-].
  bind_inv H.
  repeat match goal with
         | E : add_eventualities _ _ _ _ _ = Ok _ |- _ =>
             apply add_eventualities_length in E
         end.
  destruct (relation_list_idx n (arg_sent_idx a1) (arg_sent_idx a2));
    [|injection H as <- <-; split; congruence].
  destruct (len (candidate_senses (arg_sent_idx a1) (arg_sent_idx a2) connective)
            =? 0); [injection H as <- <-; split; congruence|].
  bind_inv H. injection H as <- <-.
  match goal with
  | E : setitem _ _ _ = Ok _ |- _ => apply setitem_length in E
  end.
  split; congruence.
Qed.

Lemma working_collections_length parsed_result cache pe pr :
  working_collections C parsed_result cache = Ok (pe, pr) →
  length pe = length parsed_result
  ∧ length pr = (2 * length parsed_result - 1)%nat.
Proof.
  unfold working_collections. intros H. bind_inv H.
  apply (for_each_invariant
           (λ st, length st.1 = length parsed_result
                  ∧ length st.2 = (2 * length parsed_result - 1)%nat)) in H;
    [done| |].
  - cbn [fst snd]. rewrite !length_replicate. unfold len. split; lia.
  - intros [pe1 pr1] c [pe2 pr2] [H1 H2] Hround. cbn [fst snd] in *.
    apply extraction_round_length in Hround as [-> ->]. done.
Qed.

(** X11. Whenever the combined entry point returns in-order for a list of
    [N] sentences, it returns exactly [N] buckets of eventualities and
    [2N - 1] buckets of relations (none for [N = 0]), in both eventuality
    formats and whatever the connectives were. *)
Theorem extract_from_parsed_result_bucket_counts (sentences : list pyobj)
  (ef rf : string) (cache : Cache) out :
  extract_from_parsed_result C (PList sentences) ef rf true cache = Ok out →
  ∃ r, out.2 = OutRelBuckets r
       ∧ length r = (2 * length sentences - 1)%nat
       ∧ ((∃ e, out.1 = OutEvBuckets e ∧ length e = length sentences)
          ∨ (∃ j, out.1 = OutJsonBuckets j ∧ length j = length sentences)).
Proof.
  unfold extract_from_parsed_result. intros H.
  destruct (unsupported ef "Eventuality" "json"); [done|].
  destruct (unsupported rf "Relation" "triple"); [done|].
  unfold mbind, result_bind in H. cbn [paragraph_shape bind] in H.
  bind_inv H.
  match goal with
  | E : working_collections _ _ _ = Ok _ |- _ =>
      apply working_collections_length in E as [He Hr]
  end.
  unfold output_stage in H. bind_inv H.
  destruct (String.eqb ef "json"); injection H as <-; cbn [fst snd].
  - eexists. split; [done|]. split; [done|]. right. eexists. split; [done|].
    unfold encode_buckets. by rewrite length_map.
  - eexists. split; [done|]. split; [done|]. left. eauto.
Qed.

(** X12. A single sentence given as a dictionary is treated as the
    paragraph made of that sentence, and the in-order result is the one
    bucket of eventualities and the one bucket of relations of that
    paragraph, without the enclosing lists. *)
Theorem extract_from_parsed_result_single_sentence (s : Sentence)
  (cache : Cache) e r :
  extract_from_parsed_result C (PList [PDict s]) "Eventuality" "Relation" true
    cache
  = Ok (OutEvBuckets e, OutRelBuckets r) →
  ∃ e0 r0,
    e = [e0] ∧ r = [r0]
    ∧ extract_from_parsed_result C (PDict s) "Eventuality" "Relation" true cache
      = Ok (OutEvs e0, OutRels r0).
Proof.
  unfold extract_from_parsed_result. cbn [unsupported String.eqb].
  cbn [paragraph_shape]. cbn. intros H.
  destruct (working_collections C [PDict s] cache) as [[pe pr]|] eqn:E; [|done].
  cbn in H. injection H as <- <-.
  apply working_collections_length in E as [He Hr]. cbn in He, Hr.
  destruct pe as [|e0 [|? ?]]; [done| |done].
  destruct pr as [|r0 [|? ?]]; [done| |done].
  exists e0, r0. done.
Qed.

Lemma relations_round_length n parsed_result pe st connective st' :
  relations_round C n parsed_result pe st connective = Ok st' →
  length st'.1 = length st.1.
Proof.
  unfold relations_round. destruct st as [pr bound]. intros H.
  destruct (truthy_list (indices connective)); [|by injection H as <-].
  destruct (arg1 connective) as [a1|]; [|by injection H as <-].
  destruct (arg2 connective) as [a2|]; [|by injection H as <-].
  destruct (explicit_sense connective) as [sense|]; [|by injection H as <-].
  destruct (arg_sent_idx a1 =? arg_sent_idx a2);
    bind_inv H; injection H as <-; cbn [fst];
    match goal with
    | E : setitem _ _ _ = Ok _ |- _ => by apply setitem_length in E
    end.
Qed.

(** X13. Whenever relation extraction returns in-order for a list of [N]
    sentences, it returns [2N - 1] buckets for [N > 0] and the one empty
    bucket for [N = 0], however many lists of eventualities it is given
    and whatever the connectives were. *)
Theorem extract_relations_bucket_count (sentences : list pyobj)
  (pe : list (list Eventuality)) (cache : Cache) r :
  extract_relations_from_parsed_result C (PList sentences) pe "Relation" true
    cache
  = Ok (OutRelBuckets r) →
  length r = Nat.max 1 (2 * length sentences - 1).
Proof.
  unfold extract_relations_from_parsed_result.
  cbn [unsupported String.eqb]. cbn [py_len]. cbn. intros H.
  destruct (len sentences =? 0) eqn:Hn.
  - injection H as <-. apply Z.eqb_eq in Hn. unfold len in Hn.
    destruct sentences; [done|simpl in Hn; lia].
  - apply Z.eqb_neq in Hn.
    assert (Hne : sentences ≠ []) by (intros ->; done).
    unfold relation_buckets, mbind, result_bind in H.
    cbn [py_iter bind] in H. bind_inv_all.
    injection H as <-.
    repeat match goal with
           | E : Ok _ = Ok _ |- _ => injection E as <-
           end.
    destruct (baseline_spec C sentences pe Hne) as (b & Hb & Hrel).
    match goal with
    | E : baseline _ _ _ _ = Ok ?b' |- _ =>
        rewrite Hb in E; injection E as <-
    end.
    match goal with
    | E : for_each _ _ _ = Ok ?st |- _ =>
        apply (for_each_invariant
                 (λ st, length st.1 = length (baseline_relations b))) in E;
        [rewrite E|done|]
    end.
    + rewrite Hrel, length_app, length_map, length_fmap, length_replicate.
      rewrite length_zip. unfold len. destruct sentences; [done|].
      cbn [length]. lia.
    + intros st c st' Hst Hround.
      apply relations_round_length in Hround. congruence.
Qed.

End BucketCounts.

Lemma extract_from_parsed_result_bucket_counts_witness :
  extract_from_parsed_result
    (scripted connectives_to_previous by_first_token)
    (PList [five_tokens; other_tokens]) "Eventuality" "Relation" true ∅
  = Ok (OutEvBuckets
          [ [eventuality_at "a" [0; 1]; eventuality_at "c" [3; 4]];
            [eventuality_at "e" [0; 1]] ],
        OutRelBuckets
          [ []; [];
            [Relation_init (Some "a") (Some "e") (ArgList ["Reason"])] ])
  ∧ ∃ r, OutRelBuckets
           [ []; [];
             [Relation_init (Some "a") (Some "e") (ArgList ["Reason"])] ]
         = OutRelBuckets r
         ∧ length r = 3%nat.
Proof.
  assert (H : extract_from_parsed_result
                (scripted connectives_to_previous by_first_token)
                (PList [five_tokens; other_tokens]) "Eventuality" "Relation"
                true ∅
              = Ok (OutEvBuckets
                      [ [eventuality_at "a" [0; 1]; eventuality_at "c" [3; 4]];
                        [eventuality_at "e" [0; 1]] ],
                    OutRelBuckets
                      [ []; [];
                        [Relation_init (Some "a") (Some "e")
                           (ArgList ["Reason"])] ]))
    by (vm_compute; reflexivity).
  split; [exact H|].
  destruct (extract_from_parsed_result_bucket_counts _ _ _ _ _ _ H)
    as (r & Hr & Hlen & _).
  exists r. split; [exact Hr|exact Hlen].
Defined.

Lemma extract_from_parsed_result_single_sentence_witness :
  extract_from_parsed_result (scripted [connective_within 0] by_first_token)
    (PList [five_tokens]) "Eventuality" "Relation" true ∅
  = Ok (OutEvBuckets [[eventuality_at "a" [0; 1]; eventuality_at "c" [3; 4]]],
        OutRelBuckets
          [[Relation_init (Some "a") (Some "c")
              (ArgList ["Co_Occurrence"; "Reason"])]])
  ∧ extract_from_parsed_result (scripted [connective_within 0] by_first_token)
      five_tokens "Eventuality" "Relation" true ∅
    = Ok (OutEvs [eventuality_at "a" [0; 1]; eventuality_at "c" [3; 4]],
          OutRels
            [Relation_init (Some "a") (Some "c")
               (ArgList ["Co_Occurrence"; "Reason"])]).
Proof.
  assert (H : extract_from_parsed_result
                (scripted [connective_within 0] by_first_token)
                (PList [five_tokens]) "Eventuality" "Relation" true ∅
              = Ok (OutEvBuckets
                      [[eventuality_at "a" [0; 1]; eventuality_at "c" [3; 4]]],
                    OutRelBuckets
                      [[Relation_init (Some "a") (Some "c")
                          (ArgList ["Co_Occurrence"; "Reason"])]]))
    by (vm_compute; reflexivity).
  split; [exact H|].
  destruct (extract_from_parsed_result_single_sentence
              (scripted [connective_within 0] by_first_token) _ ∅ _ _ H)
    as (e0 & r0 & [= <-] & [= <-] & Hsingle).
  exact Hsingle.
Defined.

Lemma extract_relations_bucket_count_witness :
  extract_relations_from_parsed_result
    (scripted [connective_across_two] (λ _, []))
    (PList [plain_sentence 3; plain_sentence 3; plain_sentence 3])
    [ [eventuality_at "e0" [0; 1]]; [eventuality_at "e1" [0; 1]];
      [eventuality_at "e2" [1; 2]] ]
    "Relation" true ∅
  = Ok (OutRelBuckets
          [ []; []; [];
            [Relation_init (Some "e0") (Some "e2") (ArgList ["Reason"])];
            [] ])
  ∧ length [ ([] : list Relation); []; [];
             [Relation_init (Some "e0") (Some "e2") (ArgList ["Reason"])];
             [] ]
    = Nat.max 1 (2 * 3 - 1).
Proof.
  assert (H : extract_relations_from_parsed_result
                (scripted [connective_across_two] (λ _, []))
                (PList [plain_sentence 3; plain_sentence 3; plain_sentence 3])
                [ [eventuality_at "e0" [0; 1]]; [eventuality_at "e1" [0; 1]];
                  [eventuality_at "e2" [1; 2]] ]
                "Relation" true ∅
              = Ok (OutRelBuckets
                      [ []; []; [];
                        [Relation_init (Some "e0") (Some "e2")
                           (ArgList ["Reason"])];
                        [] ]))
    by (vm_compute; reflexivity).
  split; [exact H|].
  exact (extract_relations_bucket_count _ _ _ _ _ H).
Defined.

(* --------------------------------------------------------------------- *)
(** ** [_extract_clauses] and the buckets of eventuality extraction *)
(* --------------------------------------------------------------------- *)

Lemma for_each_count {S X} (f : S → nat) (body : S → X → result S) xs :
  (∀ s x s', body s x = Ok s' → f s' = Datatypes.S (f s)) →
  ∀ s s', for_each body xs s = Ok s' → f s' = (f s + length xs)%nat.
Proof.
  intros Hbody. induction xs as [|x xs IH]; intros s s' H.
  - injection H as <-. simpl. lia.
  - cbn [for_each] in H. destruct (body s x) as [s1|] eqn:E; [|done].
    cbn [bind] in H. apply IH in H. apply Hbody in E. simpl. lia.
Qed.

Lemma scripted_visits_each_once script extractor clauses :
  visits_each_once (scripted script extractor)
  ∧ visits_each_once (with_clauses clauses (scripted script extractor)).
Proof. by split; intros s. Qed.

Section Clauses.

Context (C : Collaborators).

Lemma _extract_clauses_length parsed_result cache para_arguments :
  _extract_clauses C parsed_result cache = Ok para_arguments →
  length para_arguments = length parsed_result.
Proof.
  unfold _extract_clauses. intros H. bind_inv H. injection H as <-.
  match goal with
  | E : for_each _ (enumerate _) _ = Ok _ |- _ =>
      apply (for_each_count (λ st, length st.2)) in E
  end.
  - cbn [snd] in *. unfold enumerate in *. rewrite length_imap in *. done.
  - intros [c pa] [i s] [c' pa'] Hb. bind_inv Hb. injection Hb as <- <-.
    cbn [snd]. rewrite length_app. simpl. lia.
Qed.

Lemma sentence_buckets_length (sentences : list pyobj) (cache : Cache) pc pe :
  _extract_clauses C sentences cache = Ok pc →
  map_each (λ sc, sentence_eventualities C sc.1 sc.2) (zip sentences pc) = Ok pe →
  length pe = length sentences.
Proof.
  intros Hc He. apply _extract_clauses_length in Hc.
  apply map_each_length in He.
  by rewrite length_zip, Hc, Nat.min_id in He.
Qed.

(** X14. Whenever eventuality extraction returns in-order for a list of
    [N] sentences, it returns exactly [N] buckets, one per sentence, in both
    output formats and whatever clauses the splitter found. *)
Theorem extract_eventualities_bucket_count (sentences : list pyobj)
  (fmt : string) (cache : Cache) out :
  extract_eventualities_from_parsed_result C (PList sentences) fmt true cache
  = Ok out →
  (∃ e, out = OutEvBuckets e ∧ length e = length sentences)
  ∨ (∃ j, out = OutJsonBuckets j ∧ length j = length sentences).
Proof.
  unfold extract_eventualities_from_parsed_result. intros H.
  destruct (unsupported fmt "Eventuality" "json"); [done|].
  unfold mbind, result_bind in H. cbn [paragraph_shape bind] in H.
  bind_inv H.
  match goal with
  | E1 : _extract_clauses _ _ _ = Ok _, E2 : map_each _ _ = Ok _ |- _ =>
      pose proof (sentence_buckets_length _ _ _ _ E1 E2) as He
  end.
  destruct (String.eqb fmt "json"); injection H as <-.
  - right. eexists. split; [done|]. unfold encode_buckets.
    by rewrite length_map.
  - left. eauto.
Qed.

(** X15. For eventuality extraction too a single sentence given as a
    dictionary is the paragraph made of that sentence: the in-order result
    is the one bucket of that paragraph, without the enclosing list. *)
Theorem extract_eventualities_single_sentence (s : Sentence) (cache : Cache) e :
  extract_eventualities_from_parsed_result C (PList [PDict s]) "Eventuality" true
    cache
  = Ok (OutEvBuckets e) →
  ∃ e0, e = [e0]
        ∧ extract_eventualities_from_parsed_result C (PDict s) "Eventuality" true
            cache
          = Ok (OutEvs e0).
Proof.
  unfold extract_eventualities_from_parsed_result.
  change (unsupported "Eventuality" "Eventuality" "json") with false.
  cbn iota. unfold mbind, result_bind. cbn [paragraph_shape bind].
  destruct (_extract_clauses C [PDict s] cache) as [pc|] eqn:Hc; [|done].
  cbn [bind].
  destruct (map_each _ (zip [PDict s] pc)) as [pe|] eqn:He; [|done].
  pose proof (sentence_buckets_length _ _ _ _ Hc He) as Hlen.
  change (String.eqb "Eventuality" "json") with false.
  cbn [bind]. intros [= <-].
  destruct pe as [|e0 [|? ?]]; [done| |done].
  by exists e0.
Qed.

End Clauses.

Lemma extract_eventualities_bucket_count_witness :
  extract_eventualities_from_parsed_result
    (with_clauses whole_sentence (scripted [] by_first_token))
    (PList [five_tokens; other_tokens]) "Eventuality" true ∅
  = Ok (OutEvBuckets
          [ [eventuality_at "a" [0; 1; 2; 3; 4]];
            [eventuality_at "e" [0; 1; 2; 3; 4]] ])
  ∧ ((∃ e, OutEvBuckets
             [ [eventuality_at "a" [0; 1; 2; 3; 4]];
               [eventuality_at "e" [0; 1; 2; 3; 4]] ]
           = OutEvBuckets e
           ∧ length e = 2%nat)
     ∨ (∃ j, OutEvBuckets
               [ [eventuality_at "a" [0; 1; 2; 3; 4]];
                 [eventuality_at "e" [0; 1; 2; 3; 4]] ]
             = OutJsonBuckets j
             ∧ length j = 2%nat)).
Proof.
  assert (H : extract_eventualities_from_parsed_result
                (with_clauses whole_sentence (scripted [] by_first_token))
                (PList [five_tokens; other_tokens]) "Eventuality" true ∅
              = Ok (OutEvBuckets
                      [ [eventuality_at "a" [0; 1; 2; 3; 4]];
                        [eventuality_at "e" [0; 1; 2; 3; 4]] ]))
    by (vm_compute; reflexivity).
  split; [exact H|].
  exact (extract_eventualities_bucket_count _ _ _ _ _ H).
Defined.

Lemma extract_eventualities_single_sentence_witness :
  extract_eventualities_from_parsed_result
    (with_clauses whole_sentence (scripted [] by_first_token))
    (PList [five_tokens]) "Eventuality" true ∅
  = Ok (OutEvBuckets [[eventuality_at "a" [0; 1; 2; 3; 4]]])
  ∧ extract_eventualities_from_parsed_result
      (with_clauses whole_sentence (scripted [] by_first_token))
      five_tokens "Eventuality" true ∅
    = Ok (OutEvs [eventuality_at "a" [0; 1; 2; 3; 4]]).
Proof.
  assert (H : extract_eventualities_from_parsed_result
                (with_clauses whole_sentence (scripted [] by_first_token))
                (PList [five_tokens]) "Eventuality" true ∅
              = Ok (OutEvBuckets [[eventuality_at "a" [0; 1; 2; 3; 4]]]))
    by (vm_compute; reflexivity).
  split; [exact H|].
  destruct (extract_eventualities_single_sentence
              (with_clauses whole_sentence (scripted [] by_first_token)) _ ∅ _ H)
    as (e0 & [= <-] & Hsingle).
  exact Hsingle.
Defined.

(* --------------------------------------------------------------------- *)
(** ** Sorting *)
(* --------------------------------------------------------------------- *)

Lemma ordered_by_cons {A} (R : A → A → Prop) a l :
  ordered_by R (a :: l) ↔ Forall (R a) l ∧ ordered_by R l.
Proof.
  split.
  - intros H. split.
    + apply Forall_lookup. intros j b Hb. by apply (H 0%nat (Datatypes.S j) a b); [lia|..].
    + intros i j x y Hij Hx Hy.
      by apply (H (Datatypes.S i) (Datatypes.S j) x y); [lia|..].
  - intros [Hall Hl] i j x y Hij Hx Hy.
    destruct j as [|j]; [lia|]. cbn in Hy.
    destruct i as [|i].
    + injection Hx as <-. rewrite Forall_lookup in Hall. by apply (Hall j).
    + cbn in Hx. apply (Hl i j); [lia|done..].
Qed.

Lemma ordered_by_nil {A} (R : A → A → Prop) : ordered_by R [].
Proof. intros i j a b _ H. by rewrite lookup_nil in H. Qed.

Section SortedBy.

Context {A K : Type} (key : A → K) (le : K → K → bool).

Lemma insert_sorted_Permutation a l : insert_sorted key le a l ≡ₚ a :: l.
Proof.
  induction l as [|b l IH]; cbn [insert_sorted]; [done|].
  destruct (le (key a) (key b)); [done|]. rewrite IH. apply perm_swap.
Qed.

Lemma sorted_by_Permutation l : sorted_by key le l ≡ₚ l.
Proof.
  induction l as [|a l IH]; [done|]. unfold sorted_by in *. cbn [foldr].
  rewrite insert_sorted_Permutation. by f_equiv.
Qed.

Hypothesis le_total : ∀ x y, le x y = true ∨ le y x = true.
Hypothesis le_trans : ∀ x y z, le x y = true → le y z = true → le x z = true.

Lemma insert_sorted_ordered a l :
  ordered_by (λ x y, le (key x) (key y) = true) l →
  ordered_by (λ x y, le (key x) (key y) = true) (insert_sorted key le a l).
Proof.
  induction l as [|b l IH]; cbn [insert_sorted]; intros Hl.
  - apply ordered_by_cons. split; [done|apply ordered_by_nil].
  - apply ordered_by_cons in Hl as [Hb Hl].
    destruct (le (key a) (key b)) eqn:E.
    + apply ordered_by_cons. split.
      * constructor; [done|]. eapply Forall_impl; [exact Hb|].
        intros x Hx. cbn in *. by eapply le_trans.
      * by apply ordered_by_cons.
    + apply ordered_by_cons. split; [|by apply IH].
      rewrite insert_sorted_Permutation. constructor; [|done].
      destruct (le_total (key a) (key b)); [congruence|done].
Qed.

Lemma sorted_by_ordered l :
  ordered_by (λ x y, le (key x) (key y) = true) (sorted_by key le l).
Proof.
  induction l as [|a l IH]; [apply ordered_by_nil|].
  unfold sorted_by in *. cbn [foldr]. by apply insert_sorted_ordered.
Qed.

End SortedBy.

Lemma le_pair_total x y : le_pair x y = true ∨ le_pair y x = true.
Proof.
  unfold le_pair.
  destruct (Z.ltb_spec x.1 y.1), (Z.ltb_spec y.1 x.1),
    (Z.eqb_spec x.1 y.1), (Z.eqb_spec y.1 x.1),
    (Z.leb_spec x.2 y.2), (Z.leb_spec y.2 x.2); cbn; try lia; auto.
Qed.

Lemma le_pair_spec x y :
  le_pair x y = true ↔ x.1 < y.1 ∨ (x.1 = y.1 ∧ x.2 ≤ y.2).
Proof.
  unfold le_pair.
  destruct (Z.ltb_spec x.1 y.1), (Z.eqb_spec x.1 y.1), (Z.leb_spec x.2 y.2);
    cbn; split; try lia; try done; intros; lia.
Qed.

Lemma le_pair_trans x y z :
  le_pair x y = true → le_pair y z = true → le_pair x z = true.
Proof. rewrite !le_pair_spec. lia. Qed.

Lemma string_compare_trans s1 :
  ∀ s2 s3, String.leb s1 s2 = true → String.leb s2 s3 = true →
           String.leb s1 s3 = true.
Proof.
  unfold String.leb.
  induction s1 as [|c1 s1 IH]; intros [|c2 s2] [|c3 s3]; cbn; try done.
  unfold Ascii.compare.
  destruct (N.compare_spec (N_of_ascii c1) (N_of_ascii c2)) as [E12|L12|G12];
    destruct (N.compare_spec (N_of_ascii c2) (N_of_ascii c3)) as [E23|L23|G23];
    destruct (N.compare_spec (N_of_ascii c1) (N_of_ascii c3)) as [E13|L13|G13];
    try done; try lia.
  apply IH.
Qed.

Section Connectives.

Context (C : Collaborators).

(** X16. The candidates are processed in the order of their sentence and,
    within a sentence, of their first index, a candidate without indices
    coming first; the sort neither drops nor adds a candidate. *)
Theorem sorted_connectives_ordered (sentences : list pyobj) (cache : Cache)
  (connectives : list Connective) :
  sorted_connectives C sentences cache = Ok connectives →
  ∃ classified,
    classified_connectives C sentences cache = Ok classified
    ∧ connectives ≡ₚ classified
    ∧ ordered_by connective_le connectives.
Proof.
  unfold sorted_connectives, classified_connectives. intros H.
  unfold mbind, result_bind in *. bind_inv H. injection H as <-.
  cbn [bind].
  repeat match goal with
         | E : ?m = Ok _ |- context [?m] => rewrite E; cbn [bind]
         end.
  eexists. split; [done|]. split.
  - apply sorted_by_Permutation.
  - intros i j x y Hij Hx Hy.
    pose proof (sorted_by_ordered connective_key le_pair le_pair_total
                  le_pair_trans _ i j x y Hij Hx Hy) as Hle.
    cbn beta in Hle. apply le_pair_spec in Hle. exact Hle.
Qed.

End Connectives.

Lemma sorted_connectives_ordered_witness :
  sorted_connectives
    (scripted [connective_within 1; connective_across_two; connective_within 0]
       by_first_token)
    [five_tokens; five_tokens; five_tokens] ∅
  = Ok [connective_within 0; connective_within 1; connective_across_two]
  ∧ ordered_by connective_le
      [connective_within 0; connective_within 1; connective_across_two].
Proof.
  assert (H : sorted_connectives
                (scripted
                   [connective_within 1; connective_across_two; connective_within 0]
                   by_first_token)
                [five_tokens; five_tokens; five_tokens] ∅
              = Ok [connective_within 0; connective_within 1;
                    connective_across_two])
    by (vm_compute; reflexivity).
  split; [exact H|].
  destruct (sorted_connectives_ordered _ _ _ _ H) as (classified & _ & _ & Hord).
  exact Hord.
Defined.

(* --------------------------------------------------------------------- *)
(** ** The "triple" format *)
(* --------------------------------------------------------------------- *)

Lemma getitem_elem_of {A} (l : list A) i a : getitem l i = Ok a → a ∈ l.
Proof.
  unfold getitem. cbn zeta.
  destruct ((if i <? 0 then i + len l else i) <? 0); [done|].
  destruct (l !! Z.to_nat (if i <? 0 then i + len l else i)) eqn:E; [|done].
  intros [= <-]. by eapply list_elem_of_lookup_2.
Qed.

Lemma map_each_Forall {X Y} (f : X → result Y) (P : X → Prop) (Q : Y → Prop)
  xs ys :
  (∀ x y, f x = Ok y → P x ∧ Q y) →
  map_each f xs = Ok ys → Forall P xs ∧ Forall Q ys.
Proof.
  intros Hf. revert ys. induction xs as [|x xs IH]; intros ys H.
  - injection H as <-. by split.
  - cbn [map_each] in H. bind_inv H. injection H as <-.
    match goal with
    | E : f x = Ok _ |- _ => apply Hf in E as [? ?]
    end.
    destruct (IH _ eq_refl) as [? ?].
    split; by constructor.
Qed.

Lemma Relation_call0_triples_fails r name ts :
  Relation_call0_triples r name ≠ Ok ts.
Proof.
  unfold Relation_call0_triples, mbind, result_bind.
  by destruct (Relation_getattr r name).
Qed.

Lemma map_each_triples_Ok name relations ts :
  map_each (λ r, Relation_call0_triples r name) relations = Ok ts →
  relations = [] ∧ ts = [].
Proof.
  destruct relations as [|r rest]; cbn [map_each].
  - by intros [= <-].
  - destruct (Relation_call0_triples r name) eqn:E; [|done].
    by apply Relation_call0_triples_fails in E.
Qed.

Lemma all_triples_Ok name relations ts :
  all_triples name relations = Ok ts → relations = [] ∧ ts = [].
Proof.
  unfold all_triples. intros H. bind_inv H. injection H as <-.
  match goal with
  | E : map_each _ _ = Ok _ |- _ => apply map_each_triples_Ok in E as [-> ->]
  end.
  done.
Qed.

Lemma call_copy_deepcopy r : call_copy "deepcopy" r = Ok r.
Proof. reflexivity. Qed.

Lemma rid2relation_nil copier merger para_relations :
  concat para_relations = [] →
  rid2relation copier merger para_relations = Ok ∅.
Proof. unfold rid2relation. by intros ->. Qed.

Section TripleFormat.

Context (C : Collaborators).

(** X17. The combined entry point never returns a triple.  A call with
    the relation format "triple" that returns found no relation at all:
    in-order it returns the empty buckets themselves, merged the empty
    sequence.  (A relation has no method [to_triple] or [to_triples].) *)
Theorem combined_triple_format_no_triple (parsed_result : pyobj) (ef : string)
  (in_order : bool) (cache : Cache) out :
  extract_from_parsed_result C parsed_result ef "triple" in_order cache = Ok out →
  no_relation out.2.
Proof.
  unfold extract_from_parsed_result. intros H.
  destruct (unsupported ef "Eventuality" "json"); [done|].
  change (unsupported "triple" "Relation" "triple") with false in H.
  cbn iota in H. bind_inv H.
  unfold output_stage in H. destruct in_order.
  - change (String.eqb "triple" "triple") with true in H. cbn iota in H.
    bind_inv H.
    match goal with
    | E : map_each (all_triples _) _ = Ok _ |- _ =>
        apply (map_each_Forall _ (λ bucket, bucket = []) (λ _, True)) in E
          as [Hempty _];
        [|by intros ? ? [-> _]%all_triples_Ok]
    end.
    destruct (String.eqb ef "json");
      match type of H with
      | (if ?b then _ else _) = _ => destruct b
      end;
      bind_inv H; injection H as <-; cbn [snd no_relation]; try done;
      match goal with
      | E : getitem _ 0 = Ok ?r |- ?r = [] =>
          apply getitem_elem_of in E;
          by apply (proj1 (Forall_forall _ _) Hempty)
      end.
  - unfold merged_relations in H.
    change (String.eqb "triple" "Relation") with false in H. cbn iota in H.
    unfold mbind, result_bind in H. bind_inv_all. injection H as <-.
    repeat match goal with
           | E : Ok _ = Ok _ |- _ => injection E as <-
           end.
    cbn [snd no_relation].
    match goal with
    | E : all_triples _ _ = Ok _ |- _ => apply all_triples_Ok in E as [_ ->]
    end.
    done.
Qed.

(** X18. Relation extraction never returns a triple either: a call with
    the format "triple" that returns found no relation, and its result is
    made of empty lists. *)
Theorem relations_triple_format_no_triple (parsed_result : pyobj)
  (para_eventualities : list (list Eventuality)) (in_order : bool)
  (cache : Cache) out :
  extract_relations_from_parsed_result C parsed_result para_eventualities
    "triple" in_order cache
  = Ok out →
  no_relation out.
Proof.
  unfold extract_relations_from_parsed_result.
  change (unsupported "triple" "Relation" "triple") with false.
  cbn iota. intros H. bind_inv H.
  match type of H with
  | (if ?b then _ else _) = _ => destruct b
  end.
  - destruct in_order; injection H as <-; cbn; [by constructor|done].
  - bind_inv H.
    change (String.eqb "triple" "Relation") with false in H.
    destruct in_order; cbn iota in H; bind_inv H; injection H as <-;
      cbn [no_relation].
    + match goal with
      | E : map_each _ _ = Ok _ |- _ =>
          apply (map_each_Forall _ (λ _, True) (λ bucket, bucket = [])) in E
            as [_ Hempty]; [done|]
      end.
      intros relations ts Hts. bind_inv Hts. injection Hts as <-.
      match goal with
      | E : all_triples _ _ = Ok _ |- _ => apply all_triples_Ok in E as [_ ->]
      end.
      done.
    + match goal with
      | E : map_each _ _ = Ok _ |- _ => apply map_each_triples_Ok in E as [_ ->]
      end.
      constructor.
Qed.

End TripleFormat.

Lemma combined_triple_format_no_triple_witness :
  extract_from_parsed_result (scripted [] by_first_token) (PList [five_tokens])
    "Eventuality" "triple" true ∅
  = Ok (OutEvBuckets [[]], OutRelBuckets [[]])
  ∧ no_relation (OutRelBuckets [[]]).
Proof.
  assert (H : extract_from_parsed_result (scripted [] by_first_token)
                (PList [five_tokens]) "Eventuality" "triple" true ∅
              = Ok (OutEvBuckets [[]], OutRelBuckets [[]]))
    by (vm_compute; reflexivity).
  split; [exact H|].
  exact (combined_triple_format_no_triple _ _ _ _ _ _ H).
Defined.

Lemma relations_triple_format_no_triple_witness :
  extract_relations_from_parsed_result (scripted [] (λ _, []))
    (PList [five_tokens]) [[eventuality_at "a" [0; 1]]] "triple" true ∅
  = Ok (OutTripleLists [[]])
  ∧ no_relation (OutTripleLists [[]]).
Proof.
  assert (H : extract_relations_from_parsed_result (scripted [] (λ _, []))
                (PList [five_tokens]) [[eventuality_at "a" [0; 1]]] "triple"
                true ∅
              = Ok (OutTripleLists [[]]))
    by (vm_compute; reflexivity).
  split; [exact H|].
  exact (relations_triple_format_no_triple _ _ _ _ _ _ H).
Defined.

(* --------------------------------------------------------------------- *)
(** ** The merged output when identities do or do not repeat *)
(* --------------------------------------------------------------------- *)

Lemma rid2relation_loop_distinct (l : list Relation) :
  ∀ d : gmap string Relation,
    NoDup (rid <$> l) → (∀ r, r ∈ l → d !! rid r = None) →
    ∃ d',
      for_each
        (λ (d : gmap string Relation) relation,
           match d !! rid relation with
           | None => r ← call_copy "deepcopy" relation; Ok (<[rid relation := r]> d)
           | Some known =>
               r ← Relation_call1 known "update" (ArgRelation relation);
               Ok (<[rid relation := r]> d)
           end)
        l d
      = Ok d'
      ∧ map_to_list d' ≡ₚ ((λ r, (rid r, r)) <$> l) ++ map_to_list d.
Proof.
  induction l as [|r l IH]; intros d Hnd Hfresh.
  - exists d. by split.
  - apply NoDup_cons in Hnd as [Hr Hnd].
    assert (Hd : d !! rid r = None) by (apply Hfresh; left).
    destruct (IH (<[rid r := r]> d) Hnd) as (d' & Hloop & Hperm).
    { intros r' Hr'. rewrite lookup_insert_ne; [apply Hfresh; by right|].
      intros Heq. apply Hr. rewrite Heq. apply list_elem_of_fmap. eauto. }
    exists d'. split.
    + cbn [for_each]. rewrite Hd. unfold mbind, result_bind.
      rewrite call_copy_deepcopy. cbn [bind]. exact Hloop.
    + rewrite Hperm, map_to_list_insert by done. cbn [fmap list_fmap].
      by rewrite <- Permutation_middle.
Qed.

Lemma rid2relation_loop_clash (l : list Relation) :
  ∀ d : gmap string Relation,
    ¬ (NoDup (rid <$> l) ∧ ∀ r, r ∈ l → d !! rid r = None) →
    for_each
      (λ (d : gmap string Relation) relation,
         match d !! rid relation with
         | None => r ← call_copy "deepcopy" relation; Ok (<[rid relation := r]> d)
         | Some known =>
             r ← Relation_call1 known "update" (ArgRelation relation);
             Ok (<[rid relation := r]> d)
         end)
      l d
    = Raise AttributeError.
Proof.
  induction l as [|r l IH]; intros d Hclash.
  - exfalso. apply Hclash. split; [constructor|].
    intros r Hr. by apply elem_of_nil in Hr.
  - cbn [for_each]. destruct (d !! rid r) as [known|] eqn:Hd; [done|].
    unfold mbind, result_bind. rewrite call_copy_deepcopy. cbn [bind].
    apply IH. intros [Hnd Hfresh]. apply Hclash. split.
    + apply NoDup_cons. split; [|done].
      intros (r' & Heq & Hr')%list_elem_of_fmap.
      specialize (Hfresh r' Hr'). by rewrite <- Heq, lookup_insert_eq in Hfresh.
    + intros r' [->|Hr']%elem_of_cons; [done|].
      specialize (Hfresh r' Hr'). by apply lookup_insert_None in Hfresh as [? _].
Qed.

Lemma merged_relations_distinct (para_relations : list (list Relation)) :
  NoDup (rid <$> concat para_relations) →
  ∃ l, merged_relations para_relations "Relation" = Ok (OutRels l)
       ∧ l ≡ₚ concat para_relations
       ∧ ordered_by rid_le l.
Proof.
  intros Hnd.
  destruct (rid2relation_loop_distinct (concat para_relations) ∅ Hnd)
    as (d & Hloop & Hperm); [intros; apply lookup_empty|].
  exists (sort_by_rid (map_to_list d).*2). split; [|split].
  - unfold merged_relations, rid2relation.
    unfold mbind, result_bind in *. rewrite Hloop. done.
  - unfold sort_by_rid. rewrite sorted_by_Permutation, Hperm.
    rewrite map_to_list_empty, app_nil_r, <- list_fmap_compose.
    by rewrite list_fmap_id.
  - apply sorted_by_ordered; [apply String.leb_total|].
    intros x y z. apply string_compare_trans.
Qed.

Lemma merged_relations_repeated (para_relations : list (list Relation)) fmt :
  ¬ NoDup (rid <$> concat para_relations) →
  merged_relations para_relations fmt = Raise AttributeError.
Proof.
  intros Hdup.
  pose proof (rid2relation_loop_clash (concat para_relations) ∅) as Hclash.
  unfold merged_relations, rid2relation.
  unfold mbind, result_bind in *.
  rewrite Hclash; [done|]. by intros [? _].
Qed.

Lemma eid2eventuality_loop_distinct (l : list Eventuality) :
  ∀ d : gmap string Eventuality,
    NoDup (eid <$> l) → (∀ e, e ∈ l → d !! eid e = None) →
    map_to_list
      (foldl
         (λ (d : gmap string Eventuality) eventuality,
            match d !! eid eventuality with
            | None => <[eid eventuality := eventuality]> d
            | Some known =>
                <[eid eventuality := Eventuality_update known eventuality]> d
            end)
         d l)
    ≡ₚ ((λ e, (eid e, e)) <$> l) ++ map_to_list d.
Proof.
  induction l as [|e l IH]; intros d Hnd Hfresh; [done|].
  apply NoDup_cons in Hnd as [He Hnd].
  assert (Hd : d !! eid e = None) by (apply Hfresh; left).
  cbn [foldl]. rewrite Hd. rewrite IH; [|done|].
  - rewrite map_to_list_insert by done. cbn [fmap list_fmap].
    by rewrite <- Permutation_middle.
  - intros e' He'. rewrite lookup_insert_ne; [apply Hfresh; by right|].
    intros Heq. apply He. rewrite Heq. apply list_elem_of_fmap. eauto.
Qed.

Section Merged.

Context (C : Collaborators).

(** X19. When no [rid] occurs twice in the in-order buckets of the
    combined entry point, its merged relation result is these relations,
    each as it was, in the order of their [rid]. *)
Theorem merged_output_distinct_rids (sentences : list pyobj) (cache : Cache)
  (para_eventualities : list (list Eventuality))
  (para_relations : list (list Relation)) :
  extract_from_parsed_result C (PList sentences) "Eventuality" "Relation" true
    cache
  = Ok (OutEvBuckets para_eventualities, OutRelBuckets para_relations) →
  NoDup (rid <$> concat para_relations) →
  ∃ l,
    extract_from_parsed_result C (PList sentences) "Eventuality" "Relation"
      false cache
    = Ok (merged_eventualities C para_eventualities "Eventuality", OutRels l)
    ∧ l ≡ₚ concat para_relations
    ∧ ordered_by rid_le l.
Proof.
  unfold extract_from_parsed_result.
  change (unsupported "Eventuality" "Eventuality" "json") with false.
  change (unsupported "Relation" "Relation" "triple") with false.
  cbn iota. unfold mbind, result_bind. cbn [paragraph_shape bind].
  destruct (working_collections C sentences cache) as [[pe pr]|]; [|done].
  cbn [bind]. unfold output_stage at 1.
  change (String.eqb "Relation" "triple") with false.
  change (String.eqb "Eventuality" "json") with false.
  cbn [bind]. intros [= -> ->] Hnd.
  destruct (merged_relations_distinct para_relations Hnd) as (l & Hl & Hperm & Hord).
  exists l. split; [|done].
  unfold output_stage, mbind, result_bind. by rewrite Hl.
Qed.

(** X20. When some [rid] occurs twice in the in-order buckets of the
    combined entry point, the merged call raises [AttributeError], in
    whichever relation format: the weights of the two relations are never
    summed. *)
Theorem merged_output_repeated_rid (sentences : list pyobj) (cache : Cache)
  (rf : string)
  (para_eventualities : list (list Eventuality))
  (para_relations : list (list Relation)) :
  extract_from_parsed_result C (PList sentences) "Eventuality" "Relation" true
    cache
  = Ok (OutEvBuckets para_eventualities, OutRelBuckets para_relations) →
  ¬ NoDup (rid <$> concat para_relations) →
  unsupported rf "Relation" "triple" = false →
  extract_from_parsed_result C (PList sentences) "Eventuality" rf false cache
  = Raise AttributeError.
Proof.
  unfold extract_from_parsed_result.
  change (unsupported "Eventuality" "Eventuality" "json") with false.
  change (unsupported "Relation" "Relation" "triple") with false.
  cbn iota. unfold mbind, result_bind. cbn [paragraph_shape bind].
  destruct (working_collections C sentences cache) as [[pe pr]|]; [|done].
  cbn [bind]. unfold output_stage at 1.
  change (String.eqb "Relation" "triple") with false.
  change (String.eqb "Eventuality" "json") with false.
  cbn [bind]. intros [= -> ->] Hdup ->.
  unfold output_stage, mbind, result_bind.
  by rewrite merged_relations_repeated.
Qed.

(** X21. When no [eid] occurs twice in the in-order buckets of eventuality
    extraction, the merged result is these eventualities, each as it was,
    in the order of their [eid]. *)
Theorem merged_eventualities_distinct_eids (sentences : list pyobj)
  (cache : Cache) (para_eventualities : list (list Eventuality)) :
  extract_eventualities_from_parsed_result C (PList sentences) "Eventuality" true
    cache
  = Ok (OutEvBuckets para_eventualities) →
  NoDup (eid <$> concat para_eventualities) →
  ∃ l,
    extract_eventualities_from_parsed_result C (PList sentences) "Eventuality"
      false cache
    = Ok (OutEvs l)
    ∧ l ≡ₚ concat para_eventualities
    ∧ ordered_by eid_le l.
Proof.
  unfold extract_eventualities_from_parsed_result.
  change (unsupported "Eventuality" "Eventuality" "json") with false.
  cbn iota. unfold mbind, result_bind. cbn [paragraph_shape bind].
  destruct (_extract_clauses C sentences cache) as [pc|]; [|done].
  cbn [bind].
  destruct (map_each _ (zip sentences pc)) as [pe|]; [|done].
  cbn [bind].
  change (String.eqb "Eventuality" "json") with false.
  cbn iota. intros [= ->] Hnd.
  exists (sort_by_eid (map_to_list (eid2eventuality para_eventualities)).*2).
  split; [done|]. split.
  - unfold sort_by_eid, eid2eventuality.
    rewrite sorted_by_Permutation, eid2eventuality_loop_distinct;
      [|done|intros; apply lookup_empty].
    rewrite map_to_list_empty, app_nil_r, <- list_fmap_compose.
    by rewrite list_fmap_id.
  - apply sorted_by_ordered; [apply String.leb_total|].
    intros x y z. apply string_compare_trans.
Qed.

End Merged.

Lemma merged_output_distinct_rids_witness :
  extract_from_parsed_result
    (scripted connectives_to_previous by_first_token)
    (PList [five_tokens; other_tokens]) "Eventuality" "Relation" false ∅
  = Ok (merged_eventualities (scripted connectives_to_previous by_first_token)
          [ [eventuality_at "a" [0; 1]; eventuality_at "c" [3; 4]];
            [eventuality_at "e" [0; 1]] ]
          "Eventuality",
        OutRels [Relation_init (Some "a") (Some "e") (ArgList ["Reason"])]).
Proof.
  assert (H : extract_from_parsed_result
                (scripted connectives_to_previous by_first_token)
                (PList [five_tokens; other_tokens]) "Eventuality" "Relation"
                true ∅
              = Ok (OutEvBuckets
                      [ [eventuality_at "a" [0; 1]; eventuality_at "c" [3; 4]];
                        [eventuality_at "e" [0; 1]] ],
                    OutRelBuckets
                      [ []; [];
                        [Relation_init (Some "a") (Some "e")
                           (ArgList ["Reason"])] ]))
    by (vm_compute; reflexivity).
  assert (Hnd : NoDup
                  (rid <$> concat
                     [ []; [];
                       [Relation_init (Some "a") (Some "e")
                          (ArgList ["Reason"])] ])).
  { cbn [concat app fmap list_fmap]. apply NoDup_singleton. }
  destruct (merged_output_distinct_rids _ _ _ _ _ H Hnd) as (l & Hl & Hperm & _).
  cbn [concat app] in Hperm. apply Permutation_singleton_r in Hperm as ->.
  exact Hl.
Defined.

Lemma merged_output_repeated_rid_witness :
  extract_from_parsed_result
    (scripted [connective_within 0; connective_within 1] by_first_token)
    (PList [five_tokens; five_tokens]) "Eventuality" "triple" false ∅
  = Raise AttributeError.
Proof.
  assert (H : extract_from_parsed_result
                (scripted [connective_within 0; connective_within 1]
                   by_first_token)
                (PList [five_tokens; five_tokens]) "Eventuality" "Relation"
                true ∅
              = Ok (OutEvBuckets
                      [ [eventuality_at "a" [0; 1]; eventuality_at "c" [3; 4]];
                        [eventuality_at "a" [0; 1]; eventuality_at "c" [3; 4]] ],
                    OutRelBuckets
                      [ [Relation_init (Some "a") (Some "c")
                           (ArgList ["Co_Occurrence"; "Reason"])];
                        [Relation_init (Some "a") (Some "c")
                           (ArgList ["Co_Occurrence"; "Reason"])];
                        [] ]))
    by (vm_compute; reflexivity).
  assert (Hdup : ¬ NoDup
                   (rid <$> concat
                      [ [Relation_init (Some "a") (Some "c")
                           (ArgList ["Co_Occurrence"; "Reason"])];
                        [Relation_init (Some "a") (Some "c")
                           (ArgList ["Co_Occurrence"; "Reason"])];
                        [] ])).
  { cbn [concat app fmap list_fmap]. intros [Hin _]%NoDup_cons.
    apply Hin. left. }
  exact (merged_output_repeated_rid _ _ _ "triple" _ _ H Hdup eq_refl).
Defined.

Lemma merged_eventualities_distinct_eids_witness :
  ∃ l,
    extract_eventualities_from_parsed_result
      (with_clauses whole_sentence (scripted [] by_first_token))
      (PList [other_tokens; five_tokens]) "Eventuality" false ∅
    = Ok (OutEvs l)
    ∧ l ≡ₚ [eventuality_at "e" [0; 1; 2; 3; 4];
            eventuality_at "a" [0; 1; 2; 3; 4]]
    ∧ ordered_by eid_le l.
Proof.
  assert (H : extract_eventualities_from_parsed_result
                (with_clauses whole_sentence (scripted [] by_first_token))
                (PList [other_tokens; five_tokens]) "Eventuality" true ∅
              = Ok (OutEvBuckets
                      [ [eventuality_at "e" [0; 1; 2; 3; 4]];
                        [eventuality_at "a" [0; 1; 2; 3; 4]] ]))
    by (vm_compute; reflexivity).
  assert (Hnd : NoDup
                  (eid <$> concat
                     [ [eventuality_at "e" [0; 1; 2; 3; 4]];
                       [eventuality_at "a" [0; 1; 2; 3; 4]] ])).
  { cbn. apply NoDup_cons. split; [|apply NoDup_singleton].
    intros [=]%list_elem_of_singleton. }
  destruct (merged_eventualities_distinct_eids _ _ _ _ H Hnd)
    as (l & Hl & Hperm & Hord).
  exists l. split; [exact Hl|]. split; [exact Hperm|exact Hord].
Defined.

(* --------------------------------------------------------------------- *)
(** ** What the failing lookup leaves of the relation buckets *)
(* --------------------------------------------------------------------- *)

Lemma lookup_or_create_Ok relations heid teid senses relations' :
  lookup_or_create relations heid teid senses = Ok relations' →
  relations = []
  ∧ relations' = [Relation_init (Some heid) (Some teid) (ArgList senses)].
Proof.
  destruct relations as [|relation rest].
  - rewrite lookup_or_create_empty. by intros [= <-].
  - by rewrite lookup_or_create_nonempty.
Qed.

Lemma filled_once_refl relations : filled_once relations relations.
Proof. by left. Qed.

Lemma filled_once_step before relations heid teid senses relations' :
  filled_once before relations →
  lookup_or_create relations heid teid senses = Ok relations' →
  filled_once before relations'.
Proof.
  intros Hf [-> ->]%lookup_or_create_Ok.
  destruct Hf as [<-|[_ [x [=]]]]. right. eauto.
Qed.

Lemma getitem_setitem {A} (l : list A) i a :
  getitem l i = Ok a →
  ∃ n, l !! n = Some a ∧ ∀ b l', setitem l i b = Ok l' → l' = <[n := b]> l.
Proof.
  unfold getitem, setitem. cbn zeta.
  destruct ((if i <? 0 then i + len l else i) <? 0); [done|].
  destruct (l !! Z.to_nat (if i <? 0 then i + len l else i)) eqn:E; [|done].
  intros [= <-]. eexists. split; [exact E|].
  intros b l'. destruct (_ <? _)%nat; [by intros [= <-]|done].
Qed.

Lemma setitem_Forall2 {A} (R : A → A → Prop) (base l : list A) i b b' l' :
  Forall2 R base l → getitem l i = Ok b → (∀ b0, R b0 b → R b0 b') →
  setitem l i b' = Ok l' → Forall2 R base l'.
Proof.
  intros Hall (n & Hn & Hset)%getitem_setitem HR ->%Hset.
  destruct (Forall2_lookup_r _ _ _ _ _ Hall Hn) as (b0 & Hb0 & Hb).
  rewrite <- (list_insert_id base n b0 Hb0). apply Forall2_insert; auto.
Qed.

Lemma filled_once_trans before relations relations' :
  filled_once before relations → filled_once relations relations' →
  filled_once before relations'.
Proof.
  intros [->|[-> [x ->]]] [->|[E [y ->]]].
  - by left.
  - right. eauto.
  - right. eauto.
  - done.
Qed.

Section FilledOnce.

Context (C : Collaborators).

Lemma argument_relations_Ok eventualities1 eventualities2 senses relations
  relations' :
  argument_relations eventualities1 eventualities2 senses relations
  = Ok relations' →
  ((eventualities1 = [] ∨ eventualities2 = []) ∧ relations' = relations)
  ∨ (relations = []
     ∧ ∃ e1 e2,
         eventualities1 = [e1] ∧ eventualities2 = [e2]
         ∧ relations'
           = [Relation_init (Some (eid e1)) (Some (eid e2)) (ArgList senses)]).
Proof.
  unfold argument_relations. destruct eventualities2 as [|e2 rest2].
  - intros H. left. split; [by right|].
    revert H. induction eventualities1 as [|e1 rest1 IH]; cbn [for_each bind].
    + by intros [= <-].
    + exact IH.
  - destruct eventualities1 as [|e1 rest1].
    { intros [= <-]. left. split; [by left|done]. }
    cbn [for_each]. destruct relations as [|x relations].
    2:{ by rewrite lookup_or_create_nonempty. }
    rewrite lookup_or_create_empty. cbn [bind].
    destruct rest2 as [|e2' rest2'].
    2:{ cbn [for_each]. by rewrite lookup_or_create_nonempty. }
    cbn [for_each bind].
    destruct rest1 as [|e1' rest1'].
    { intros [= <-]. right. split; [done|]. eauto 10. }
    cbn [for_each]. by rewrite lookup_or_create_nonempty.
Qed.

Lemma same_sentence_relations_Ok sent_parsed_result a1 a2 sense
  sent_eventualities relations relations' :
  same_sentence_relations C sent_parsed_result a1 a2 sense sent_eventualities
    relations
  = Ok relations' →
  filled_once relations relations'.
Proof.
  unfold same_sentence_relations. intros H.
  apply (for_each_invariant (filled_once relations)) in H;
    [done|apply filled_once_refl|].
  intros r1 e1_idx r2 Hr1 Hbody. bind_inv Hbody.
  match type of Hbody with
  | (if ?b then _ else _) = _ => destruct b
  end; [by injection Hbody as <-|].
  apply (for_each_invariant (filled_once relations)) in Hbody; [done|done|].
  intros r3 e2_idx r4 Hr3 Hinner. bind_inv Hinner.
  match type of Hinner with
  | (if ?b then _ else _) = _ => destruct b
  end; [by injection Hinner as <-|].
  by eapply filled_once_step.
Qed.

Lemma cross_sentence_relations_Ok bound a1 a2 sense sent_eventualities1
  sent_eventualities2 relations relations' :
  cross_sentence_relations C bound a1 a2 sense sent_eventualities1
    sent_eventualities2 relations
  = Ok relations' →
  filled_once relations relations'.
Proof.
  unfold cross_sentence_relations. intros H.
  apply (for_each_invariant (filled_once relations)) in H;
    [done|apply filled_once_refl|].
  intros r1 e1 r2 Hr1 Hbody. bind_inv Hbody.
  match type of Hbody with
  | (if ?b then _ else _) = _ => destruct b
  end; [by injection Hbody as <-|].
  apply (for_each_invariant (filled_once relations)) in Hbody; [done|done|].
  intros r3 e2 r4 Hr3 Hinner. bind_inv Hinner.
  match type of Hinner with
  | (if ?b then _ else _) = _ => destruct b
  end; [by injection Hinner as <-|].
  by eapply filled_once_step.
Qed.

Lemma relations_round_filled n parsed_result pe base st connective st' :
  Forall2 filled_once base st.1 →
  relations_round C n parsed_result pe st connective = Ok st' →
  Forall2 filled_once base st'.1.
Proof.
  unfold relations_round. destruct st as [pr bound]. cbn [fst]. intros Hall H.
  destruct (truthy_list (indices connective)); [|by injection H as <-].
  destruct (arg1 connective) as [a1|]; [|by injection H as <-].
  destruct (arg2 connective) as [a2|]; [|by injection H as <-].
  destruct (explicit_sense connective) as [sense|]; [|by injection H as <-].
  destruct (arg_sent_idx a1 =? arg_sent_idx a2);
    bind_inv H; injection H as <-; cbn [fst].
  - match goal with
    | E1 : getitem pr _ = Ok _, E2 : same_sentence_relations _ _ _ _ _ _ _ = Ok _,
      E3 : setitem pr _ _ = Ok _ |- _ =>
        apply same_sentence_relations_Ok in E2;
        apply (setitem_Forall2 _ _ _ _ _ _ _ Hall E1) in E3; [done|]
    end.
    intros b0 Hb0. by eapply filled_once_trans.
  - match goal with
    | E1 : getitem pr _ = Ok _, E2 : cross_sentence_relations _ _ _ _ _ _ _ _ = Ok _,
      E3 : setitem pr _ _ = Ok _ |- _ =>
        apply cross_sentence_relations_Ok in E2;
        apply (setitem_Forall2 _ _ _ _ _ _ _ Hall E1) in E3; [done|]
    end.
    intros b0 Hb0. by eapply filled_once_trans.
Qed.

Lemma extraction_round_single n parsed_result st connective st' :
  Forall (λ bucket : list Relation, (length bucket ≤ 1)%nat) st.2 →
  extraction_round C n parsed_result st connective = Ok st' →
  Forall (λ bucket : list Relation, (length bucket ≤ 1)%nat) st'.2.
Proof.
  unfold extraction_round. destruct st as [pe pr]. cbn [snd]. intros Hall H.
  destruct (truthy_list (indices connective)); [|by injection H as <-].
  destruct (arg1 connective) as [a1|]; [|by injection H as <-].
  destruct (arg2 connective) as [a2|]; [|by injection H as <-].
  bind_inv H.
  destruct (relation_list_idx n (arg_sent_idx a1) (arg_sent_idx a2));
    [|by injection H as <-].
  destruct (len (candidate_senses (arg_sent_idx a1) (arg_sent_idx a2) connective)
            =? 0); [by injection H as <-|].
  bind_inv H. injection H as <-. cbn [snd].
  match goal with
  | E1 : getitem pr _ = Ok ?b, E2 : argument_relations _ _ _ _ = Ok ?b',
    E3 : setitem pr _ _ = Ok _ |- _ =>
      apply getitem_setitem in E1 as (k & Hk & Hset);
      apply Hset in E3 as ->;
      apply argument_relations_Ok in E2
        as [[_ ->]|[-> (e1 & e2 & _ & _ & ->)]]
  end.
  - by rewrite list_insert_id.
  - apply Forall_insert; [done|]. cbn. lia.
Qed.

(** X22. Whenever the combined entry point returns in-order, no bucket
    holds more than one relation: the search for an existing relation
    raises on a bucket that is not empty, so a second relation for a bucket
    is never appended. *)
Theorem combined_buckets_hold_one_relation (sentences : list pyobj)
  (ef rf : string) (cache : Cache) out :
  extract_from_parsed_result C (PList sentences) ef rf true cache = Ok out →
  ∃ r, out.2 = OutRelBuckets r
       ∧ Forall (λ bucket, (length bucket ≤ 1)%nat) r.
Proof.
  unfold extract_from_parsed_result. intros H.
  destruct (unsupported ef "Eventuality" "json"); [done|].
  destruct (unsupported rf "Relation" "triple"); [done|].
  unfold mbind, result_bind in H. cbn [paragraph_shape bind] in H.
  bind_inv H.
  match goal with
  | E : working_collections _ _ _ = Ok _ |- _ =>
      unfold working_collections in E; bind_inv E;
      apply (for_each_invariant
               (λ st, Forall (λ bucket : list Relation, (length bucket ≤ 1)%nat)
                        st.2)) in E;
      [|by apply Forall_replicate; cbn; lia
       |by intros ? ? ?; apply extraction_round_single]
  end.
  unfold output_stage in H. bind_inv H.
  destruct (String.eqb ef "json"); injection H as <-; cbn [fst snd] in *; eauto.
Qed.

(** X23. Whenever relation extraction returns in-order, the bucket of a
    sentence that has two or more eventualities holds exactly its baseline
    [Co_Occurrence] relations: no explicit sense of a connective is ever
    recorded between two eventualities of such a sentence. *)
Theorem baseline_bucket_is_final (sentences : list pyobj)
  (pe : list (list Eventuality)) (cache : Cache) r (i : nat) evs :
  extract_relations_from_parsed_result C (PList sentences) pe "Relation" true
    cache
  = Ok (OutRelBuckets r) →
  (i < length sentences)%nat → pe !! i = Some evs → (2 ≤ length evs)%nat →
  r !! i = Some (cooccurrence_pairs evs).
Proof.
  intros H Hi Hevs Hk.
  assert (Hne : sentences ≠ []) by (intros ->; cbn in Hi; lia).
  destruct (baseline_spec C sentences pe Hne) as (b & Hb & Hrel).
  assert (Hbase : baseline_relations b !! i = Some (cooccurrence_pairs evs)).
  { destruct (lookup_lt_is_Some_2 sentences i Hi) as [sent Hsent].
    rewrite Hrel. apply lookup_app_l_Some.
    rewrite list_lookup_fmap, list_lookup_fmap.
    assert (Hz : zip sentences pe !! i = Some (sent, evs))
      by (apply lookup_zip_with_Some; eauto).
    by rewrite Hz. }
  revert H. unfold extract_relations_from_parsed_result.
  cbn [unsupported String.eqb]. cbn [py_len]. cbn.
  assert ((len sentences =? 0) = false) as ->.
  { apply Z.eqb_neq. unfold len. destruct sentences; [done|simpl; lia]. }
  unfold relation_buckets, mbind, result_bind. cbn [py_iter bind].
  rewrite Hb. cbn [bind]. intros H. bind_inv_all.
  injection H as <-.
  repeat match goal with
         | E : Ok _ = Ok _ |- _ => injection E as <-
         end.
  match goal with
  | E : for_each _ _ _ = Ok ?st |- _ =>
      apply (for_each_invariant
               (λ st, Forall2 filled_once (baseline_relations b) st.1)) in E;
      [|by apply Forall_Forall2_diag, Forall_forall; intros; apply filled_once_refl
       |by intros ? ? ? ?; eapply relations_round_filled];
      destruct (Forall2_lookup_l _ _ _ _ _ E Hbase) as (bucket & -> & Hf)
  end.
  f_equal. destruct Hf as [->|[Hempty _]]; [done|].
  destruct evs as [|e1 [|e2 rest]]; cbn in Hk; [lia..|]. done.
Qed.

End FilledOnce.

Lemma combined_buckets_hold_one_relation_witness :
  extract_from_parsed_result
    (scripted [connective_within 0; connective_within 1] by_first_token)
    (PList [five_tokens; five_tokens]) "Eventuality" "Relation" true ∅
  = Ok (OutEvBuckets
          [ [eventuality_at "a" [0; 1]; eventuality_at "c" [3; 4]];
            [eventuality_at "a" [0; 1]; eventuality_at "c" [3; 4]] ],
        OutRelBuckets
          [ [Relation_init (Some "a") (Some "c")
               (ArgList ["Co_Occurrence"; "Reason"])];
            [Relation_init (Some "a") (Some "c")
               (ArgList ["Co_Occurrence"; "Reason"])];
            [] ])
  ∧ ∃ r, OutRelBuckets
           [ [Relation_init (Some "a") (Some "c")
                (ArgList ["Co_Occurrence"; "Reason"])];
             [Relation_init (Some "a") (Some "c")
                (ArgList ["Co_Occurrence"; "Reason"])];
             [] ]
         = OutRelBuckets r
         ∧ Forall (λ bucket, (length bucket ≤ 1)%nat) r.
Proof.
  assert (H : extract_from_parsed_result
                (scripted [connective_within 0; connective_within 1]
                   by_first_token)
                (PList [five_tokens; five_tokens]) "Eventuality" "Relation"
                true ∅
              = Ok (OutEvBuckets
                      [ [eventuality_at "a" [0; 1]; eventuality_at "c" [3; 4]];
                        [eventuality_at "a" [0; 1]; eventuality_at "c" [3; 4]] ],
                    OutRelBuckets
                      [ [Relation_init (Some "a") (Some "c")
                           (ArgList ["Co_Occurrence"; "Reason"])];
                        [Relation_init (Some "a") (Some "c")
                           (ArgList ["Co_Occurrence"; "Reason"])];
                        [] ]))
    by (vm_compute; reflexivity).
  split; [exact H|].
  exact (combined_buckets_hold_one_relation _ _ _ _ _ _ H).
Defined.

Lemma baseline_bucket_is_final_witness :
  extract_relations_from_parsed_result
    (scripted [connective_within 0] (λ _, []))
    (PList [five_tokens])
    [[eventuality_at "a" [0; 1]; eventuality_at "b" [1; 2]]]
    "Relation" true ∅
  = Ok (OutRelBuckets
          [[Relation_init (Some "a") (Some "b") (ArgList ["Co_Occurrence"])]])
  ∧ [[Relation_init (Some "a") (Some "b") (ArgList ["Co_Occurrence"])]] !! 0%nat
    = Some (cooccurrence_pairs
              [eventuality_at "a" [0; 1]; eventuality_at "b" [1; 2]]).
Proof.
  assert (H : extract_relations_from_parsed_result
                (scripted [connective_within 0] (λ _, []))
                (PList [five_tokens])
                [[eventuality_at "a" [0; 1]; eventuality_at "b" [1; 2]]]
                "Relation" true ∅
              = Ok (OutRelBuckets
                      [[Relation_init (Some "a") (Some "b")
                          (ArgList ["Co_Occurrence"])]]))
    by (vm_compute; reflexivity).
  split; [exact H|].
  refine (baseline_bucket_is_final _ _ _ _ _ 0%nat _ H _ eq_refl _);
    cbn; lia.
Defined.

(* --------------------------------------------------------------------- *)
(** ** Rejected calls and discarded candidates *)
(* --------------------------------------------------------------------- *)

Lemma for_each_invariant_Forall {S X} (P : S → Prop) (Q : X → Prop)
  (body : S → X → result S) xs :
  Forall Q xs →
  (∀ s x s', Q x → P s → body s x = Ok s' → P s') →
  ∀ s s', P s → for_each body xs s = Ok s' → P s'.
Proof.
  intros HQ Hbody. induction HQ as [|x xs Hx _ IH]; intros s s' Hs H.
  - by injection H as <-.
  - cbn [for_each] in H. destruct (body s x) as [s1|] eqn:E; [|done].
    cbn [bind] in H. eapply IH; [|exact H]. by eapply Hbody.
Qed.

Section Rejected.

Context (C : Collaborators).

(** X24. Both combined entry points, the one of [DiscourseASERExtractor3]
    and the one of [BaseASERExtractor], raise [NotImplementedError] for an
    unsupported eventuality format, an unsupported relation format or a
    paragraph that is neither a dictionary nor a list or tuple, before any
    extractor is called: whatever the collaborators would do. *)
Theorem combined_entry_points_reject (parsed_result : pyobj) (ef rf : string)
  (in_order : bool) (cache : Cache) :
  unsupported ef "Eventuality" "json" = true
  ∨ unsupported rf "Relation" "triple" = true
  ∨ recognised_shape parsed_result = false →
  extract_from_parsed_result C parsed_result ef rf in_order cache
  = Raise NotImplementedError
  ∧ Base_extract_from_parsed_result C parsed_result ef rf in_order cache
    = Raise NotImplementedError.
Proof.
  intros H. split.
  - by apply extract_from_parsed_result_checks.
  - by apply Base_extract_from_parsed_result_checks.
Qed.

(** X25. In the combined entry point, candidates whose two arguments lie
    in sentences that are neither the same nor consecutive create no
    relation: when every candidate of a paragraph is such a one, every
    relation bucket of the in-order result is empty, whatever eventualities
    their arguments contributed. *)
Theorem distant_candidates_create_no_relation (sentences : list pyobj)
  (ef rf : string) (cache : Cache) connectives out :
  sorted_connectives C sentences cache = Ok connectives →
  Forall distant connectives →
  extract_from_parsed_result C (PList sentences) ef rf true cache = Ok out →
  out.2 = OutRelBuckets (replicate (Z.to_nat (2 * len sentences - 1)) []).
Proof.
  intros Hconn Hdist. unfold extract_from_parsed_result. intros H.
  destruct (unsupported ef "Eventuality" "json"); [done|].
  destruct (unsupported rf "Relation" "triple"); [done|].
  unfold mbind, result_bind in H. cbn [paragraph_shape bind] in H.
  unfold working_collections, mbind, result_bind in H. rewrite Hconn in H.
  cbn [bind] in H. bind_inv H.
  match goal with
  | E : for_each _ _ _ = Ok _ |- _ =>
      apply (for_each_invariant_Forall
               (λ st, st.2 = replicate (Z.to_nat (2 * len sentences - 1)) [])
               distant _ _ Hdist) in E; [|clear E|done]
  end.
  - unfold output_stage in H. bind_inv H. cbn [snd] in *.
    destruct (String.eqb ef "json"); injection H as <-; cbn [snd]; congruence.
  - intros [pe pr] c [pe' pr'] Hc Hst Hround. cbn [snd] in *. subst pr.
    destruct (arg1 c) as [a1|] eqn:H1.
    + destruct (arg2 c) as [a2|] eqn:H2.
      * destruct (Hc a1 a2 H1 H2) as [Hne Hadj].
        exact (extraction_round_discards_distant C _ _ _ _ _ _ _ _ H1 H2 Hne
                 Hadj Hround).
      * unfold extraction_round in Hround. rewrite H1, H2 in Hround.
        destruct (truthy_list (indices c)); by injection Hround as <- <-.
    + unfold extraction_round in Hround. rewrite H1 in Hround.
      destruct (truthy_list (indices c)); by injection Hround as <- <-.
Qed.

End Rejected.

Lemma combined_entry_points_reject_witness :
  (unsupported "Eventuality" "Eventuality" "json" = true
   ∨ unsupported "triples" "Relation" "triple" = true
   ∨ recognised_shape (PList [five_tokens]) = false)
  ∧ extract_from_parsed_result (scripted [] by_first_token)
      (PList [five_tokens]) "Eventuality" "triples" true ∅
    = Raise NotImplementedError.
Proof.
  assert (H : unsupported "Eventuality" "Eventuality" "json" = true
              ∨ unsupported "triples" "Relation" "triple" = true
              ∨ recognised_shape (PList [five_tokens]) = false)
    by (right; left; reflexivity).
  split; [exact H|].
  exact (proj1 (combined_entry_points_reject (scripted [] by_first_token)
                  (PList [five_tokens]) "Eventuality" "triples" true ∅ H)).
Defined.

Lemma distant_candidates_create_no_relation_witness :
  Forall distant [connective_across_two]
  ∧ extract_from_parsed_result
      (scripted [connective_across_two] by_first_token)
      (PList [five_tokens; five_tokens; other_tokens])
      "Eventuality" "Relation" true ∅
    = Ok (OutEvBuckets
            [ [eventuality_at "a" [0; 1]]; []; [eventuality_at "f" [1; 2]] ],
          OutRelBuckets [ []; []; []; []; [] ])
  ∧ OutRelBuckets [ []; []; []; []; [] ]
    = OutRelBuckets
        (replicate
           (Z.to_nat (2 * len [five_tokens; five_tokens; other_tokens] - 1)) []).
Proof.
  assert (Hconn : sorted_connectives
                    (scripted [connective_across_two] by_first_token)
                    [five_tokens; five_tokens; other_tokens] ∅
                  = Ok [connective_across_two])
    by (vm_compute; reflexivity).
  assert (Hdist : Forall distant [connective_across_two]).
  { constructor; [|constructor]. intros a1 a2 [= <-] [= <-]. cbn. lia. }
  assert (H : extract_from_parsed_result
                (scripted [connective_across_two] by_first_token)
                (PList [five_tokens; five_tokens; other_tokens])
                "Eventuality" "Relation" true ∅
              = Ok (OutEvBuckets
                      [ [eventuality_at "a" [0; 1]]; [];
                        [eventuality_at "f" [1; 2]] ],
                    OutRelBuckets [ []; []; []; []; [] ]))
    by (vm_compute; reflexivity).
  split; [exact Hdist|]. split; [exact H|].
  exact (distant_candidates_create_no_relation _ _ _ _ _ _ _ Hconn Hdist H).
Defined.

(* --------------------------------------------------------------------- *)
(** ** The syntax-tree cache *)
(* --------------------------------------------------------------------- *)

Lemma for_each_ext_invariant {S X} (P : S → Prop) (Q : X → Prop)
  (body1 body2 : S → X → result S) xs :
  Forall Q xs →
  (∀ s x, P s → Q x → body1 s x = body2 s x) →
  (∀ s x s', P s → Q x → body2 s x = Ok s' → P s') →
  ∀ s, P s → for_each body1 xs s = for_each body2 xs s.
Proof.
  intros HQ Hext Hinv. induction HQ as [|x xs Hx _ IH]; intros s Hs; [done|].
  cbn [for_each]. rewrite (Hext s x Hs Hx).
  destruct (body2 s x) as [s'|] eqn:E; [|done]. cbn [bind].
  apply IH. by eapply Hinv.
Qed.

Lemma enumerate_Forall {A} (l : list A) :
  Forall (λ item : Z * A, ∃ i : nat, (i < length l)%nat ∧ item.1 = Z.of_nat i)
    (enumerate l).
Proof.
  apply Forall_lookup. intros k [z a] Hk. unfold enumerate in Hk.
  apply list_lookup_imap_Some in Hk as (a' & Ha' & [= -> ->]).
  exists k. split; [by eapply lookup_lt_Some|done].
Qed.

Section SyntaxTrees.

Context (C : Collaborators).

(** X26. When the caller's cache holds a tree for every sentence index,
    [_extract_clauses] builds no syntax tree: its result does not depend on
    the tree constructor, and a sentence without a ["parse"] entry is not an
    error.  The cache is read by sentence index alone. *)
Theorem extract_clauses_cached (f : string → result tree)
  (parsed_result : list pyobj) (cache : Cache) :
  covers cache parsed_result →
  _extract_clauses (with_syntax_tree f C) parsed_result cache
  = _extract_clauses C parsed_result cache.
Proof.
  intros Hcov. unfold _extract_clauses.
  cbn [with_syntax_tree conn_extract get_clauses SyntaxTree].
  unfold mbind, result_bind.
  destruct (conn_extract C parsed_result cache) as [connectives|]; [|done].
  cbn [bind].
  destruct (for_each _ connectives (replicate (length parsed_result) ∅))
    as [para_connectives|]; [|done].
  cbn [bind]. f_equal.
  apply (for_each_ext_invariant (λ st, covers st.1 parsed_result) _ _ _ _
           (enumerate_Forall parsed_result)); [| |done].
  - intros [c pa] [i s] Hc (k & Hk & Hi). cbn [fst] in *. subst i.
    destruct (Hc k Hk) as [t Ht]. by rewrite Ht.
  - intros [c pa] [i s] [c' pa'] Hc _ Hbody. cbn [fst] in *.
    bind_inv Hbody. injection Hbody as <- <-.
    intros k Hk. destruct (Hc k Hk) as [t Ht].
    destruct (decide (i = Z.of_nat k)) as [->|Hne].
    + rewrite lookup_insert_eq. eauto.
    + rewrite lookup_insert_ne by done. eauto.
Qed.

End SyntaxTrees.

Lemma extract_clauses_cached_witness :
  covers {[ 0 := "(S)" ]} [unparsed_sentence]
  ∧ _extract_clauses
      (with_syntax_tree (λ _, Raise TypeError)
         (with_clauses whole_sentence (scripted [] by_first_token)))
      [unparsed_sentence] {[ 0 := "(S)" ]}
    = Ok [ {[ [0] ]} ].
Proof.
  assert (H : covers {[ 0 := "(S)" ]} [unparsed_sentence]).
  { intros [|i] Hi; [|cbn in Hi; lia]. cbn. by rewrite lookup_singleton_eq. }
  split; [exact H|].
  rewrite (extract_clauses_cached
             (with_clauses whole_sentence (scripted [] by_first_token))
             (λ _, Raise TypeError) _ _ H).
  vm_compute. reflexivity.
Defined.

(* --------------------------------------------------------------------- *)
(** ** The server's import of the extractor *)
(* --------------------------------------------------------------------- *)


